(** * Font Scope Pro: a shallow embedding of the application script

    The script keeps one state container [STATE], a key-value store of font
    records (IndexedDB), one dynamic style sheet and a grid of cards.  Every
    handler is embedded as a function on a [World] that holds the container
    together with the parts of the browser the handlers touch.  Asynchronous
    outcomes (a transaction failing, a file that cannot be read) are explicit
    arguments of the handler that awaits them. *)

From Stdlib Require Import ZArith NArith List Lia String Ascii DecimalString.
From Stdlib Require Import Sorting.Sorted.
From stdpp Require Import base decidable option list gmap.

Set Default Goal Selector "!".

(* ===================================================================== *)
(** * 1. Strings of the script *)
(* ===================================================================== *)

(** A script string is a sequence of UTF-16 code units; [str] reads an ASCII
    literal. *)
Definition str (s : string) : list N :=
  List.map N_of_ascii (list_ascii_of_string s).

(** Truthiness of a string: only the empty string is falsy. *)
Definition truthy (s : list N) : bool :=
  match s with [] => false | _ :: _ => true end.

Definition lower_unit (c : N) : N :=
  if ((65 <=? c) && (c <=? 90))%N then (c + 32)%N else c.

Fixpoint startsWith (s q : list N) {struct q} : bool :=
  match q, s with
  | [], _ => true
  | _ :: _, [] => false
  | c :: q', d :: s' => (c =? d)%N && startsWith s' q'
  end.

(** [s.includes(q)] *)
Fixpoint includes (s q : list N) : bool :=
  startsWith s q ||
  match s with
  | [] => false
  | _ :: s' => includes s' q
  end.

(** [s.endsWith(e)] *)
Definition endsWith (s e : list N) : bool :=
  (length e <=? length s)%nat &&
  bool_decide (drop (length s - length e) s = e).

(** WhiteSpace and LineTerminator code points, the ones [trim] removes. *)
Definition isWhiteSpace (c : N) : bool :=
  ((9 <=? c) && (c <=? 13) || (c =? 0x20) || (c =? 0xA0) || (c =? 0x1680)
   || (0x2000 <=? c) && (c <=? 0x200A) || (c =? 0x2028) || (c =? 0x2029)
   || (c =? 0x202F) || (c =? 0x205F) || (c =? 0x3000) || (c =? 0xFEFF))%N.

Fixpoint trimStart (s : list N) : list N :=
  match s with
  | [] => []
  | c :: s' => if isWhiteSpace c then trimStart s' else s
  end.

Definition trimEnd (s : list N) : list N := rev (trimStart (rev s)).

Definition trim (s : list N) : list N := trimEnd (trimStart s).

(** Decimal rendering of a number, as string concatenation does it. *)
Definition decimal (n : N) : list N :=
  str (NilZero.string_of_uint (N.to_uint n)).

(** [unescape(encodeURIComponent(s))]: the UTF-8 bytes of [s], one code unit
    per byte.  On a lone surrogate [encodeURIComponent] throws; the embedding
    encodes it as a three-byte sequence and does not model that abort. *)
Fixpoint utf8 (s : list N) : list N :=
  match s with
  | [] => []
  | c :: s' =>
    if (c <? 0x80)%N then c :: utf8 s'
    else if (c <? 0x800)%N then
      (0xC0 + c / 64)%N :: (0x80 + c mod 64)%N :: utf8 s'
    else
      let three :=
        (0xE0 + c / 4096)%N :: (0x80 + (c / 64) mod 64)%N
        :: (0x80 + c mod 64)%N :: utf8 s' in
      if ((0xD800 <=? c) && (c <=? 0xDBFF))%N then
        match s' with
        | d :: s'' =>
          if ((0xDC00 <=? d) && (d <=? 0xDFFF))%N then
            let cp := (0x10000 + (c - 0xD800) * 1024 + (d - 0xDC00))%N in
            (0xF0 + cp / 262144)%N :: (0x80 + (cp / 4096) mod 64)%N
            :: (0x80 + (cp / 64) mod 64)%N :: (0x80 + cp mod 64)%N
            :: utf8 s''
          else three
        | [] => three
        end
      else three
  end.

Definition b64char (i : N) : N :=
  (if i <? 26 then 65 + i
   else if i <? 52 then 97 + (i - 26)
   else if i <? 62 then 48 + (i - 52)
   else if i =? 62 then 43 else 47)%N.

(** [btoa] on a string of bytes. *)
Fixpoint btoa (bs : list N) : list N :=
  match bs with
  | [] => []
  | [a] => [b64char (a / 4); b64char ((a mod 4) * 16); 61; 61]%N
  | [a; b] =>
    [b64char (a / 4); b64char ((a mod 4) * 16 + b / 16);
     b64char ((b mod 16) * 4); 61]%N
  | a :: b :: c :: rest =>
    (b64char (a / 4) :: b64char ((a mod 4) * 16 + b / 16)
     :: b64char ((b mod 16) * 4 + c / 64) :: b64char (c mod 64)
     :: btoa rest)%N
  end.

(* ===================================================================== *)
(** * 2. Records, files and the [Security] object *)
(* ===================================================================== *)

Record Blob := { blob_type : list N; blob_bytes : list N }.

Definition blob_size (b : Blob) : N := N.of_nat (length (blob_bytes b)).

(** The payload of a stored record: a blob, a string URL, or anything else. *)
Inductive Data :=
| DBlob (b : Blob)
| DString (s : list N)
| DOther.

(** [userTag] is optional: [None] is [undefined]. *)
Record FontRecord := {
  fileName : list N;
  data : Data;
  userTag : option (list N)
}.

(** A file handed over by the picker or by a drop.  The two flags say
    whether a FileReader succeeds on its first four bytes and on the whole
    file. *)
Record File := {
  name : list N;
  ftype : list N;
  fbytes : list N;
  slice_readable : bool;
  readable : bool
}.

Definition size (f : File) : N := N.of_nat (length (fbytes f)).

Definition MAX_FONTS : nat := 500.
Definition MAX_FILE_SIZE : N := (50 * 1024 * 1024)%N.

Definition validExtensions : list (list N) :=
  [str ".ttf"; str ".otf"; str ".woff"; str ".woff2"].

(** TTF, OTF, WOFF, WOFF2 *)
Definition MAGIC : list N := [0x00010000; 0x4F54544F; 0x774F4646; 0x774F4632]%N.

Definition isAlnum (c : N) : bool :=
  ((97 <=? c) && (c <=? 122) || (65 <=? c) && (c <=? 90)
   || (48 <=? c) && (c <=? 57))%N.

Module Security.

Definition safeFontId (fileName : list N) (blob : Data) : list N :=
  let size := match blob with DBlob b => blob_size b | _ => 0%N end in
  let type :=
    match blob with
    | DBlob b => if truthy (blob_type b) then blob_type b else str "na"
    | _ => str "na"
    end in
  let base := fileName ++ str "_" ++ decimal size ++ str "_" ++ type in
  let encodedBase := utf8 base in
  let safeStr := List.map (fun c => if isAlnum c then c else 95%N) fileName in
  let hash := take 8 (List.filter (fun c => negb (c =? 61)%N) (btoa encodedBase)) in
  str "f_" ++ take 20 safeStr ++ str "_" ++ hash.

(** The character class of the [replace] in [sanitizeTag]. *)
Definition isStripped (c : N) : bool :=
  ((c <=? 0x1F) || (0x7F <=? c) && (c <=? 0x9F) || (c =? 0x200E)
   || (c =? 0x200F) || (0x202A <=? c) && (c <=? 0x202E))%N.

Definition sanitizeTag (s : list N) : list N :=
  if negb (truthy s) then []
  else List.filter (fun c => negb (isStripped c)) (take 40 (trim s)).

(** What a promise settles to. *)
Inductive settled (A : Type) :=
| Resolved (a : A)
| Rejected.
Arguments Resolved {A} a.
Arguments Rejected {A}.

Inductive exn := RangeError.

(** [view.getUint32(off, false)]: big-endian, throws out of range. *)
Definition getUint32 (view : list N) (off : nat) : exn + N :=
  match drop off view with
  | b0 :: b1 :: b2 :: b3 :: _ =>
    inr (N.lor (N.shiftl b0 24)
           (N.lor (N.shiftl b1 16) (N.lor (N.shiftl b2 8) b3)))
  | _ => inl RangeError
  end.

(** The body of the [try] in [reader.onload]. *)
Definition onload_try (view : list N) : exn + bool :=
  if (length view <? 4)%nat then inr false
  else
    match getUint32 view 0 with
    | inl e => inl e
    | inr magic => inr (bool_decide (magic ∈ MAGIC))
    end.

Definition checkSignature (file : File) : settled bool :=
  let slice := take 4 (fbytes file) in
  if slice_readable file then
    match onload_try slice with
    | inr valid => Resolved valid
    | inl _ => Resolved false
    end
  else Resolved false.

End Security.

(* ===================================================================== *)
(** * 3. The world: [STATE] and the browser around it *)
(* ===================================================================== *)

(** A resource URL: one made by [URL.createObjectURL], or a string payload
    used as it is. *)
Inductive Url :=
| UObj (id : nat)
| UStr (s : list N).

(** One [@font-face] rule of the master sheet. *)
Record Rule := { rule_family : list N; rule_src : Url }.

(** A rendered entry [{ card, preview }]: two DOM nodes, by identity. *)
Record Entry := { card : nat; preview : nat }.

(** The children of the grid: cards and the placeholder [#emptyState]. *)
Inductive Node :=
| NCard (id : nat)
| NEmpty.

(** Toast texts, one constructor per message of the script. *)
Inductive Msg :=
| MsgUnsupported            (* unsupported file format *)
| MsgLimit                  (* the 500 fonts cap *)
| MsgNoSpace                (* not enough storage *)
| MsgTooBig (file : list N)
| MsgBadFont (file : list N)
| MsgReadFailed (file : list N)
| MsgUploaded (count : nat)
| MsgDeleted
| MsgDeleteFailed
| MsgCleared
| MsgClearFailed
| MsgNoResults
| MsgNoData.

(** What a handler does to the outside, in order: toasts, store requests with
    their outcome, and progress updates ([num / den] of the bar). *)
Inductive Event :=
| EToast (m : Msg) (error : bool)
| EPut (r : FontRecord) (ok : bool)
| EDelete (key : list N) (ok : bool)
| EClear (ok : bool)
| EProgress (num den : nat) (show : bool).

#[global] Instance Url_eq_dec : EqDecision Url.
Proof. solve_decision. Defined.
#[global] Instance Node_eq_dec : EqDecision Node.
Proof. solve_decision. Defined.
#[global] Instance Blob_eq_dec : EqDecision Blob.
Proof. solve_decision. Defined.
#[global] Instance Data_eq_dec : EqDecision Data.
Proof. solve_decision. Defined.
#[global] Instance FontRecord_eq_dec : EqDecision FontRecord.
Proof. solve_decision. Defined.

(** The first seven fields are the fields of [STATE] ([db], [previewText] and
    [previewNodes] play no part in what follows and are left out).  [fonts]
    and [filtered] hold references into [heap]: the two arrays share their
    record objects.  [store] is the object store of IndexedDB, [sheet] the
    rules of the master style sheet, [grid] the children of [#fontGrid],
    [live_urls] the object URLs created and not yet revoked. *)
Record World := {
  fonts : list nat;
  filtered : list nat;
  search : list N;
  loadedFonts : gset (list N);
  objectUrls : gmap (list N) Url;
  renderedMap : gmap (list N) Entry;
  isProcessing : bool;
  heap : list FontRecord;
  store : list FontRecord;
  sheet : list Rule;
  grid : list Node;
  next_id : nat;
  live_urls : gset nat;
  trace : list Event
}.

Definition set_fonts (v : list nat) (w : World) : World :=
  {| fonts := v; filtered := filtered w; search := search w;
     loadedFonts := loadedFonts w; objectUrls := objectUrls w;
     renderedMap := renderedMap w; isProcessing := isProcessing w;
     heap := heap w; store := store w; sheet := sheet w; grid := grid w;
     next_id := next_id w; live_urls := live_urls w; trace := trace w |}.
Definition set_filtered (v : list nat) (w : World) : World :=
  {| fonts := fonts w; filtered := v; search := search w;
     loadedFonts := loadedFonts w; objectUrls := objectUrls w;
     renderedMap := renderedMap w; isProcessing := isProcessing w;
     heap := heap w; store := store w; sheet := sheet w; grid := grid w;
     next_id := next_id w; live_urls := live_urls w; trace := trace w |}.
Definition set_search (v : list N) (w : World) : World :=
  {| fonts := fonts w; filtered := filtered w; search := v;
     loadedFonts := loadedFonts w; objectUrls := objectUrls w;
     renderedMap := renderedMap w; isProcessing := isProcessing w;
     heap := heap w; store := store w; sheet := sheet w; grid := grid w;
     next_id := next_id w; live_urls := live_urls w; trace := trace w |}.
Definition set_loadedFonts (v : gset (list N)) (w : World) : World :=
  {| fonts := fonts w; filtered := filtered w; search := search w;
     loadedFonts := v; objectUrls := objectUrls w;
     renderedMap := renderedMap w; isProcessing := isProcessing w;
     heap := heap w; store := store w; sheet := sheet w; grid := grid w;
     next_id := next_id w; live_urls := live_urls w; trace := trace w |}.
Definition set_objectUrls (v : gmap (list N) Url) (w : World) : World :=
  {| fonts := fonts w; filtered := filtered w; search := search w;
     loadedFonts := loadedFonts w; objectUrls := v;
     renderedMap := renderedMap w; isProcessing := isProcessing w;
     heap := heap w; store := store w; sheet := sheet w; grid := grid w;
     next_id := next_id w; live_urls := live_urls w; trace := trace w |}.
Definition set_renderedMap (v : gmap (list N) Entry) (w : World) : World :=
  {| fonts := fonts w; filtered := filtered w; search := search w;
     loadedFonts := loadedFonts w; objectUrls := objectUrls w;
     renderedMap := v; isProcessing := isProcessing w; heap := heap w;
     store := store w; sheet := sheet w; grid := grid w;
     next_id := next_id w; live_urls := live_urls w; trace := trace w |}.
Definition set_isProcessing (v : bool) (w : World) : World :=
  {| fonts := fonts w; filtered := filtered w; search := search w;
     loadedFonts := loadedFonts w; objectUrls := objectUrls w;
     renderedMap := renderedMap w; isProcessing := v; heap := heap w;
     store := store w; sheet := sheet w; grid := grid w;
     next_id := next_id w; live_urls := live_urls w; trace := trace w |}.
Definition set_heap (v : list FontRecord) (w : World) : World :=
  {| fonts := fonts w; filtered := filtered w; search := search w;
     loadedFonts := loadedFonts w; objectUrls := objectUrls w;
     renderedMap := renderedMap w; isProcessing := isProcessing w;
     heap := v; store := store w; sheet := sheet w; grid := grid w;
     next_id := next_id w; live_urls := live_urls w; trace := trace w |}.
Definition set_store (v : list FontRecord) (w : World) : World :=
  {| fonts := fonts w; filtered := filtered w; search := search w;
     loadedFonts := loadedFonts w; objectUrls := objectUrls w;
     renderedMap := renderedMap w; isProcessing := isProcessing w;
     heap := heap w; store := v; sheet := sheet w; grid := grid w;
     next_id := next_id w; live_urls := live_urls w; trace := trace w |}.
Definition set_sheet (v : list Rule) (w : World) : World :=
  {| fonts := fonts w; filtered := filtered w; search := search w;
     loadedFonts := loadedFonts w; objectUrls := objectUrls w;
     renderedMap := renderedMap w; isProcessing := isProcessing w;
     heap := heap w; store := store w; sheet := v; grid := grid w;
     next_id := next_id w; live_urls := live_urls w; trace := trace w |}.
Definition set_grid (v : list Node) (w : World) : World :=
  {| fonts := fonts w; filtered := filtered w; search := search w;
     loadedFonts := loadedFonts w; objectUrls := objectUrls w;
     renderedMap := renderedMap w; isProcessing := isProcessing w;
     heap := heap w; store := store w; sheet := sheet w; grid := v;
     next_id := next_id w; live_urls := live_urls w; trace := trace w |}.
Definition set_next_id (v : nat) (w : World) : World :=
  {| fonts := fonts w; filtered := filtered w; search := search w;
     loadedFonts := loadedFonts w; objectUrls := objectUrls w;
     renderedMap := renderedMap w; isProcessing := isProcessing w;
     heap := heap w; store := store w; sheet := sheet w; grid := grid w;
     next_id := v; live_urls := live_urls w; trace := trace w |}.
Definition set_live_urls (v : gset nat) (w : World) : World :=
  {| fonts := fonts w; filtered := filtered w; search := search w;
     loadedFonts := loadedFonts w; objectUrls := objectUrls w;
     renderedMap := renderedMap w; isProcessing := isProcessing w;
     heap := heap w; store := store w; sheet := sheet w; grid := grid w;
     next_id := next_id w; live_urls := v; trace := trace w |}.
Definition set_trace (v : list Event) (w : World) : World :=
  {| fonts := fonts w; filtered := filtered w; search := search w;
     loadedFonts := loadedFonts w; objectUrls := objectUrls w;
     renderedMap := renderedMap w; isProcessing := isProcessing w;
     heap := heap w; store := store w; sheet := sheet w; grid := grid w;
     next_id := next_id w; live_urls := live_urls w; trace := v |}.

(** The page before [init] has loaded anything. *)
Definition initial : World :=
  {| fonts := []; filtered := []; search := []; loadedFonts := ∅;
     objectUrls := ∅; renderedMap := ∅; isProcessing := false;
     heap := []; store := []; sheet := []; grid := []; next_id := 0;
     live_urls := ∅; trace := [] |}.

(** The record object behind a reference, and its key. *)
Definition obj (w : World) (l : nat) : option FontRecord := heap w !! l.

Definition nameOf (w : World) (l : nat) : option (list N) :=
  fileName <$> obj w l.

Definition names (w : World) (ls : list nat) : list (list N) :=
  omap (nameOf w) ls.

(** [f.fileName !== fileName] on a reference. *)
Definition otherName (w : World) (key : list N) (l : nat) : bool :=
  negb (bool_decide (nameOf w l = Some key)).

Definition toast (m : Msg) (error : bool) (w : World) : World :=
  set_trace (trace w ++ [EToast m error]) w.

Definition updateProgress (num den : nat) (show : bool) (w : World) : World :=
  set_trace (trace w ++ [EProgress num den show]) w.

(* ===================================================================== *)
(** * 4. Storage layer *)
(* ===================================================================== *)

(** Keys are ordered as IndexedDB orders strings: by code units. *)
Fixpoint key_ltb (a b : list N) : bool :=
  match a, b with
  | _, [] => false
  | [], _ :: _ => true
  | x :: a', y :: b' => (x <? y)%N || (x =? y)%N && key_ltb a' b'
  end.

Fixpoint store_put (r : FontRecord) (s : list FontRecord) : list FontRecord :=
  match s with
  | [] => [r]
  | r' :: s' =>
    if bool_decide (fileName r' = fileName r) then r :: s'
    else if key_ltb (fileName r) (fileName r') then r :: s
    else r' :: store_put r s'
  end.

Definition store_delete (key : list N) (s : list FontRecord) : list FontRecord :=
  List.filter (fun r => negb (bool_decide (fileName r = key))) s.

Definition store_get (key : list N) (s : list FontRecord) : option FontRecord :=
  List.find (fun r => bool_decide (fileName r = key)) s.

(** Each request carries its outcome [ok]: the transaction completes or it
    fails ([STATE.db] missing, transaction aborted).  A failed request leaves
    the store as it was. *)
Module DB.

Definition getAll (w : World) : list FontRecord := store w.

Definition put (item : FontRecord) (ok : bool) (w : World) : World :=
  set_trace (trace w ++ [EPut item ok])
    (if ok then set_store (store_put item (store w)) w else w).

Definition delete (key : list N) (ok : bool) (w : World) : World :=
  set_trace (trace w ++ [EDelete key ok])
    (if ok then set_store (store_delete key (store w)) w else w).

Definition clear (ok : bool) (w : World) : World :=
  set_trace (trace w ++ [EClear ok]) (if ok then set_store [] w else w).

End DB.

(* ===================================================================== *)
(** * 5. The master style sheet *)
(* ===================================================================== *)

(** Two functions of the platform are interfaces here.
    [String.prototype.toLowerCase] follows the Unicode case tables, which are
    part of the engine and not of the script; it is fixed on ASCII text.
    [insertRule] throws on a rule text the CSS parser refuses, and
    [MasterStyle.insert] swallows that: whether a rule is accepted is a
    function of the rule. *)
Class Platform := {
  toLowerCase : list N -> list N;
  toLowerCase_ascii :
    forall s, Forall (fun c => (c < 128)%N) s ->
              toLowerCase s = List.map lower_unit s;
  insertRule_ok : Rule -> bool
}.

(** A platform that folds the case of ASCII letters only and accepts every
    rule. *)
Definition ascii_platform : Platform :=
  {| toLowerCase := List.map lower_unit;
     toLowerCase_ascii := fun s _ => eq_refl;
     insertRule_ok := fun _ => true |}.

Module MasterStyle.
Section MasterStyle.
Context `{Platform}.

Definition insert (rule : Rule) (w : World) : World :=
  if insertRule_ok rule then set_sheet (sheet w ++ [rule]) w else w.

Definition clear (w : World) : World := set_sheet [] w.

End MasterStyle.
End MasterStyle.

(* ===================================================================== *)
(** * 6. DOM operations on the children of the grid *)
(* ===================================================================== *)

(** [node.remove()] *)
Definition dom_remove (n : Node) (g : list Node) : list Node :=
  List.filter (fun m => negb (bool_decide (m = n))) g.

(** [grid.appendChild(n)]: a node already in the grid moves to the end. *)
Definition appendChild (n : Node) (g : list Node) : list Node :=
  dom_remove n g ++ [n].

Fixpoint insert_before (n ref : Node) (g : list Node) : list Node :=
  match g with
  | [] => [n]
  | m :: g' => if bool_decide (m = ref) then n :: g else m :: insert_before n ref g'
  end.

(** [grid.insertBefore(n, ref)]: [n] leaves its place first. *)
Definition insertBefore (n ref : Node) (g : list Node) : list Node :=
  insert_before n ref (dom_remove n g).

(* ===================================================================== *)
(** * 7. The application *)
(* ===================================================================== *)

(** What [navigator.storage.estimate] gives an upload: the API is missing,
    the call rejects, or it resolves to a quota and a usage. *)
Inductive Estimate :=
| EstMissing
| EstRejected
| EstOk (quota usage : Z).

(** [takeChunks n k l]: [l] cut in slices of [n], at most [k] of them. *)
Fixpoint takeChunks {A} (n k : nat) (l : list A) : list (list A) :=
  match k, l with
  | 0, _ | _, [] => []
  | S k', _ :: _ => take n l :: takeChunks n k' (drop n l)
  end.

Module App.
Section App.
Context `{Platform}.

Definition getFontUrl (fileName : list N) (data : Data) (w : World)
  : option Url * World :=
  match objectUrls w !! fileName with
  | Some url => (Some url, w)
  | None =>
    match data with
    | DBlob _ =>
      let url := UObj (next_id w) in
      (Some url,
       set_objectUrls (<[fileName := url]> (objectUrls w))
         (set_live_urls ({[next_id w]} ∪ live_urls w)
            (set_next_id (S (next_id w)) w)))
    | DString s =>
      (Some (UStr s), set_objectUrls (<[fileName := UStr s]> (objectUrls w)) w)
    | DOther => (None, w)
    end
  end.

(** [!url]: an object URL is never empty. *)
Definition url_truthy (u : Url) : bool :=
  match u with UObj _ => true | UStr s => truthy s end.

Definition injectFontFace (fileName : list N) (data : Data) (w : World)
  : option (list N) * World :=
  let fontId := Security.safeFontId fileName data in
  if bool_decide (fontId ∈ loadedFonts w) then (Some fontId, w)
  else
    match getFontUrl fileName data w with
    | (Some url, w1) =>
      if url_truthy url then
        let rule := {| rule_family := fontId; rule_src := url |} in
        let w2 := MasterStyle.insert rule w1 in
        (Some fontId, set_loadedFonts ({[fontId]} ∪ loadedFonts w2) w2)
      else (None, w1)
    | (None, w1) => (None, w1)
    end.

(** The test of [filter] on one record; [q] is the lowered search string. *)
Definition matchesQuery (q : list N) (f : FontRecord) : bool :=
  truthy (fileName f) && includes (toLowerCase (fileName f)) q
  || match userTag f with
     | Some t => truthy t && includes (toLowerCase t) q
     | None => false
     end.

Definition matchesRef (q : list N) (w : World) (l : nat) : bool :=
  match obj w l with
  | Some f => matchesQuery q f
  | None => false
  end.

(** Bring the card at position [index], as the end of the [forEach] body of
    [render] does. *)
Definition place (index : nat) (c : Node) (w : World) : World :=
  let currentChild := grid w !! index in
  if bool_decide (currentChild = Some c) then w
  else if (length (grid w) <=? index)%nat then set_grid (appendChild c (grid w)) w
  else
    match currentChild with
    | Some ref => set_grid (insertBefore c ref (grid w)) w
    | None => w
    end.

(** The body of the [forEach] of [render]. *)
Definition renderOne (w : World) (it : nat * nat) : World :=
  let '(index, l) := it in
  match obj w l with
  | None => w
  | Some font =>
    match renderedMap w !! fileName font with
    | Some entry => place index (NCard (card entry)) w
    | None =>
      match injectFontFace (fileName font) (data font) w with
      | (None, w1) => w1
      | (Some _, w1) =>
        let entry := {| card := next_id w1; preview := S (next_id w1) |} in
        let w2 :=
          set_renderedMap (<[fileName font := entry]> (renderedMap w1))
            (set_next_id (S (S (next_id w1))) w1) in
        place index (NCard (card entry)) w2
      end
    end
  end.

Definition render (w : World) : World :=
  let validKeys : gset (list N) := list_to_set (names w (filtered w)) in
  (* Cleanup DOM *)
  let stale := base.filter (fun kv => kv.1 ∉ validKeys) (renderedMap w) in
  let gone := (fun kv => NCard (card kv.2)) <$> map_to_list stale in
  let w1 :=
    set_grid (List.filter (fun n => negb (bool_decide (n ∈ gone))) (grid w))
      (set_renderedMap
         (base.filter (fun kv => kv.1 ∈ validKeys) (renderedMap w)) w) in
  (* the placeholder *)
  let w2 :=
    match filtered w1 with
    | [] =>
      if bool_decide (NEmpty ∈ grid w1) then w1
      else set_grid (grid w1 ++ [NEmpty]) w1
    | _ :: _ => set_grid (dom_remove NEmpty (grid w1)) w1
    end in
  fold_left renderOne (combine (seq 0 (length (filtered w2))) (filtered w2)) w2.

Definition filter (w : World) : World :=
  let q := toLowerCase (search w) in
  render (set_filtered (List.filter (matchesRef q w) (fonts w)) w).

(** The search box, after its delay. *)
Definition onSearch (value : list N) (w : World) : World :=
  filter (set_search value w).

(** [loadFonts]; [getAll_ok] says whether [DB.getAll] resolves.  The records
    read from the store are fresh objects. *)
Definition loadFonts (getAll_ok : bool) (w : World) : World :=
  if getAll_ok then
    let records := DB.getAll w in
    let w1 :=
      set_fonts (seq (length (heap w)) (length records))
        (set_heap (heap w ++ records) w) in
    let w2 := set_renderedMap ∅ (set_grid [] w1) in
    let w3 := set_loadedFonts ∅ (MasterStyle.clear w2) in
    filter w3
  else w.

(** ** Actions *)

(** The extension test of [handleUpload]. *)
Definition hasValidExtension (f : File) : bool :=
  existsb (fun ext => endsWith (toLowerCase (name f)) ext) validExtensions.

Definition validFiles (files : list File) : list File :=
  List.filter hasValidExtension files.

(** [STATE.fonts.find(f => f.fileName === key)] *)
Definition findFont (key : list N) (w : World) : option nat :=
  List.find (fun l => bool_decide (nameOf w l = Some key)) (fonts w).

(** The blob and the record [handleUpload] builds for a file. *)
Definition blobOf (file : File) : Blob :=
  {| blob_type :=
       if truthy (ftype file) then ftype file
       else str "application/octet-stream";
     blob_bytes := fbytes file |}.

Definition recordOf (file : File) (tag : option (list N)) : FontRecord :=
  {| fileName := name file; data := DBlob (blobOf file); userTag := tag |}.

(** [exists ? exists.userTag : ''] for the record already registered under
    [key]. *)
Definition existingTag (key : list N) (w : World) : option (list N) :=
  match findFont key w with
  | Some l => match obj w l with Some e => userTag e | None => None end
  | None => Some []
  end.

(** The files of a batch that get as far as [DB.put]: within the size cap,
    with a good signature, and readable. *)
Definition persistable (file : File) : bool :=
  negb (MAX_FILE_SIZE <? size file)%N
  && match Security.checkSignature file with
     | Security.Resolved true => readable file
     | _ => false
     end.

(** One turn of the loop of [handleUpload] on file number [i] of [total];
    [put_ok i] is the outcome of its [DB.put].  The state is the world and
    [successCount]. *)
Definition uploadOne (put_ok : nat -> bool) (total : nat)
    (acc : World * nat) (it : nat * File) : World * nat :=
  let '(w, successCount) := acc in
  let '(i, file) := it in
  if (MAX_FILE_SIZE <? size file)%N then
    (updateProgress (i + 1) total true (toast (MsgTooBig (name file)) true w),
     successCount)
  else
    match Security.checkSignature file with
    | Security.Resolved false =>
      (updateProgress (i + 1) total true
         (toast (MsgBadFont (name file)) true w),
       successCount)
    | Security.Resolved true =>
      let tag := existingTag (name file) w in
      if readable file then
        if put_ok i then
          (updateProgress (i + 1) total true
             (DB.put (recordOf file tag) true w),
           S successCount)
        else
          (updateProgress (i + 1) total true
             (toast (MsgReadFailed (name file)) true
                (DB.put (recordOf file tag) false w)),
           successCount)
      else
        (updateProgress (i + 1) total true
           (toast (MsgReadFailed (name file)) true w),
         successCount)
    | Security.Rejected =>
      (updateProgress (i + 1) total true
         (toast (MsgReadFailed (name file)) true w),
       successCount)
    end.

Definition uploadLoop (put_ok : nat -> bool) (files : list File) (w : World)
  : World * nat :=
  fold_left (uploadOne put_ok (length files))
    (combine (seq 0 (length files)) files) (w, 0).

Definition totalUploadSize (files : list File) : Z :=
  fold_left (fun acc f => (acc + Z.of_N (size f))%Z) files 0%Z.

(** [handleUpload], up to the point where it arms its timer: the result is
    the world and, when the batch was processed, the success count the timer
    will report. *)
Definition handleUpload (est : Estimate) (put_ok : nat -> bool)
    (files : list File) (w : World) : World * option nat :=
  if isProcessing w then (w, None)
  else
    let validFiles := validFiles files in
    if (length validFiles =? 0)%nat then (toast MsgUnsupported true w, None)
    else if (MAX_FONTS <? length (fonts w) + length validFiles)%nat then
      (toast MsgLimit true w, None)
    else
      let noSpace :=
        match est with
        | EstOk quota usage => (quota - usage <? totalUploadSize validFiles)%Z
        | _ => false
        end in
      if noSpace then (toast MsgNoSpace true w, None)
      else
        let w1 := updateProgress 0 1 true (set_isProcessing true w) in
        let '(w2, successCount) := uploadLoop put_ok validFiles w1 in
        (w2, Some successCount).

(** The timer of [handleUpload], 600 ms after the loop. *)
Definition uploadDone (successCount : nat) (getAll_ok : bool) (w : World)
  : World :=
  let w1 := set_isProcessing false (updateProgress 1 1 false w) in
  let w2 :=
    if (0 <? successCount)%nat then toast (MsgUploaded successCount) false w1
    else w1 in
  loadFonts getAll_ok w2.

(** [URL.revokeObjectURL] *)
Definition revoke (u : Url) (w : World) : World :=
  match u with
  | UObj id => set_live_urls (live_urls w ∖ {[id]}) w
  | UStr _ => w
  end.

(** The three blocks of the callback of [deleteSingleFont]: update state,
    memory clean, DOM cleanup. *)
Definition forgetFont (fileName : list N) (w : World) : World :=
  set_filtered (List.filter (otherName w fileName) (filtered w))
    (set_fonts (List.filter (otherName w fileName) (fonts w)) w).

Definition releaseUrl (fileName : list N) (w : World) : World :=
  match objectUrls w !! fileName with
  | Some url => set_objectUrls (base.delete fileName (objectUrls w)) (revoke url w)
  | None => w
  end.

Definition removeCard (fileName : list N) (w : World) : World :=
  match renderedMap w !! fileName with
  | Some entry =>
    set_renderedMap (base.delete fileName (renderedMap w))
      (set_grid (dom_remove (NCard (card entry)) (grid w)) w)
  | None => w
  end.

(** [deleteSingleFont]; [confirmed] is the answer to the dialog and
    [delete_ok] the outcome of [DB.delete]. *)
Definition deleteSingleFont (fileName : list N) (confirmed delete_ok : bool)
    (w : World) : World :=
  if negb confirmed then w
  else if delete_ok then
    let w1 :=
      removeCard fileName
        (releaseUrl fileName (forgetFont fileName (DB.delete fileName true w))) in
    (* Re-sync *)
    toast MsgDeleted false (filter w1)
  else toast MsgDeleteFailed true (DB.delete fileName false w).

(** The identifiers of the object URLs held by the URL map. *)
Definition heldUrls (w : World) : gset nat :=
  list_to_set
    (omap (fun kv => match kv.2 with UObj id => Some id | UStr _ => None end)
       (map_to_list (objectUrls w))).

(** [clearAll]: the dialog is asked first, the busy flag is tested after. *)
Definition clearAll (confirmed clear_ok getAll_ok : bool) (w : World) : World :=
  if negb confirmed then w
  else if isProcessing w then w
  else
    let w1 := set_isProcessing true w in
    let w2 :=
      if clear_ok then
        let w' := DB.clear true w1 in
        let w' :=
          set_objectUrls ∅ (set_live_urls (live_urls w' ∖ heldUrls w') w') in
        if getAll_ok then toast MsgCleared false (loadFonts true w')
        else toast MsgClearFailed true w'
      else toast MsgClearFailed true (DB.clear false w1) in
    set_isProcessing false w2.

(** [font.userTag = tag] on the shared record object. *)
Definition setUserTag (l : nat) (tag : list N) (w : World) : World :=
  match obj w l with
  | Some font =>
    set_heap
      (<[l := {| fileName := fileName font; data := data font;
                 userTag := Some tag |}]> (heap w)) w
  | None => w
  end.

(** [updateTag]; [put_ok] is the outcome of the [DB.put] nobody waits for. *)
Definition updateTag (fileName rawTag : list N) (put_ok : bool) (w : World)
  : World :=
  let tag := Security.sanitizeTag rawTag in
  match findFont fileName w with
  | Some l =>
    let w1 := setUserTag l tag w in
    match obj w1 l with
    | Some font => DB.put font put_ok w1
    | None => w1
    end
  | None => w
  end.

(** ** Export *)

Definition CHUNK_SIZE : nat := 20.

Definition exportRow (w : World) (l : nat) : World :=
  match obj w l with
  | Some font => (injectFontFace (fileName font) (data font) w).2
  | None => w
  end.

Fixpoint exportLoop (total i : nat) (chunks : list (list nat)) (w : World)
  : World :=
  match chunks with
  | [] => w
  | chunk :: rest =>
    exportLoop total (i + CHUNK_SIZE) rest
      (updateProgress (min (i + CHUNK_SIZE) total) total true
         (fold_left exportRow chunk w))
  end.

(** [exportPDF] up to its timer. *)
Definition exportPDF (w : World) : World :=
  if truthy (search w) && (length (filtered w) =? 0)%nat then
    toast MsgNoResults true w
  else if (length (fonts w) =? 0)%nat then toast MsgNoData true w
  else
    let w1 := updateProgress 0 1 true (set_isProcessing true w) in
    let list := if (0 <? length (filtered w))%nat then filtered w else fonts w in
    exportLoop (length list) 0 (takeChunks CHUNK_SIZE (length list) list) w1.

Definition exportDone (w : World) : World :=
  set_isProcessing false (updateProgress 1 1 false w).

(** ** Runs of the page

    One step is one handler, or one timer, run to its end. *)
Inductive step : World -> World -> Prop :=
| step_loadFonts ok w : step w (loadFonts ok w)
| step_search value w : step w (onSearch value w)
| step_upload est put_ok files w :
    step w (handleUpload est put_ok files w).1
| step_uploadDone n ok w : step w (uploadDone n ok w)
| step_delete key confirmed ok w : step w (deleteSingleFont key confirmed ok w)
| step_clearAll confirmed ok ok' w : step w (clearAll confirmed ok ok' w)
| step_updateTag key rawTag ok w : step w (updateTag key rawTag ok w)
| step_export w : step w (exportPDF w)
| step_exportDone w : step w (exportDone w).

Inductive reachable : World -> Prop :=
| reachable_initial : reachable initial
| reachable_step w w' : reachable w -> step w w' -> reachable w'.

End App.
End App.

(** ** Reading a run *)

(** The events a handler added when it took [w] to [w']. *)
Definition emitted (w w' : World) : list Event :=
  drop (length (trace w)) (trace w').

(** The records of the [put] requests among some events. *)
Definition putsOf (evs : list Event) : list FontRecord :=
  omap (fun e => match e with EPut r _ => Some r | _ => None end) evs.

(** [font] with its tag replaced. *)
Definition withTag (font : FontRecord) (tag : list N) : FontRecord :=
  {| fileName := fileName font; data := data font; userTag := Some tag |}.

(** A handler that only talks to the store and to the user: [w'] is [w]
    with more events and another store. *)
Definition onlyStored (w w' : World) (evs : list Event) : Prop :=
  exists st, w' = set_store st (set_trace (trace w ++ evs) w).

(** The part of the world rendering never writes. *)
Definition registry (w : World) :=
  (fonts w, filtered w, search w, heap w, store w, trace w, isProcessing w).

(** The style sheet and the cache of injected identifiers. *)
Definition faces (w : World) := (sheet w, loadedFonts w).

(** Every rule of the sheet is for an identifier of the cache, and no two
    rules are for one identifier. *)
Definition fontFaceInv (w : World) : Prop :=
  NoDup (rule_family <$> sheet w)
  /\ forall r, r ∈ sheet w -> rule_family r ∈ loadedFonts w.

Section Notions.
Context `{Platform}.

(** The three ways a batch can go: ignored, turned down with one toast, or
    processed file by file. *)
Inductive UploadOutcome (files : list File) (w : World) (r : World * option nat)
  : Prop :=
| upload_ignored :
    isProcessing w = true -> r = (w, None) -> UploadOutcome files w r
| upload_refused m :
    isProcessing w = false ->
    r = (toast m true w, None) ->
    m = MsgUnsupported \/ m = MsgLimit \/ m = MsgNoSpace ->
    UploadOutcome files w r
| upload_processed n evs :
    isProcessing w = false ->
    length (fonts w) + length (App.validFiles files) <= MAX_FONTS ->
    r.2 = Some n ->
    onlyStored (set_isProcessing true w) r.1 (EProgress 0 1 true :: evs) ->
    putsOf evs =
      List.map (fun g => App.recordOf g (App.existingTag (name g) w))
        (List.filter App.persistable (App.validFiles files)) ->
    (forall k, k < length (App.validFiles files) ->
       In (EProgress (k + 1) (length (App.validFiles files)) true) evs) ->
    (forall f, In f (App.validFiles files) ->
       Security.checkSignature f = Security.Resolved false ->
       (size f <= MAX_FILE_SIZE)%N ->
       In (EToast (MsgBadFont (name f)) true) evs) ->
    UploadOutcome files w r.




(** The card of a registered record, if it has one. *)
Definition cardOf (w : World) (l : nat) : option Node :=
  f ← obj w l; e ← renderedMap w !! fileName f; Some (NCard (card e)).

(** The cards of some records, in order, if each has one. *)
Definition cardsOf (w : World) (ls : list nat) : option (list Node) :=
  mapM (cardOf w) ls.

(** The grid shows the filtered view: keys are distinct, the cards of the
    grid are the cards of the filtered records in their order, every node is
    there once, and every rendered entry belongs to a filtered record. *)
Definition shown (w : World) : bool :=
  bool_decide (NoDup (names w (filtered w)))
  && bool_decide (cardsOf w (filtered w) = Some (dom_remove NEmpty (grid w)))
  && bool_decide (NoDup (grid w))
  && bool_decide (dom (renderedMap w) ⊆ list_to_set (names w (filtered w))).

(** The view is in step with the registry and the search string, and the
    grid shows it. *)
Definition synced (w : World) : bool :=
  bool_decide
    (filtered w =
     List.filter (App.matchesRef (toLowerCase (search w)) w) (fonts w))
  && shown w.

End Notions.

(** ** Scenarios

    Worlds and files the examples below run on, on the platform that folds
    ASCII letters only. *)
Section ScenarioWorlds.
#[local] Existing Instance ascii_platform.

(** A small TrueType file. *)
Definition fontFile (n : list N) : File :=
  {| name := n; ftype := str "font/ttf"; fbytes := [0; 1; 0; 0; 7; 7]%N;
     slice_readable := true; readable := true |}.

(** A file with a font extension and other content. *)
Definition textFile (n : list N) : File :=
  {| name := n; ftype := str "font/ttf"; fbytes := [1; 2; 3; 4; 5]%N;
     slice_readable := true; readable := true |}.

(** A file of two bytes. *)
Definition shortFile (n : list N) : File :=
  {| name := n; ftype := []; fbytes := [0; 1]%N;
     slice_readable := true; readable := true |}.

(** A batch with a working store, from the call to the end of its timer. *)
Definition uploaded (files : list File) (w : World) : World :=
  let r := App.handleUpload EstMissing (fun _ => true) files w in
  match r.2 with
  | Some n => App.uploadDone n true r.1
  | None => r.1
  end.

(** Two fonts, uploaded and shown. *)
Definition library2 : World :=
  uploaded [fontFile (str "bar.ttf"); fontFile (str "foo.ttf")] initial.

(** [bar.ttf] tagged "foo", then a search for "FOO": both fonts are shown. *)
Definition searched : World :=
  App.onSearch (str "FOO")
    (App.updateTag (str "bar.ttf") (str " foo ") true library2).

(** The tag of [bar.ttf] edited to "baz" while the search for "FOO" stands:
    its card stays, since [updateTag] does not filter again. *)
Definition staleView : World :=
  App.updateTag (str "bar.ttf") (str "baz") true searched.

Definition filesN (n : nat) : list File :=
  List.map (fun i => fontFile (str "f" ++ decimal (N.of_nat i) ++ str ".ttf"))
    (seq 0 n).

(** 499 fonts registered behind a search that shows none of them. *)
Definition full499 : World :=
  uploaded (filesN 499) (App.onSearch (str "zzz") initial).

(** One more font uploaded, its timer still pending: 500 records in the
    store, 499 in the registry, the busy flag set. *)
Definition crowded : World :=
  (App.handleUpload EstMissing (fun _ => true) [fontFile (str "last.ttf")]
     full499).1.

End ScenarioWorlds.

(** ** Notions for the invariants of a run *)

(** The code units a font identifier is made of: letters, digits, [_], [+]
    and [/]. *)
Definition isIdUnit (c : N) : bool :=
  (isAlnum c || (c =? 95) || (c =? 43) || (c =? 47))%N.

(** The four signatures, byte by byte. *)
Definition SIGNATURES : list (list N) :=
  [[0x00; 0x01; 0x00; 0x00]; [0x4F; 0x54; 0x54; 0x4F];
   [0x77; 0x4F; 0x46; 0x46]; [0x77; 0x4F; 0x46; 0x32]]%N.

(** The records of the [put] requests that succeeded. *)
Definition okPuts (evs : list Event) : list FontRecord :=
  omap (fun e => match e with EPut r true => Some r | _ => None end) evs.

(** The store after some successful [put] requests, in order. *)
Definition storeAfter (rs : list FontRecord) (st : list FontRecord)
  : list FontRecord :=
  fold_left (fun s r => store_put r s) rs st.
(** A world that differs from [w] by its events and by the requests that
    reached the store. *)
Definition storedAs (w w' : World) (evs : list Event) : Prop :=
  w' = set_store (storeAfter (okPuts evs) (store w))
         (set_trace (trace w ++ evs) w).

(** The files of a batch whose record reaches the store: persistable, and
    with a [put] that succeeds. *)
Definition written (put_ok : nat -> bool) (i0 : nat) (files : list File)
  : list File :=
  (List.filter (fun it : nat * File => App.persistable it.2 && put_ok it.1)
     (combine (seq i0 (length files)) files)).*2.

(** A record whose payload is a blob, as [handleUpload] makes them. *)
Definition isBlobRecord (f : FontRecord) : bool :=
  match data f with DBlob _ => true | _ => false end.

(** The grid and the rendered map fit: every node is there once, every card
    of the grid is the card of a rendered entry, cards are older than the
    next node, and two entries do not share a card. *)
Definition gridInv (w : World) : Prop :=
  NoDup (grid w)
  /\ (forall n, n ∈ grid w ->
        n = NEmpty \/ exists k e, renderedMap w !! k = Some e /\ n = NCard (card e))
  /\ (forall k e, renderedMap w !! k = Some e -> card e < next_id w)
  /\ (forall k1 k2 e1 e2,
        renderedMap w !! k1 = Some e1 -> renderedMap w !! k2 = Some e2 ->
        card e1 = card e2 -> k1 = k2).

(** Every URL of the URL map is usable. *)
Definition urlsTruthy (w : World) : Prop :=
  forall k u, objectUrls w !! k = Some u -> App.url_truthy u = true.

(** Every record of the filtered view is there and carries a blob. *)
Definition blobsShown (w : World) : Prop :=
  Forall (fun l => exists f, obj w l = Some f /\ isBlobRecord f = true)
    (filtered w).

(** What [place] does to the children of the grid when the first [i] are
    settled and [c] is not among them. *)
Definition placed (i : nat) (c : Node) (g : list Node) : list Node :=
  take i g ++ c :: dom_remove c (drop i g).

(** The state of the loop of [render] before it reaches position [i] of the
    filtered view [fl], whose keys are in [V]: the first [i] children of the
    grid are the cards of the first [i] records. *)
Definition loopInv (hp : list FontRecord) (V : gset (list N)) (fl : list nat)
    (i : nat) (w : World) : Prop :=
  heap w = hp
  /\ NoDup (grid w)
  /\ (forall n, n ∈ grid w ->
        exists k e, renderedMap w !! k = Some e /\ n = NCard (card e))
  /\ (forall k e, renderedMap w !! k = Some e -> card e < next_id w)
  /\ (forall k1 k2 e1 e2,
        renderedMap w !! k1 = Some e1 -> renderedMap w !! k2 = Some e2 ->
        card e1 = card e2 -> k1 = k2)
  /\ dom (renderedMap w) ⊆ V
  /\ cardsOf w (take i fl) = Some (take i (grid w))
  /\ i <= length (grid w)
  /\ urlsTruthy w.

(** The records [ls] are on the heap [hp], carry blobs, and have the keys
    [ks], in this order. *)
Definition keyed (hp : list FontRecord) (ls : list nat) (ks : list (list N))
  : Prop :=
  Forall2 (fun l k => exists f, hp !! l = Some f /\ fileName f = k
                                /\ isBlobRecord f = true) ls ks.

(** The first block of [render], "Cleanup DOM": the entries whose key left
    the view go, with their cards. *)
Definition cleanup (w : World) : World :=
  let validKeys : gset (list N) := list_to_set (names w (filtered w)) in
  let stale := base.filter (fun kv => kv.1 ∉ validKeys) (renderedMap w) in
  let gone := (fun kv => NCard (card kv.2)) <$> map_to_list stale in
  set_grid (List.filter (fun n => negb (bool_decide (n ∈ gone))) (grid w))
    (set_renderedMap
       (base.filter (fun kv => kv.1 ∈ validKeys) (renderedMap w)) w).

(** Projections of updated worlds. *)
Ltac simpl_world :=
  cbn [fonts filtered search loadedFonts objectUrls renderedMap isProcessing
       heap store sheet grid next_id live_urls trace set_fonts set_filtered
       set_search set_loadedFonts set_objectUrls set_renderedMap
       set_isProcessing set_heap set_store set_sheet set_grid set_next_id
       set_live_urls set_trace] in *.

(** The order of the keys in the object store. *)
Definition keyLt (a b : FontRecord) : Prop :=
  key_ltb (fileName a) (fileName b) = true.

(** The object store lists its records by strictly increasing key. *)
Definition storeSorted (st : list FontRecord) : Prop :=
  StronglySorted keyLt st.

(** What the handlers keep of the registry, apart from the view: the store
    is sorted by key and holds blobs, the heap holds blobs, the registry
    refers to records that are there, under distinct keys, the URLs are
    usable and the grid fits the rendered map. *)
Definition preFormed (w : World) : Prop :=
  storeSorted (store w)
  /\ Forall (fun f => isBlobRecord f = true) (store w)
  /\ Forall (fun f => isBlobRecord f = true) (heap w)
  /\ Forall (fun l => is_Some (obj w l)) (fonts w)
  /\ NoDup (names w (fonts w))
  /\ urlsTruthy w
  /\ gridInv w.

(** ... and of the view: it is part of the registry, in its order, and the
    grid shows it. *)
Definition wellFormed (w : World) : Prop :=
  preFormed w
  /\ sublist (filtered w) (fonts w)
  /\ shown w = true.

(** Every record of the store and every record object satisfies [P]. *)
Definition recordsAll (P : FontRecord -> Prop) (w : World) : Prop :=
  Forall P (store w) /\ Forall P (heap w).

Section Provenance.
Context `{Platform}.

(** A record made from a file that [handleUpload] lets through: the name has
    a font extension, the size is within the cap, the signature is one of
    the four and the content could be read.  The tag is free. *)
Definition fromFile (r : FontRecord) : Prop :=
  exists file,
    App.hasValidExtension file = true
    /\ App.persistable file = true
    /\ fileName r = name file
    /\ data r = DBlob (App.blobOf file).

End Provenance.

(** The world after the first callback of [clearAll]: the store is empty,
    every URL of the URL map is revoked and the map is emptied. *)
Definition afterClear (w : World) : World :=
  let w' := DB.clear true (set_isProcessing true w) in
  set_objectUrls ∅ (set_live_urls (live_urls w' ∖ App.heldUrls w') w').

(** The object URLs of a world: the URL map, the URLs made and not revoked,
    and the counter that names them. *)
Definition urls (w : World) := (objectUrls w, live_urls w, next_id w).

(** The URL map accounts for the object URLs: a URL of the map is not
    revoked, a URL that is not revoked is in the map, and no two keys have
    the same URL. *)
Definition urlInv (w : World) : Prop :=
  (forall k id, objectUrls w !! k = Some (UObj id) ->
                id ∈ live_urls w /\ id < next_id w)
  /\ (forall id, id ∈ live_urls w ->
                 exists k, objectUrls w !! k = Some (UObj id))
  /\ (forall k1 k2 id,
        objectUrls w !! k1 = Some (UObj id) ->
        objectUrls w !! k2 = Some (UObj id) -> k1 = k2).

(** From [w] to [w'] the URL map only gets entries, and stays in order. *)
Definition urlGrow (w w' : World) : Prop :=
  objectUrls w ⊆ objectUrls w' /\ (urlInv w -> urlInv w').


(* ===================================================================== *)
(** * 8. Strings: what the primitives compute *)
(* ===================================================================== *)



Lemma endsWith_spec s e :
  endsWith s e = true <-> exists pre, s = pre ++ e.
Proof.
  unfold endsWith. rewrite andb_true_iff, Nat.leb_le, bool_decide_eq_true.
  split.
  - intros [Hle Hd]. exists (take (length s - length e) s).
    transitivity (take (length s - length e) s ++ drop (length s - length e) s).
    + symmetry. apply take_drop.
    + by rewrite Hd.
  - intros [pre ->]. rewrite length_app. split; [lia |].
    replace (length pre + length e - length e) with (length pre) by lia.
    by rewrite drop_app_length.
Qed.

Lemma trimStart_spec s :
  exists ws, s = ws ++ trimStart s
             /\ Forall (fun c => isWhiteSpace c = true) ws
             /\ (forall c, head (trimStart s) = Some c -> isWhiteSpace c = false).
Proof.
  induction s as [|c s (ws & Hs & Hws & Hh)]; simpl.
  - exists []. repeat split; [constructor | done].
  - destruct (isWhiteSpace c) eqn:Hc.
    + exists (c :: ws). repeat split; [simpl; by f_equal | by constructor | done].
    + exists []. repeat split; [constructor |].
      simpl. by intros ? [= <-].
Qed.

Lemma last_rev_head {A} (l : list A) : last (rev l) = head l.
Proof. destruct l as [|x l]; [done |]. simpl. apply last_snoc. Qed.

(** [trim] removes a run of white space at each end and nothing else. *)
Lemma trim_spec s :
  exists a b, s = a ++ trim s ++ b
              /\ Forall (fun c => isWhiteSpace c = true) a
              /\ Forall (fun c => isWhiteSpace c = true) b
              /\ (forall c, head (trim s) = Some c -> isWhiteSpace c = false)
              /\ (forall c, last (trim s) = Some c -> isWhiteSpace c = false).
Proof.
  destruct (trimStart_spec s) as (a & Ha & Hwa & Hha).
  destruct (trimStart_spec (rev (trimStart s))) as (b & Hb & Hwb & Hhb).
  unfold trim, trimEnd. set (t := trimStart s) in *.
  set (u := trimStart (rev t)) in *.
  assert (Ht : t = rev u ++ rev b).
  { rewrite <- rev_app_distr, <- Hb. by rewrite rev_involutive. }
  exists a, (rev b). repeat split.
  - by rewrite <- Ht.
  - done.
  - by apply Forall_rev.
  - intros c Hc. destruct (rev u) as [|x r] eqn:Hr; [done |].
    apply Hha. rewrite Ht. simpl in *. done.
  - intros c Hc. apply Hhb. by rewrite <- last_rev_head.
Qed.

(* ===================================================================== *)
(** * 9. The [Security] object *)
(* ===================================================================== *)

Lemma isStripped_spec c :
  Security.isStripped c = true <->
  (c <= 0x1F \/ 0x7F <= c <= 0x9F \/ c = 0x200E \/ c = 0x200F
   \/ 0x202A <= c <= 0x202E)%N.
Proof.
  unfold Security.isStripped.
  repeat rewrite ?orb_true_iff, ?andb_true_iff, ?N.leb_le, ?N.eqb_eq.
  tauto.
Qed.

Lemma isWhiteSpace_spec c :
  isWhiteSpace c = true <->
  (9 <= c <= 13 \/ c = 0x20 \/ c = 0xA0 \/ c = 0x1680 \/ 0x2000 <= c <= 0x200A
   \/ c = 0x2028 \/ c = 0x2029 \/ c = 0x202F \/ c = 0x205F \/ c = 0x3000
   \/ c = 0xFEFF)%N.
Proof.
  unfold isWhiteSpace.
  repeat rewrite ?orb_true_iff, ?andb_true_iff, ?N.leb_le, ?N.eqb_eq.
  tauto.
Qed.

Lemma List_filter_id {A} (p : A -> bool) l :
  (forall x, In x l -> p x = true) -> List.filter p l = l.
Proof.
  induction l as [|x l IH]; intros Hp; [done |]. simpl.
  rewrite Hp by (by left). f_equal. apply IH. intros y Hy. apply Hp. by right.
Qed.

(** A string that neither starts nor ends with white space is its own
    trimmed string. *)
Lemma trim_id s :
  (forall c, In c s -> isWhiteSpace c = false) -> trim s = s.
Proof.
  intros Hs.
  assert (Hstart : forall t, (forall c, In c t -> isWhiteSpace c = false) ->
                             trimStart t = t).
  { intros [|c t] Ht; [done |]. simpl. by rewrite (Ht c) by (by left). }
  unfold trim, trimEnd. rewrite (Hstart s Hs).
  rewrite Hstart; [apply rev_involutive |].
  intros c Hc. apply Hs. by apply in_rev.
Qed.

Lemma sanitizeTag_eq s :
  Security.sanitizeTag s =
  List.filter (fun c => negb (Security.isStripped c)) (take 40 (trim s)).
Proof. by destruct s. Qed.

Lemma length_filter_le {A} (p : A -> bool) l :
  length (List.filter p l) <= length l.
Proof. induction l as [|x l IH]; simpl; [lia |]. destruct (p x); simpl; lia. Qed.

Lemma sanitizeTag_length s : length (Security.sanitizeTag s) <= 40.
Proof.
  rewrite sanitizeTag_eq.
  etransitivity; [apply length_filter_le |]. rewrite length_take. lia.
Qed.

Lemma getUint32_short view : length view < 4 -> Security.getUint32 view 0 = inl Security.RangeError.
Proof.
  unfold Security.getUint32. rewrite drop_0.
  destruct view as [|? [|? [|? [|? ?]]]]; simpl; intros; (done || lia).
Qed.

Lemma getUint32_take4 bytes : Security.getUint32 (take 4 bytes) 0 = Security.getUint32 bytes 0.
Proof. by destruct bytes as [|? [|? [|? [|? ?]]]]. Qed.

(** The outcome of [checkSignature] in one formula. *)
Lemma checkSignature_eq file :
  Security.checkSignature file =
  Security.Resolved
    (slice_readable file
     && match Security.getUint32 (fbytes file) 0 with
        | inr magic => bool_decide (magic ∈ MAGIC)
        | inl _ => false
        end).
Proof.
  unfold Security.checkSignature, Security.onload_try.
  destruct (slice_readable file); [| done]. simpl.
  rewrite getUint32_take4.
  by destruct (fbytes file) as [|? [|? [|? [|? ?]]]].
Qed.

(* ===================================================================== *)
(** * 10. The upload pipeline *)
(* ===================================================================== *)

Lemma putsOf_app a b : putsOf (a ++ b) = putsOf a ++ putsOf b.
Proof. apply omap_app. Qed.

Lemma emitted_app w w' evs : trace w' = trace w ++ evs -> emitted w w' = evs.
Proof. unfold emitted. intros ->. by rewrite drop_app_length. Qed.

Lemma onlyStored_trans w w1 w2 a b :
  onlyStored w w1 a -> onlyStored w1 w2 b -> onlyStored w w2 (a ++ b).
Proof.
  intros [s1 ->] [s2 ->]. exists s2. unfold set_store, set_trace; simpl.
  by rewrite app_assoc.
Qed.

Lemma onlyStored_trace w w' evs : onlyStored w w' evs -> trace w' = trace w ++ evs.
Proof. by intros [st ->]. Qed.

Section Upload.
Context `{Platform}.

Lemma existingTag_frame key w w' evs :
  onlyStored w w' evs -> App.existingTag key w' = App.existingTag key w.
Proof. by intros [st ->]. Qed.

Lemma toast_onlyStored m e w : onlyStored w (toast m e w) [EToast m e].
Proof. exists (store w). by destruct w. Qed.

(** One turn of the loop: what it emits, and that it touches nothing but the
    store. *)
Lemma uploadOne_spec put_ok total w n i f :
  exists evs,
    onlyStored w (App.uploadOne put_ok total (w, n) (i, f)).1 evs
    /\ putsOf evs =
       (if App.persistable f then [App.recordOf f (App.existingTag (name f) w)]
        else [])
    /\ In (EProgress (i + 1) total true) evs
    /\ (Security.checkSignature f = Security.Resolved false ->
        (size f <= MAX_FILE_SIZE)%N ->
        In (EToast (MsgBadFont (name f)) true) evs).
Proof.
  unfold App.uploadOne, App.persistable.
  destruct (MAX_FILE_SIZE <? size f)%N eqn:Hsz.
  { exists [EToast (MsgTooBig (name f)) true; EProgress (i + 1) total true].
    apply N.ltb_lt in Hsz.
    repeat split; [| simpl; tauto | lia].
    exists (store w). destruct w; unfold updateProgress, toast, set_trace, set_store; simpl.
    by rewrite <- app_assoc. }
  destruct (Security.checkSignature f) as [[|]|] eqn:Hsig; simpl.
  - destruct (readable f); [destruct (put_ok i) |]; simpl.
    + exists [EPut (App.recordOf f (App.existingTag (name f) w)) true;
              EProgress (i + 1) total true].
      repeat split; [| simpl; tauto | done].
      exists (store_put (App.recordOf f (App.existingTag (name f) w)) (store w)).
      destruct w; unfold updateProgress, DB.put, set_trace, set_store; simpl.
      by rewrite <- app_assoc.
    + exists [EPut (App.recordOf f (App.existingTag (name f) w)) false;
              EToast (MsgReadFailed (name f)) true;
              EProgress (i + 1) total true].
      repeat split; [| simpl; tauto | done].
      exists (store w). destruct w;
        unfold updateProgress, toast, DB.put, set_trace, set_store; simpl.
      by rewrite <- !app_assoc.
    + exists [EToast (MsgReadFailed (name f)) true; EProgress (i + 1) total true].
      repeat split; [| simpl; tauto | done].
      exists (store w). destruct w; unfold updateProgress, toast, set_trace, set_store; simpl.
      by rewrite <- app_assoc.
  - exists [EToast (MsgBadFont (name f)) true; EProgress (i + 1) total true].
    repeat split; [| simpl; tauto | simpl; tauto].
    exists (store w). destruct w; unfold updateProgress, toast, set_trace, set_store; simpl.
    by rewrite <- app_assoc.
  - exists [EToast (MsgReadFailed (name f)) true; EProgress (i + 1) total true].
    repeat split; [| simpl; tauto | done].
    exists (store w). destruct w; unfold updateProgress, toast, set_trace, set_store; simpl.
    by rewrite <- app_assoc.
Qed.

(** The loop, from any position: one [put] per persistable file, in the order
    of the files, and a progress update for each file whatever its fate. *)
Lemma uploadFold_spec put_ok total files : forall w n i0,
  exists evs,
    onlyStored w
      (fold_left (App.uploadOne put_ok total)
         (combine (seq i0 (length files)) files) (w, n)).1 evs
    /\ putsOf evs =
       List.map (fun g => App.recordOf g (App.existingTag (name g) w))
         (List.filter App.persistable files)
    /\ (forall k, k < length files -> In (EProgress (i0 + k + 1) total true) evs)
    /\ (forall f, In f files ->
        Security.checkSignature f = Security.Resolved false ->
        (size f <= MAX_FILE_SIZE)%N ->
        In (EToast (MsgBadFont (name f)) true) evs).
Proof.
  induction files as [|f files IH]; intros w n i0.
  - exists []. simpl. repeat split; [| intros; lia | tauto].
    exists (store w). destruct w; unfold set_trace, set_store; simpl.
    by rewrite app_nil_r.
  - cbn [length seq combine fold_left].
    destruct (uploadOne_spec put_ok total w n i0 f) as (e1 & Hs1 & Hp1 & Hg1 & Hb1).
    destruct (App.uploadOne put_ok total (w, n) (i0, f)) as [w1 n1] eqn:Hone.
    simpl in Hs1.
    destruct (IH w1 n1 (S i0)) as (e2 & Hs2 & Hp2 & Hg2 & Hb2).
    exists (e1 ++ e2). split; [exact (onlyStored_trans _ _ _ _ _ Hs1 Hs2) |].
    split; [| split].
    + rewrite putsOf_app, Hp1, Hp2.
      rewrite (map_ext _ (fun g => App.recordOf g (App.existingTag (name g) w)))
        by (intros g; by rewrite (existingTag_frame _ _ _ _ Hs1)).
      simpl. by destruct (App.persistable f).
    + intros [|k] Hk; apply in_or_app.
      * left. by rewrite Nat.add_0_r.
      * right. replace (i0 + S k + 1) with (S i0 + k + 1) by lia.
        apply Hg2. lia.
    + intros g [<- | Hin] Hsig Hsz; apply in_or_app; [left | right]; auto.
Qed.

Lemma handleUpload_outcome est put_ok files w :
  UploadOutcome files w (App.handleUpload est put_ok files w).
Proof.
  unfold App.handleUpload.
  destruct (isProcessing w) eqn:Hbusy; [by apply upload_ignored |].
  destruct (length (App.validFiles files) =? 0) eqn:Hnone.
  { eapply upload_refused; eauto. }
  destruct (MAX_FONTS <? _) eqn:Hcap.
  { eapply upload_refused; eauto. }
  apply Nat.ltb_ge in Hcap.
  match goal with |- context [if ?c then _ else _] => destruct c end.
  { eapply upload_refused; eauto. }
  unfold App.uploadLoop.
  destruct (uploadFold_spec put_ok (length (App.validFiles files))
              (App.validFiles files)
              (updateProgress 0 1 true (set_isProcessing true w)) 0 0)
    as (evs & Hs & Hp & Hg & Hb).
  destruct (fold_left _ _ _) as [w2 n] eqn:Hfold. simpl in Hs.
  assert (H0 : onlyStored (set_isProcessing true w)
                 (updateProgress 0 1 true (set_isProcessing true w))
                 [EProgress 0 1 true]).
  { exists (store w). by destruct w. }
  apply (upload_processed _ _ _ n evs); auto.
  exact (onlyStored_trans _ _ _ _ _ H0 Hs).
Qed.

End Upload.

Section UploadClaims.
Context `{Platform}.

(** A file whose signature check resolves to [false] is behind none of the
    [put] requests of a batch. *)
Lemma unsigned_not_stored est put_ok files w f :
  Security.checkSignature f = Security.Resolved false ->
  exists stored,
    putsOf (emitted w (App.handleUpload est put_ok files w).1) =
      List.map (fun g => App.recordOf g (App.existingTag (name g) w)) stored
    /\ (forall g, In g stored -> In g files)
    /\ ~ In f stored.
Proof.
  intros Hsig.
  destruct (handleUpload_outcome est put_ok files w)
    as [Hb -> | m Hb -> _ | n evs Hb _ _ Hs Hp _ _].
  - exists []. unfold emitted. simpl. rewrite drop_all.
    repeat split; simpl; tauto.
  - exists []. rewrite (emitted_app _ _ [EToast m true]) by done.
    repeat split; simpl; tauto.
  - exists (List.filter App.persistable (App.validFiles files)).
    rewrite (emitted_app _ _ (EProgress 0 1 true :: evs))
      by (rewrite (onlyStored_trace _ _ _ Hs); by destruct w).
    repeat split; [done | |].
    + intros g Hg. apply filter_In in Hg as [Hg _].
      by apply filter_In in Hg as [Hg _].
    + intros Hin. apply filter_In in Hin as [_ Hp'].
      unfold App.persistable in Hp'. rewrite Hsig in Hp'.
      by rewrite andb_false_r in Hp'.
Qed.

Lemma bad_magic_unsigned f :
  (forall magic, Security.getUint32 (fbytes f) 0 = inr magic -> magic ∉ MAGIC) ->
  Security.checkSignature f = Security.Resolved false.
Proof.
  intros Hbad. rewrite checkSignature_eq. f_equal.
  destruct (Security.getUint32 (fbytes f) 0) as [e | magic]; [apply andb_false_r |].
  rewrite bool_decide_eq_false_2; [apply andb_false_r | by apply Hbad].
Qed.

(** C3.  A file of a batch whose first four bytes, read as a big-endian
    32-bit integer, are none of the four magic numbers is behind none of the
    [put] requests of [handleUpload], whatever its extension: every request
    stores the record of another file of the batch.  When the batch is
    processed and the file passed the extension and size tests, the file gets
    a failure toast of its own and every file of the batch still gets its
    progress update. *)
Theorem bad_signature_never_persisted est put_ok files w f :
  In f files ->
  (forall magic, Security.getUint32 (fbytes f) 0 = inr magic -> magic ∉ MAGIC) ->
  let r := App.handleUpload est put_ok files w in
  (exists stored,
     putsOf (emitted w r.1) =
       List.map (fun g => App.recordOf g (App.existingTag (name g) w)) stored
     /\ (forall g, In g stored -> In g files)
     /\ ~ In f stored)
  /\ (forall n, r.2 = Some n ->
      App.hasValidExtension f = true ->
      (size f <= MAX_FILE_SIZE)%N ->
      In (EToast (MsgBadFont (name f)) true) (emitted w r.1)
      /\ forall k, k < length (App.validFiles files) ->
           In (EProgress (k + 1) (length (App.validFiles files)) true)
              (emitted w r.1)).
Proof.
  intros Hin Hbad r. pose proof (bad_magic_unsigned f Hbad) as Hsig.
  split; [by apply unsigned_not_stored |].
  intros n Hn Hext Hsz. subst r.
  destruct (handleUpload_outcome est put_ok files w)
    as [Hb Hr | m Hb Hr _ | n' evs Hb _ _ Hs _ Hg Ht].
  - rewrite Hr in Hn. discriminate.
  - rewrite Hr in Hn. discriminate.
  - rewrite (emitted_app _ _ (EProgress 0 1 true :: evs))
      by (rewrite (onlyStored_trace _ _ _ Hs); by destruct w).
    split.
    + right. apply Ht; [| done | done].
      apply filter_In. by split.
    + intros k Hk. right. by apply Hg.
Qed.


(** C7.  While [isProcessing] is set, a call of [handleUpload] and a
    confirmed call of [clearAll] return the world as it is: no field of the
    state changes, no request reaches the store, no toast is shown and no
    timer is armed. *)
Theorem busy_calls_are_ignored w :
  isProcessing w = true ->
  (forall est put_ok files,
     App.handleUpload est put_ok files w = (w, None))
  /\ (forall confirmed clear_ok getAll_ok,
        App.clearAll confirmed clear_ok getAll_ok w = w).
Proof.
  intros Hbusy. split.
  - intros. unfold App.handleUpload. by rewrite Hbusy.
  - intros. unfold App.clearAll. rewrite Hbusy. by destruct confirmed.
Qed.

(** C9.  A file enters the batch exactly when its lowered name ends with one
    of [.ttf], [.otf], [.woff], [.woff2]; a file named FONT.TTF passes. *)
Theorem extension_check_case_insensitive :
  (forall files f,
     In f (App.validFiles files) <->
     In f files
     /\ exists ext, In ext validExtensions
                    /\ exists pre, toLowerCase (name f) = pre ++ ext)
  /\ (forall t b r1 r2,
        App.hasValidExtension
          {| name := str "FONT.TTF"; ftype := t; fbytes := b;
             slice_readable := r1; readable := r2 |} = true).
Proof.
  split.
  - intros files f. unfold App.validFiles, App.hasValidExtension.
    rewrite filter_In, existsb_exists.
    by setoid_rewrite endsWith_spec.
  - intros. unfold App.hasValidExtension. simpl name.
    rewrite toLowerCase_ascii; [by vm_compute |].
    unfold str; simpl. repeat (constructor; [reflexivity |]). constructor.
Qed.

(** C10.  [checkSignature] always resolves, to a boolean: it cannot reject.
    It resolves to [false] when the file has fewer than four bytes and when
    the read fails, and a file in either case is behind none of the [put]
    requests of a batch. *)
Theorem checkSignature_total :
  (forall file, exists b, Security.checkSignature file = Security.Resolved b)
  /\ (forall file, length (fbytes file) < 4 ->
        Security.checkSignature file = Security.Resolved false)
  /\ (forall file, slice_readable file = false ->
        Security.checkSignature file = Security.Resolved false)
  /\ (forall est put_ok files w file,
        length (fbytes file) < 4 \/ slice_readable file = false ->
        exists stored,
          putsOf (emitted w (App.handleUpload est put_ok files w).1) =
            List.map (fun g => App.recordOf g (App.existingTag (name g) w)) stored
          /\ (forall g, In g stored -> In g files)
          /\ ~ In file stored).
Proof.
  assert (Hshort : forall file, length (fbytes file) < 4 ->
            Security.checkSignature file = Security.Resolved false).
  { intros file Hlen. rewrite checkSignature_eq, getUint32_short by done.
    by rewrite andb_false_r. }
  assert (Hread : forall file, slice_readable file = false ->
            Security.checkSignature file = Security.Resolved false).
  { intros file Hr. by rewrite checkSignature_eq, Hr. }
  repeat split; [| done | done |].
  - intros file. rewrite checkSignature_eq. eauto.
  - intros est put_ok files w file [Hlen | Hr];
      apply unsigned_not_stored; auto.
Qed.

End UploadClaims.

(* ===================================================================== *)
(** * 11. The registry and its filtered view *)
(* ===================================================================== *)

Lemma fold_left_invariant {A B} (P : A -> Prop) (f : A -> B -> A) l :
  (forall a b, P a -> P (f a b)) -> forall a, P a -> P (fold_left f l a).
Proof.
  intros Hf. induction l as [|b l IH]; intros a Ha; simpl; [done |].
  apply IH. by apply Hf.
Qed.

Lemma sublist_List_filter {A} (p : A -> bool) l : sublist (List.filter p l) l.
Proof.
  induction l as [|x l IH]; simpl; [constructor |].
  destruct (p x); by constructor.
Qed.

Lemma store_get_put r s : store_get (fileName r) (store_put r s) = Some r.
Proof.
  unfold store_get. induction s as [|r' s IH]; simpl.
  - by rewrite bool_decide_eq_true_2.
  - destruct (bool_decide (fileName r' = fileName r)) eqn:Heq; simpl.
    + by rewrite bool_decide_eq_true_2.
    + destruct (key_ltb _ _); simpl.
      * by rewrite bool_decide_eq_true_2.
      * by rewrite Heq.
Qed.

Section Registry.
Context `{Platform}.

Lemma injectFontFace_registry key d w :
  registry (App.injectFontFace key d w).2 = registry w.
Proof.
  unfold App.injectFontFace, App.getFontUrl, MasterStyle.insert.
  repeat case_match; simplify_eq; done.
Qed.

Lemma place_registry i c w : registry (App.place i c w) = registry w.
Proof. unfold App.place. repeat case_match; done. Qed.

Lemma renderOne_registry w it : registry (App.renderOne w it) = registry w.
Proof.
  destruct it as [i l]. unfold App.renderOne.
  destruct (obj w l) as [font|]; [| done].
  destruct (renderedMap w !! fileName font); [apply place_registry |].
  pose proof (injectFontFace_registry (fileName font) (data font) w) as Hi.
  destruct (App.injectFontFace _ _ w) as [[id|] w1]; simpl in Hi; [| done].
  by rewrite place_registry.
Qed.

Lemma render_registry w : registry (App.render w) = registry w.
Proof.
  unfold App.render.
  match goal with
  | |- registry (fold_left _ _ ?w2) = _ =>
    transitivity (registry w2);
      [apply (fold_left_invariant (fun x => registry x = registry w2));
         [intros a b Ha; by rewrite renderOne_registry | done] |]
  end.
  simpl. repeat case_match; done.
Qed.

Lemma filter_registry w :
  registry (App.filter w) =
  registry (set_filtered
              (List.filter (App.matchesRef (toLowerCase (search w)) w) (fonts w)) w).
Proof. unfold App.filter. by rewrite render_registry. Qed.




Lemma findFont_Some key w l :
  App.findFont key w = Some l -> In l (fonts w) /\ nameOf w l = Some key.
Proof.
  unfold App.findFont. intros Hf. apply find_some in Hf as [Hin Hn].
  by apply bool_decide_eq_true in Hn.
Qed.

(** [updateTag] on a registered key: the record object is changed first, the
    store is asked after, and nothing looks at the answer. *)
Lemma updateTag_found key rawTag ok w l font :
  App.findFont key w = Some l ->
  obj w l = Some font ->
  App.updateTag key rawTag ok w =
  DB.put (withTag font (Security.sanitizeTag rawTag)) ok
    (set_heap (<[l := withTag font (Security.sanitizeTag rawTag)]> (heap w)) w).
Proof.
  intros Hfind Hobj. unfold App.updateTag, App.setUserTag. rewrite Hfind, Hobj.
  unfold obj in *. simpl.
  rewrite list_lookup_insert_eq; [done |]. by eapply lookup_lt_Some.
Qed.

(** C6.  The tag [updateTag] keeps is the raw tag trimmed, then cut to 40 code
    units, then freed of the control and bidirectional characters.  The
    trimmed string is the raw tag without the longest run of white space at
    each end, white space being the code points of [WhiteSpace] and
    [LineTerminator].  The tag is the first 40 code units of the trimmed
    string with exactly the code units U+0000-U+001F, U+007F-U+009F, U+200E,
    U+200F and U+202A-U+202E taken out: every other code unit is kept, in
    its place and as often as it occurs, so a string without them is kept
    whole.  For a registered key the record object gets this tag and is
    handed to [DB.put]; when the request succeeds the store holds the
    updated record under its key. *)
Theorem updateTag_sanitizes_and_persists rawTag :
  let tag := Security.sanitizeTag rawTag in
  let space (c : N) : Prop :=
    (9 <= c <= 13 \/ c = 0x20 \/ c = 0xA0 \/ c = 0x1680
     \/ 0x2000 <= c <= 0x200A \/ c = 0x2028 \/ c = 0x2029 \/ c = 0x202F
     \/ c = 0x205F \/ c = 0x3000 \/ c = 0xFEFF)%N in
  let stripped (c : N) : Prop :=
    (c <= 0x1F \/ 0x7F <= c <= 0x9F \/ c = 0x200E \/ c = 0x200F
     \/ 0x202A <= c <= 0x202E)%N in
  tag = List.filter (fun c => negb (Security.isStripped c)) (take 40 (trim rawTag))
  /\ (exists a b, rawTag = a ++ trim rawTag ++ b
        /\ Forall (fun c => isWhiteSpace c = true) a
        /\ Forall (fun c => isWhiteSpace c = true) b
        /\ (forall c, head (trim rawTag) = Some c -> isWhiteSpace c = false)
        /\ (forall c, last (trim rawTag) = Some c -> isWhiteSpace c = false))
  /\ length tag <= 40
  /\ (forall c, In c tag ->
        ~ (c <= 0x1F \/ 0x7F <= c <= 0x9F \/ c = 0x200E \/ c = 0x200F
           \/ 0x202A <= c <= 0x202E)%N)
  /\ (forall key ok w l font,
        App.findFont key w = Some l ->
        obj w l = Some font ->
        let w' := App.updateTag key rawTag ok w in
        obj w' l = Some (withTag font tag)
        /\ emitted w w' = [EPut (withTag font tag) ok]
        /\ (ok = true ->
            store_get (fileName font) (store w') = Some (withTag font tag)))
  /\ (exists a b, rawTag = a ++ trim rawTag ++ b
        /\ Forall space a /\ Forall space b
        /\ (forall c, head (trim rawTag) = Some c -> ~ space c)
        /\ (forall c, last (trim rawTag) = Some c -> ~ space c))
  /\ (forall test : N -> bool,
        (forall c, test c = true <-> ~ stripped c) ->
        tag = List.filter test (take 40 (trim rawTag)))
  /\ sublist tag (take 40 (trim rawTag))
  /\ (forall c, In c tag <-> In c (take 40 (trim rawTag)) /\ ~ stripped c)
  /\ (Forall (fun c => ~ stripped c) (take 40 (trim rawTag)) ->
      tag = take 40 (trim rawTag))
  /\ (Forall (fun c => ~ space c /\ ~ stripped c) rawTag ->
      tag = take 40 rawTag).
Proof.
  intros tag space stripped.
  assert (Hfilter : forall test : N -> bool,
             (forall c, test c = true <-> ~ stripped c) ->
             tag = List.filter test (take 40 (trim rawTag))).
  { intros test Htest. subst tag. rewrite sanitizeTag_eq.
    apply filter_ext. intros c.
    destruct (test c) eqn:Hc.
    - apply Htest in Hc. apply negb_true_iff.
      destruct (Security.isStripped c) eqn:Hs; [| done].
      by apply isStripped_spec in Hs.
    - apply negb_false_iff. apply isStripped_spec.
      destruct (Security.isStripped c) eqn:Hs; [by apply isStripped_spec |].
      exfalso. assert (Ht : test c = true); [| by rewrite Ht in Hc].
      apply Htest. intros Hbad. apply isStripped_spec in Hbad.
      by rewrite Hbad in Hs. }
  assert (Hmem : forall c, In c tag <->
                           In c (take 40 (trim rawTag)) /\ ~ stripped c).
  { intros c. subst tag. rewrite sanitizeTag_eq, filter_In, negb_true_iff.
    split; intros [Hin Hc]; (split; [done |]).
    - intros Hbad. apply isStripped_spec in Hbad. by rewrite Hbad in Hc.
    - destruct (Security.isStripped c) eqn:Hs; [| done].
      exfalso. by apply Hc, isStripped_spec. }
  assert (Hkeep : Forall (fun c => ~ stripped c) (take 40 (trim rawTag)) ->
                  tag = take 40 (trim rawTag)).
  { intros Hall. subst tag. rewrite sanitizeTag_eq. apply List_filter_id.
    intros c Hc. apply negb_true_iff.
    destruct (Security.isStripped c) eqn:Hs; [| done].
    exfalso. rewrite List.Forall_forall in Hall.
    by apply (Hall c Hc), isStripped_spec. }
  split; [apply sanitizeTag_eq |].
  split; [apply trim_spec |].
  split; [apply sanitizeTag_length |].
  split.
  { intros c Hc Hbad. by apply Hmem in Hc as [_ Hc]. }
  split.
  { intros key ok w l font Hfind Hobj w'. subst w'.
    rewrite (updateTag_found _ _ _ _ _ _ Hfind Hobj). fold tag.
    repeat split.
    + unfold obj, DB.put; simpl.
      assert (Hl : l < length (heap w)) by (by eapply lookup_lt_Some).
      destruct ok; simpl; by rewrite list_lookup_insert_eq.
    + apply emitted_app. by destruct ok.
    + intros ->. simpl. apply (store_get_put (withTag font tag)). }
  split.
  { destruct (trim_spec rawTag) as (a & b & Heq & Ha & Hb & Hh & Hl).
    exists a, b. split; [exact Heq |].
    split; [| split; [| split]].
    - apply List.Forall_forall. intros c Hc. rewrite List.Forall_forall in Ha.
      by apply isWhiteSpace_spec, Ha.
    - apply List.Forall_forall. intros c Hc. rewrite List.Forall_forall in Hb.
      by apply isWhiteSpace_spec, Hb.
    - intros c Hc Hs. apply isWhiteSpace_spec in Hs. by rewrite (Hh c Hc) in Hs.
    - intros c Hc Hs. apply isWhiteSpace_spec in Hs. by rewrite (Hl c Hc) in Hs. }
  split; [exact Hfilter |].
  split.
  { subst tag. rewrite sanitizeTag_eq. apply sublist_List_filter. }
  split; [exact Hmem |].
  split; [exact Hkeep |].
  intros Hall.
  assert (Ht : trim rawTag = rawTag).
  { apply trim_id. intros c Hc. rewrite List.Forall_forall in Hall.
    destruct (isWhiteSpace c) eqn:Hs; [| done].
    exfalso. by apply (proj1 (Hall c Hc)), isWhiteSpace_spec. }
  transitivity (take 40 (trim rawTag)); [| by rewrite Ht].
  apply Hkeep. rewrite Ht.
  apply List.Forall_forall. intros c Hc. rewrite List.Forall_forall in Hall.
  apply (Hall c). apply list_elem_of_In.
  apply (subseteq_take 40 rawTag). by apply list_elem_of_In.
Qed.

End Registry.

(* ===================================================================== *)
(** * 12. Store failures *)
(* ===================================================================== *)

Section Failures.
Context `{Platform}.

(** A failed [DB.delete]: the registry is as before, the user is told. *)
Lemma deleteSingleFont_failed key w :
  App.deleteSingleFont key true false w =
  set_trace (trace w ++ [EDelete key false; EToast MsgDeleteFailed true]) w.
Proof.
  unfold App.deleteSingleFont, toast, DB.delete, set_trace. simpl.
  by rewrite <- app_assoc.
Qed.

(** A failed [DB.clear]: the registry is as before, the user is told. *)
Lemma clearAll_failed ok w :
  isProcessing w = false ->
  App.clearAll true false ok w =
  set_trace (trace w ++ [EClear false; EToast MsgClearFailed true]) w.
Proof.
  intros Hb. unfold App.clearAll. rewrite Hb.
  destruct w; simpl in *; subst.
  unfold toast, DB.clear, set_trace, set_isProcessing. simpl.
  by rewrite <- app_assoc.
Qed.

(** A failed [DB.put] in [updateTag]: the record object has the new tag all
    the same, and the only event is the request itself. *)
Lemma updateTag_failed key rawTag w l font :
  App.findFont key w = Some l ->
  obj w l = Some font ->
  let w' := App.updateTag key rawTag false w in
  obj w' l = Some (withTag font (Security.sanitizeTag rawTag))
  /\ emitted w w' = [EPut (withTag font (Security.sanitizeTag rawTag)) false]
  /\ store w' = store w.
Proof.
  intros Hfind Hobj w'. subst w'.
  rewrite (updateTag_found _ _ _ _ _ _ Hfind Hobj).
  repeat split.
  - unfold obj, DB.put; simpl. apply list_lookup_insert_eq.
    by eapply lookup_lt_Some.
  - by apply emitted_app.
Qed.

End Failures.

(* ===================================================================== *)
(** * 13. The font-face cache *)
(* ===================================================================== *)

Lemma fontFaceInv_faces w w' : faces w' = faces w -> fontFaceInv w -> fontFaceInv w'.
Proof. unfold faces, fontFaceInv. intros [= -> ->]. done. Qed.

Lemma fontFaceInv_empty w : faces w = ([], ∅) -> fontFaceInv w.
Proof.
  unfold faces, fontFaceInv. intros [= -> ->]. split; [constructor |].
  intros r Hr. by apply elem_of_nil in Hr.
Qed.

Lemma toast_inv m e w : fontFaceInv w -> fontFaceInv (toast m e w).
Proof. by apply fontFaceInv_faces. Qed.

Lemma set_isProcessing_inv b w : fontFaceInv w -> fontFaceInv (set_isProcessing b w).
Proof. by apply fontFaceInv_faces. Qed.

Lemma updateProgress_inv n d b w : fontFaceInv w -> fontFaceInv (updateProgress n d b w).
Proof. by apply fontFaceInv_faces. Qed.

Section FontFaces.
Context `{Platform}.

Lemma getFontUrl_faces key d w : faces (App.getFontUrl key d w).2 = faces w.
Proof. unfold App.getFontUrl. repeat case_match; done. Qed.

Lemma injectFontFace_cached key d w :
  Security.safeFontId key d ∈ loadedFonts w -> App.injectFontFace key d w = (Some (Security.safeFontId key d), w).
Proof. intros Hin. unfold App.injectFontFace. by rewrite bool_decide_eq_true_2. Qed.

(** What [injectFontFace] does to the sheet and the cache: nothing, or the
    identifier enters the cache, with or without a rule appended for it. *)
Lemma injectFontFace_faces key d w :
  let id := Security.safeFontId key d in
  let w' := (App.injectFontFace key d w).2 in
  faces w' = faces w
  \/ (id ∉ loadedFonts w)
     /\ loadedFonts w' = {[id]} ∪ loadedFonts w
     /\ (sheet w' = sheet w
         \/ exists url, sheet w' = sheet w ++ [{| rule_family := id; rule_src := url |}]).
Proof.
  intros id w'. subst id w'. unfold App.injectFontFace.
  destruct (bool_decide _) eqn:Hc; [by left |].
  apply bool_decide_eq_false in Hc.
  pose proof (getFontUrl_faces key d w) as Hu.
  destruct (App.getFontUrl key d w) as [[url|] w1]; simpl in Hu; [| by left].
  destruct (App.url_truthy url); [| by left].
  injection Hu as Hs Hl. right. split; [done |].
  unfold MasterStyle.insert. destruct (insertRule_ok _); simpl.
  - rewrite Hl, Hs. split; [done |]. right. by exists url.
  - rewrite Hl, Hs. split; [done |]. by left.
Qed.

Lemma injectFontFace_inv key d w :
  fontFaceInv w -> fontFaceInv (App.injectFontFace key d w).2.
Proof.
  intros [Hnd Hsub].
  destruct (injectFontFace_faces key d w)
    as [Hf | (Hnew & Hl & [Hs | [url Hs]])].
  - by apply (fontFaceInv_faces w).
  - split; rewrite Hs; [done |].
    intros r Hr. rewrite Hl. apply elem_of_union_r. by apply Hsub.
  - split; rewrite Hs.
    + rewrite fmap_app. simpl. apply NoDup_app. split; [done |]. split.
      * intros id Hid Hid'. apply list_elem_of_singleton in Hid'. subst id.
        apply list_elem_of_fmap in Hid as (r & Hr1 & Hr2).
        apply Hnew. rewrite Hr1. by apply Hsub.
      * apply NoDup_singleton.
    + intros r Hr. rewrite Hl. apply elem_of_app in Hr as [Hr | Hr].
      * apply elem_of_union_r. by apply Hsub.
      * apply list_elem_of_singleton in Hr. subst r. apply elem_of_union_l.
        by apply elem_of_singleton.
Qed.

Lemma place_faces i c w : faces (App.place i c w) = faces w.
Proof. unfold App.place. repeat case_match; done. Qed.

Lemma renderOne_inv w it : fontFaceInv w -> fontFaceInv (App.renderOne w it).
Proof.
  intros Hinv. destruct it as [i l]. unfold App.renderOne.
  destruct (obj w l) as [font|]; [| done].
  destruct (renderedMap w !! fileName font).
  { by apply (fontFaceInv_faces w); [apply place_faces |]. }
  pose proof (injectFontFace_inv (fileName font) (data font) w Hinv) as Hi.
  destruct (App.injectFontFace _ _ w) as [[id|] w1]; simpl in Hi; [| done].
  eapply fontFaceInv_faces; [| exact Hi]. by rewrite place_faces.
Qed.

Lemma render_inv w : fontFaceInv w -> fontFaceInv (App.render w).
Proof.
  intros Hinv. unfold App.render.
  apply fold_left_invariant; [intros a b; apply renderOne_inv |].
  eapply fontFaceInv_faces; [| exact Hinv].
  simpl. repeat case_match; done.
Qed.

Lemma filter_inv w : fontFaceInv w -> fontFaceInv (App.filter w).
Proof.
  intros Hinv. unfold App.filter. apply render_inv.
  by apply (fontFaceInv_faces w).
Qed.

(** [loadFonts] empties the sheet and the cache together, then renders. *)
Lemma loadFonts_restarts w :
  exists w0, App.loadFonts true w = App.filter w0 /\ faces w0 = ([], ∅).
Proof. unfold App.loadFonts. eexists. split; [reflexivity | done]. Qed.

Lemma loadFonts_inv ok w : fontFaceInv w -> fontFaceInv (App.loadFonts ok w).
Proof.
  intros Hinv. destruct ok; [| done].
  destruct (loadFonts_restarts w) as (w0 & -> & Hf).
  by apply filter_inv, fontFaceInv_empty.
Qed.

Lemma onlyStored_faces w w' evs : onlyStored w w' evs -> faces w' = faces w.
Proof. by intros [st ->]. Qed.

Lemma handleUpload_faces est put_ok files w :
  faces (App.handleUpload est put_ok files w).1 = faces w.
Proof.
  destruct (handleUpload_outcome est put_ok files w)
    as [Hb -> | m Hb -> _ | n evs Hb _ _ Hs _ _ _]; [done | done |].
  by rewrite (onlyStored_faces _ _ _ Hs).
Qed.

Lemma exportLoop_inv total chunks : forall i w,
  fontFaceInv w -> fontFaceInv (App.exportLoop total i chunks w).
Proof.
  induction chunks as [|chunk rest IH]; intros i w Hinv; simpl; [done |].
  apply IH, updateProgress_inv.
  apply fold_left_invariant; [| done].
  intros a l Ha. unfold App.exportRow.
  destruct (obj a l); [by apply injectFontFace_inv | done].
Qed.

Lemma releaseUrl_faces key w : faces (App.releaseUrl key w) = faces w.
Proof. unfold App.releaseUrl, App.revoke. by repeat case_match. Qed.

Lemma removeCard_faces key w : faces (App.removeCard key w) = faces w.
Proof. unfold App.removeCard. by case_match. Qed.

Lemma step_inv w w' : App.step w w' -> fontFaceInv w -> fontFaceInv w'.
Proof.
  intros Hstep Hinv. destruct Hstep.
  - by apply loadFonts_inv.
  - unfold App.onSearch. apply filter_inv. by apply (fontFaceInv_faces w).
  - eapply fontFaceInv_faces; [apply handleUpload_faces | done].
  - unfold App.uploadDone. apply loadFonts_inv.
    eapply fontFaceInv_faces; [| exact Hinv]. by case_match.
  - unfold App.deleteSingleFont.
    destruct confirmed; cbn [negb]; [| done].
    destruct ok; [| by apply (fontFaceInv_faces w)].
    cbn zeta. apply toast_inv, filter_inv.
    eapply fontFaceInv_faces; [| exact Hinv].
    by rewrite removeCard_faces, releaseUrl_faces.
  - unfold App.clearAll.
    destruct confirmed; cbn [negb]; [| done].
    destruct (isProcessing w); [done |].
    destruct ok; [| by apply (fontFaceInv_faces w)].
    destruct ok'; [| by apply (fontFaceInv_faces w)].
    apply set_isProcessing_inv, toast_inv, loadFonts_inv.
    by apply (fontFaceInv_faces w).
  - eapply fontFaceInv_faces; [| exact Hinv].
    unfold App.updateTag, App.setUserTag. repeat case_match; try done.
    all: unfold DB.put; by case_match.
  - unfold App.exportPDF. repeat case_match; try by apply (fontFaceInv_faces w).
    all: apply exportLoop_inv; by apply (fontFaceInv_faces w).
  - by apply (fontFaceInv_faces w).
Qed.

Lemma reachable_inv w : App.reachable w -> fontFaceInv w.
Proof.
  induction 1 as [|w w' _ IH Hstep]; [by apply fontFaceInv_empty |].
  by apply (step_inv w w').
Qed.

(** C8.  In every world the page can reach, no two rules of the master sheet
    are for the same font identifier, and every rule is for an identifier of
    the cache.  [injectFontFace] leaves the sheet alone when the identifier
    is cached, and a rule it adds is for the identifier it was asked for,
    which was not cached.  [loadFonts], the one place where the sheet is
    emptied, empties the cache with it before it renders again. *)
Theorem one_rule_per_font_identifier :
  (forall w, App.reachable w ->
     NoDup (rule_family <$> sheet w)
     /\ forall r, r ∈ sheet w -> rule_family r ∈ loadedFonts w)
  /\ (forall key d w,
        Security.safeFontId key d ∈ loadedFonts w ->
        sheet (App.injectFontFace key d w).2 = sheet w)
  /\ (forall key d w r,
        r ∈ sheet (App.injectFontFace key d w).2 ->
        r ∈ sheet w
        \/ rule_family r = Security.safeFontId key d
           /\ (Security.safeFontId key d ∉ loadedFonts w))
  /\ (forall w, exists w0,
        App.loadFonts true w = App.filter w0
        /\ sheet w0 = [] /\ loadedFonts w0 = ∅).
Proof.
  split; [exact reachable_inv |]. repeat split.
  - intros key d w Hin. by rewrite injectFontFace_cached.
  - intros key d w r Hr.
    destruct (injectFontFace_faces key d w)
      as [Hf | (Hnew & _ & [Hs | [url Hs]])].
    + injection Hf as Hs _. left. by rewrite <- Hs.
    + left. by rewrite <- Hs.
    + rewrite Hs in Hr. apply elem_of_app in Hr as [Hr | Hr]; [by left |].
      apply list_elem_of_singleton in Hr. subst r. by right.
  - intros w. destruct (loadFonts_restarts w) as (w0 & Hl & [= Hs Hc]). eauto.
Qed.

End FontFaces.

(* ===================================================================== *)
(** * 14. The rendered view *)
(* ===================================================================== *)


Lemma List_filter_stdpp {A} (p : A -> bool) l :
  List.filter p l = base.filter (fun x => p x = true) l.
Proof.
  induction l as [|x l IH]; [done |]. simpl.
  rewrite filter_cons. rewrite IH.
  destruct (p x); by case_decide.
Qed.

Lemma List_filter_all {A} (p : A -> bool) l :
  (forall x, In x l -> p x = true) -> List.filter p l = l.
Proof.
  induction l as [|x l IH]; intros Hp; [done |]. simpl.
  rewrite Hp by (by left). f_equal. apply IH. intros y Hy. apply Hp. by right.
Qed.

Lemma List_filter_comm {A} (p q : A -> bool) l :
  List.filter p (List.filter q l) = List.filter q (List.filter p l).
Proof.
  induction l as [|x l IH]; [done |]. simpl.
  destruct (p x) eqn:Hp, (q x) eqn:Hq; simpl; rewrite ?Hp, ?Hq, IH; done.
Qed.

Lemma dom_remove_comm n m g : dom_remove n (dom_remove m g) = dom_remove m (dom_remove n g).
Proof. apply List_filter_comm. Qed.

Lemma dom_remove_NoDup n g : NoDup g -> NoDup (dom_remove n g).
Proof. unfold dom_remove. rewrite List_filter_stdpp. apply NoDup_filter. Qed.

Lemma dom_remove_not_in n g : n ∉ dom_remove n g.
Proof.
  unfold dom_remove. rewrite List_filter_stdpp, list_elem_of_filter.
  intros [Hn _]. by rewrite bool_decide_eq_true_2 in Hn.
Qed.

Lemma dom_remove_absent n g : n ∉ g -> dom_remove n g = g.
Proof.
  intros Hn. apply List_filter_all. intros x Hx.
  apply negb_true_iff, bool_decide_eq_false. intros ->.
  by apply Hn, list_elem_of_In.
Qed.

(** Filtering two lists that go pairwise, by tests that agree pairwise. *)
Lemma Forall2_List_filter {A B} (P : A -> B -> Prop) p q l k :
  Forall2 (fun x y => P x y /\ p x = q y) l k ->
  Forall2 P (List.filter p l) (List.filter q k).
Proof.
  induction 1 as [|x y l k [HP Hpq] _ IH]; simpl; [constructor |].
  rewrite Hpq. destruct (q y); [by constructor | done].
Qed.

Lemma set_filtered_id w : set_filtered (filtered w) w = w.
Proof. by destruct w. Qed.

Lemma set_grid_renderedMap_id w :
  set_grid (grid w) (set_renderedMap (renderedMap w) w) = w.
Proof. by destruct w. Qed.

Section RenderedViewFacts.
Context `{Platform}.

Lemma shown_spec w :
  shown w = true <->
  NoDup (names w (filtered w))
  /\ cardsOf w (filtered w) = Some (dom_remove NEmpty (grid w))
  /\ NoDup (grid w)
  /\ dom (renderedMap w) ⊆ list_to_set (names w (filtered w)).
Proof.
  unfold shown. rewrite !andb_true_iff, !bool_decide_eq_true. tauto.
Qed.

Lemma dom_remove_nil n g : dom_remove n g = [] -> NoDup g -> g = [] \/ g = [n].
Proof.
  destruct g as [|x g]; [by left |]. intros Hr Hnd. right.
  apply NoDup_cons in Hnd as [Hx Hnd]. simpl in Hr.
  destruct (bool_decide (x = n)) eqn:Hxn; [| done].
  apply bool_decide_eq_true in Hxn. subst x. simpl in Hr.
  fold (dom_remove n g) in Hr. rewrite dom_remove_absent in Hr by done.
  by subst g.
Qed.

(** The loop of [render] moves nothing when every card is in its place. *)
Lemma render_loop_id ls : forall i0 w,
  (forall k l, ls !! k = Some l ->
     exists c, cardOf w l = Some c /\ grid w !! (i0 + k) = Some c) ->
  fold_left App.renderOne (combine (seq i0 (length ls)) ls) w = w.
Proof.
  induction ls as [|l ls IH]; intros i0 w Hat; [done |].
  cbn [length seq combine fold_left].
  destruct (Hat 0 l eq_refl) as (c & Hc & Hg).
  rewrite Nat.add_0_r in Hg.
  assert (Hone : App.renderOne w (i0, l) = w).
  { unfold cardOf in Hc. unfold App.renderOne.
    destruct (obj w l) as [f|]; [| done]. simpl in Hc.
    destruct (renderedMap w !! fileName f) as [e|]; [| done].
    simpl in Hc. injection Hc as <-.
    unfold App.place. by rewrite bool_decide_eq_true_2. }
  rewrite Hone. apply IH. intros k l' Hk.
  destruct (Hat (S k) l' Hk) as (c' & Hc' & Hg').
  exists c'. split; [done |]. by replace (S i0 + k) with (i0 + S k) by lia.
Qed.

Lemma render_shown w :
  shown w = true ->
  App.render w =
  set_grid (match filtered w with
            | [] => [NEmpty]
            | _ :: _ => dom_remove NEmpty (grid w)
            end) w.
Proof.
  intros (Hnd & Hcards & Hgnd & Hdom)%shown_spec. unfold App.render.
  set (validKeys := list_to_set (names w (filtered w)) : gset (list N)) in *.
  assert (Hstale : base.filter (fun kv : list N * Entry => kv.1 ∉ validKeys) (renderedMap w) = ∅).
  { apply map_empty_filter. intros k e Hk Hn. apply Hn. simpl.
    apply Hdom, elem_of_dom. eauto. }
  assert (Hkeep : base.filter (fun kv : list N * Entry => kv.1 ∈ validKeys) (renderedMap w) = renderedMap w).
  { apply map_filter_id. intros k e Hk. simpl. apply Hdom, elem_of_dom. eauto. }
  rewrite Hstale, Hkeep, map_to_list_empty. simpl fmap.
  rewrite (List_filter_all _ (grid w)).
  2:{ intros x _. apply negb_true_iff, bool_decide_eq_false. apply not_elem_of_nil. }
  rewrite set_grid_renderedMap_id.
  destruct (filtered w) as [|l0 ls] eqn:Hf.
  - simpl in Hcards. injection Hcards as Hcards.
    destruct (bool_decide (NEmpty ∈ grid w)) eqn:Hin.
    + rewrite Hf. simpl. apply bool_decide_eq_true in Hin.
      destruct (dom_remove_nil NEmpty (grid w) (eq_sym Hcards) Hgnd) as [Hg | Hg].
      * rewrite Hg in Hin. by apply elem_of_nil in Hin.
      * rewrite <- Hg. by destruct w.
    + change (filtered (set_grid (grid w ++ [NEmpty]) w)) with (filtered w).
      rewrite Hf. simpl. apply bool_decide_eq_false in Hin.
      destruct (dom_remove_nil NEmpty (grid w) (eq_sym Hcards) Hgnd) as [Hg | Hg].
      * by rewrite Hg.
      * rewrite Hg in Hin. exfalso. apply Hin, list_elem_of_here.
  - cbn zeta.
    assert (Hfw : filtered (set_grid (dom_remove NEmpty (grid w)) w) = l0 :: ls)
      by done.
    rewrite Hfw. apply render_loop_id. intros k l Hk.
    apply mapM_Some in Hcards.
    destruct (Forall2_lookup_l _ _ _ _ _ Hcards Hk) as (c & Hgc & Hc).
    exists c. by split.
Qed.


Lemma sublist_omap {A B} (f : A -> option B) l1 l2 :
  sublist l1 l2 -> sublist (omap f l1) (omap f l2).
Proof.
  induction 1 as [|x l1 l2 _ IH|x l1 l2 _ IH]; simpl; [constructor | |].
  - destruct (f x); [by constructor | done].
  - destruct (f x); [by constructor | done].
Qed.

(** The world after the three blocks of the callback. *)
Lemma dropped_eq key w :
  App.removeCard key (App.releaseUrl key (App.forgetFont key w)) =
  set_renderedMap (base.delete key (renderedMap w))
    (set_grid
       (match renderedMap w !! key with
        | Some e => dom_remove (NCard (card e)) (grid w)
        | None => grid w
        end)
       (set_objectUrls (base.delete key (objectUrls w))
          (set_live_urls
             (match objectUrls w !! key with
              | Some (UObj id) => live_urls w ∖ {[id]}
              | _ => live_urls w
              end)
             (set_filtered (List.filter (otherName w key) (filtered w))
                (set_fonts (List.filter (otherName w key) (fonts w)) w))))).
Proof.
  unfold App.removeCard, App.releaseUrl, App.forgetFont, App.revoke.
  destruct w as [fo fi se lo ou rm ip he st sh gr ni lu tr]. cbn.
  destruct (ou !! key) as [[id | s]|] eqn:Hu; cbn;
    destruct (rm !! key) as [e|] eqn:Hr; cbn;
    rewrite ?(delete_id ou) by done; rewrite ?(delete_id rm) by done; done.
Qed.

Lemma Forall2_List_filter_kept {A B} (P : A -> B -> Prop) p q l k :
  Forall2 (fun x y => p x = q y /\ (p x = true -> P x y)) l k ->
  Forall2 P (List.filter p l) (List.filter q k).
Proof.
  induction 1 as [|x y l k [Hpq HP] _ IH]; simpl; [constructor |].
  rewrite <- Hpq. destruct (p x); [constructor; auto | done].
Qed.

Lemma cardOf_named w l c :
  cardOf w l = Some c ->
  exists f e, obj w l = Some f /\ renderedMap w !! fileName f = Some e
              /\ c = NCard (card e).
Proof.
  unfold cardOf. destruct (obj w l) as [f|] eqn:Hf; [| done]. simpl.
  destruct (renderedMap w !! fileName f) as [e|] eqn:He; [| done]. simpl.
  intros [= <-]. exists f, e. auto.
Qed.

Lemma entry_named (m : gmap (list N) Entry) (ks : list (list N)) k e :
  dom m ⊆ list_to_set ks -> m !! k = Some e -> k ∈ ks.
Proof.
  intros Hdom Hk. assert (Hin : k ∈ dom m) by (apply elem_of_dom; eauto).
  apply Hdom in Hin. by apply elem_of_list_to_set in Hin.
Qed.

(** Taking one record out of a shown view leaves a shown view. *)
Lemma dropped_shown key w :
  shown w = true ->
  shown (App.removeCard key (App.releaseUrl key (App.forgetFont key w))) = true.
Proof.
  intros (Hnd & Hcards & Hgnd & Hdom)%shown_spec.
  rewrite dropped_eq. apply shown_spec.
  set (F := List.filter (otherName w key) (filtered w)).
  match goal with |- context [set_renderedMap ?m (set_grid ?g ?x)] =>
    set (w3 := set_renderedMap m (set_grid g x)) end.
  change (filtered w3) with F.
  change (names w3 F) with (names w F).
  change (renderedMap w3) with (base.delete key (renderedMap w)).
  apply mapM_Some in Hcards.
  pose proof (dom_remove_NoDup NEmpty _ Hgnd) as Hcnd.
  set (cards := dom_remove NEmpty (grid w)) in *.
  assert (Hsub : sublist F (filtered w)) by apply sublist_List_filter.
  (* a record of the view named [key] has the entry of [key] *)
  assert (Hkey : forall l c e, l ∈ filtered w -> cardOf w l = Some c ->
            renderedMap w !! key = Some e ->
            nameOf w l = Some key -> c = NCard (card e)).
  { intros l c e _ Hc He Hn. apply cardOf_named in Hc as (f & e' & Hf & He' & ->).
    unfold nameOf in Hn. rewrite Hf in Hn. injection Hn as Hn.
    rewrite Hn, He in He'. by injection He' as <-. }
  split; [| split; [| split]].
  - assert (Hs : sublist (names w F) (names w (filtered w)))
      by (unfold names; by apply sublist_omap).
    eauto using sublist_NoDup.
  - unfold cardsOf. apply mapM_Some.
    destruct (renderedMap w !! key) as [e|] eqn:He.
    + change (grid w3) with (dom_remove (NCard (card e)) (grid w)).
      rewrite dom_remove_comm. fold cards.
      apply Forall2_List_filter_kept.
      apply Forall2_same_length_lookup. split; [by eapply Forall2_length |].
      intros i l c Hl Hc.
      pose proof (Forall2_lookup_lr _ _ _ _ _ _ Hcards Hl Hc) as Hlc.
      split.
      * unfold otherName. f_equal.
        apply bool_decide_ext. split; [by eapply Hkey; eauto using list_elem_of_lookup_2 |].
        intros ->.
        assert (Hin : key ∈ names w (filtered w)) by eauto using entry_named.
        apply list_elem_of_omap in Hin as (l' & Hl' & Hn').
        apply list_elem_of_lookup in Hl' as [j Hj].
        destruct (Forall2_lookup_l _ _ _ _ _ Hcards Hj) as (c' & Hc' & Hlc').
        pose proof (Hkey l' c' e (list_elem_of_lookup_2 _ _ _ Hj) Hlc' eq_refl Hn') as ->.
        pose proof (NoDup_lookup _ _ _ _ Hcnd Hc Hc') as ->.
        rewrite Hl in Hj. by injection Hj as ->.
      * intros Hother. unfold otherName in Hother.
        apply negb_true_iff, bool_decide_eq_false in Hother.
        apply cardOf_named in Hlc as (f & e' & Hf & He' & ->).
        unfold cardOf. change (obj w3 l) with (obj w l). rewrite Hf. simpl.
        rewrite lookup_delete_ne, He'; [done |].
        intros Hk. apply Hother. unfold nameOf. by rewrite Hf, Hk.
    + change (grid w3) with (grid w). fold cards.
      assert (Hc3 : forall l, cardOf w3 l = cardOf w l).
      { intros l. unfold cardOf. change (obj w3 l) with (obj w l).
        change (renderedMap w3) with (base.delete key (renderedMap w)).
        by rewrite delete_id. }
      assert (HF : F = filtered w).
      { apply List_filter_all. intros l Hl. apply list_elem_of_In in Hl.
        apply negb_true_iff, bool_decide_eq_false. intros Hn.
        apply list_elem_of_lookup in Hl as [i Hi].
        destruct (Forall2_lookup_l _ _ _ _ _ Hcards Hi) as (c & _ & Hc).
        apply cardOf_named in Hc as (f & e' & Hf & He' & _).
        unfold nameOf in Hn. rewrite Hf in Hn. injection Hn as Hn.
        rewrite Hn, He in He'. done. }
      rewrite HF. eapply Forall2_impl; [exact Hcards |].
      intros l c Hlc. by rewrite Hc3.
  - destruct (renderedMap w !! key); [by apply dom_remove_NoDup | done].
  - intros k Hk. apply elem_of_dom in Hk as [e Hk].
    apply lookup_delete_Some in Hk as [Hne Hk].
    assert (Hin : k ∈ names w (filtered w)) by eauto using entry_named.
    apply elem_of_list_to_set.
    apply list_elem_of_omap in Hin as (l & Hl & Hn).
    apply list_elem_of_omap. exists l. split; [| done].
    apply list_elem_of_In, filter_In. split; [by apply list_elem_of_In |].
    apply negb_true_iff, bool_decide_eq_false. rewrite Hn. by intros [= ->].
Qed.


Lemma synced_spec w :
  synced w = true <->
  filtered w = List.filter (App.matchesRef (toLowerCase (search w)) w) (fonts w)
  /\ shown w = true.
Proof. unfold synced. by rewrite andb_true_iff, bool_decide_eq_true. Qed.

Lemma dom_remove_idem n g : dom_remove n (dom_remove n g) = dom_remove n g.
Proof. apply dom_remove_absent, dom_remove_not_in. Qed.

(** In a synced world the callback of [deleteSingleFont] comes to this: the
    three blocks, then the placeholder if nothing is left to show. *)
Lemma deleteSingleFont_synced key w :
  synced w = true ->
  let w3 :=
    App.removeCard key
      (App.releaseUrl key (App.forgetFont key (DB.delete key true w))) in
  shown w3 = true
  /\ App.deleteSingleFont key true true w =
     toast MsgDeleted false
       (set_grid (match filtered w3 with
                  | [] => [NEmpty]
                  | _ :: _ => dom_remove NEmpty (grid w3)
                  end) w3).
Proof.
  intros [Hsync Hshown]%synced_spec w3.
  assert (Hs3 : shown w3 = true) by (by apply dropped_shown).
  split; [done |].
  assert (HF : List.filter (App.matchesRef (toLowerCase (search w3)) w3) (fonts w3)
               = filtered w3).
  { subst w3. rewrite dropped_eq.
    change (List.filter (App.matchesRef (toLowerCase (search w)) w)
              (List.filter (otherName w key) (fonts w))
            = List.filter (otherName w key) (filtered w)).
    by rewrite List_filter_comm, <- Hsync. }
  unfold App.deleteSingleFont. cbn [negb]. cbn zeta. fold w3.
  rewrite <- (render_shown w3 Hs3). unfold App.filter.
  by rewrite HF, set_filtered_id.
Qed.

(** C5, as the code has it.  In a world whose view is in step with the
    registry and shown by the grid, a confirmed [deleteSingleFont] whose
    store request succeeds takes the records of that key, and only them, out
    of the registry and out of the filtered view, in place; it leaves every
    record object as it was, revokes the object URL of the key and takes it
    out of the URL map, takes the entry of the key out of the rendered map
    and its card out of the grid, and leaves every other entry and the order
    of the other cards as they were.  The view is again in step. *)
Theorem deleteSingleFont_frame key w :
  synced w = true ->
  let w' := App.deleteSingleFont key true true w in
  fonts w' = List.filter (otherName w key) (fonts w)
  /\ filtered w' = List.filter (otherName w key) (filtered w)
  /\ heap w' = heap w
  /\ store w' = store_delete key (store w)
  /\ objectUrls w' = base.delete key (objectUrls w)
  /\ (forall id, objectUrls w !! key = Some (UObj id) -> id ∉ live_urls w')
  /\ renderedMap w' = base.delete key (renderedMap w)
  /\ dom_remove NEmpty (grid w') =
     match renderedMap w !! key with
     | Some e => dom_remove (NCard (card e)) (dom_remove NEmpty (grid w))
     | None => dom_remove NEmpty (grid w)
     end
  /\ (forall e, renderedMap w !! key = Some e -> NCard (card e) ∉ grid w')
  /\ synced w' = true.
Proof.
  intros Hs w'. pose proof Hs as [Hsync Hshown]%synced_spec.
  destruct (deleteSingleFont_synced key w Hs) as [Hs3 Heq].
  subst w'. rewrite Heq. clear Heq.
  set (w3 := App.removeCard key
               (App.releaseUrl key (App.forgetFont key (DB.delete key true w)))) in *.
  assert (H3 : w3 = _) by (subst w3; apply dropped_eq).
  cbn in H3. set (w3e := set_renderedMap _ _) in H3.
  assert (Hgrid : dom_remove NEmpty
            (match filtered w3 with
             | [] => [NEmpty]
             | _ :: _ => dom_remove NEmpty (grid w3)
             end) = dom_remove NEmpty (grid w3)).
  { apply shown_spec in Hs3 as (_ & Hc & _ & _).
    destruct (filtered w3); [| apply dom_remove_idem].
    simpl in Hc. by injection Hc as <-. }
  assert (Hg3 : grid w3 = match renderedMap w !! key with
                          | Some e => dom_remove (NCard (card e)) (grid w)
                          | None => grid w
                          end) by (by rewrite H3).
  repeat split.
  - by rewrite H3.
  - by rewrite H3.
  - by rewrite H3.
  - by rewrite H3.
  - by rewrite H3.
  - intros id Hid. rewrite H3. cbn. rewrite Hid.
    apply not_elem_of_difference. right. by apply elem_of_singleton.
  - by rewrite H3.
  - change (grid (toast _ _ (set_grid ?g _))) with g. rewrite Hgrid, Hg3.
    destruct (renderedMap w !! key); [apply dom_remove_comm | done].
  - intros e He. change (grid (toast _ _ (set_grid ?g _))) with g.
    intros Hin.
    assert (Hin' : NCard (card e) ∈ dom_remove NEmpty (grid w3)).
    { rewrite <- Hgrid. unfold dom_remove at 1.
      rewrite List_filter_stdpp, list_elem_of_filter. split; [| done].
      by apply negb_true_iff, bool_decide_eq_false. }
    rewrite Hg3, He, dom_remove_comm in Hin'. by apply dom_remove_not_in in Hin'.
  - apply synced_spec. split.
    + change (filtered (toast _ _ (set_grid _ ?x))) with (filtered x).
      change (fonts (toast _ _ (set_grid _ ?x))) with (fonts x).
      change (search (toast _ _ (set_grid _ ?x))) with (search x).
      change (App.matchesRef ?q (toast _ _ (set_grid _ ?x))) with (App.matchesRef q x).
      rewrite H3.
      change (List.filter (otherName w key) (filtered w)
              = List.filter (App.matchesRef (toLowerCase (search w)) w)
                  (List.filter (otherName w key) (fonts w))).
      by rewrite List_filter_comm, <- Hsync.
    + apply shown_spec in Hs3 as (Hn & Hc & Hnd & Hd).
      apply shown_spec. repeat split; try done.
      * change (grid (toast _ _ (set_grid ?g _))) with g. by rewrite Hgrid.
      * change (grid (toast _ _ (set_grid ?g _))) with g.
        destruct (filtered w3); [| by apply dom_remove_NoDup].
        apply NoDup_singleton.
Qed.

End RenderedViewFacts.

(* ===================================================================== *)
(** * 15. Scenarios *)
(* ===================================================================== *)

Section Scenarios.
#[local] Existing Instance ascii_platform.

Lemma uploaded_reachable files w : App.reachable w -> App.reachable (uploaded files w).
Proof.
  intros Hw. unfold uploaded.
  assert (H1 : App.reachable (App.handleUpload EstMissing (fun _ => true) files w).1).
  { apply App.reachable_step with w; [done | apply App.step_upload]. }
  destruct (App.handleUpload _ _ files w).2; [| done].
  eapply App.reachable_step; [exact H1 | apply App.step_uploadDone].
Qed.

Lemma library2_reachable : App.reachable library2.
Proof. apply uploaded_reachable, App.reachable_initial. Qed.

Lemma searched_reachable : App.reachable searched.
Proof.
  unfold searched.
  eapply App.reachable_step; [| apply App.step_search].
  eapply App.reachable_step; [| apply App.step_updateTag].
  apply library2_reachable.
Qed.


Lemma crowded_reachable : App.reachable crowded.
Proof.
  unfold crowded, full499.
  eapply App.reachable_step; [| apply App.step_upload].
  apply uploaded_reachable.
  eapply App.reachable_step; [| apply App.step_search].
  apply App.reachable_initial.
Qed.

(** C2, at a failing [put].  [bar.ttf] has an empty tag in the registry and
    in the store; [updateTag] with the tag "x" and a store that refuses the
    request leaves the record object, which the registry and the filtered
    view share, with the tag "x", leaves the store with the empty tag, and
    shows no toast: the only event is the refused request. *)
Theorem updateTag_keeps_tag_on_failed_put :
  let w := library2 in
  let w' := App.updateTag (str "bar.ttf") (str "x") false w in
  (userTag <$> obj w 0) = Some (Some [])
  /\ (userTag <$> obj w' 0) = Some (Some (str "x"))
  /\ In 0 (fonts w') /\ In 0 (filtered w')
  /\ (userTag <$> store_get (str "bar.ttf") (store w')) = Some (Some [])
  /\ (exists r, emitted w w' = [EPut r false]).
Proof.
  vm_compute. repeat split; try tauto. by eexists.
Qed.


(** C5, counterexample.  [bar.ttf] and [foo.ttf] are both shown, in this
    order; deleting [foo.ttf] also takes [bar.ttf] out of the filtered view
    and its card out of the grid. *)
Lemma delete_drops_stale_neighbour :
  let w := staleView in
  let w' := App.deleteSingleFont (str "foo.ttf") true true w in
  filtered w = [0; 1]
  /\ nameOf w 0 = Some (str "bar.ttf")
  /\ renderedMap w !! str "bar.ttf" = Some {| card := 1; preview := 2 |}
  /\ grid w = [NCard 1; NCard 4]
  /\ fonts w' = [0]
  /\ filtered w' = []
  /\ renderedMap w' !! str "bar.ttf" = None
  /\ grid w' = [NEmpty].
Proof. by vm_compute. Qed.

(** ** Witnesses *)

Lemma bad_signature_never_persisted_witness :
  let files := [fontFile (str "a.ttf"); textFile (str "b.ttf")] in
  let f := textFile (str "b.ttf") in
  In f files
  /\ (forall magic, Security.getUint32 (fbytes f) 0 = inr magic -> magic ∉ MAGIC)
  /\ exists stored,
       putsOf (emitted initial
                 (App.handleUpload EstMissing (fun _ => true) files initial).1) =
         List.map (fun g => App.recordOf g (App.existingTag (name g) initial)) stored
       /\ (forall g, In g stored -> In g files)
       /\ ~ In f stored.
Proof.
  cbv zeta.
  assert (Hin : In (textFile (str "b.ttf"))
                  [fontFile (str "a.ttf"); textFile (str "b.ttf")])
    by (right; left; reflexivity).
  assert (Hbad : forall magic,
             Security.getUint32 (fbytes (textFile (str "b.ttf"))) 0 = inr magic ->
             magic ∉ MAGIC).
  { intros magic [= <-]. apply (bool_decide_unpack _). vm_compute. exact I. }
  split; [exact Hin |]. split; [exact Hbad |].
  exact (proj1 (bad_signature_never_persisted EstMissing (fun _ => true) _
                  initial _ Hin Hbad)).
Defined.


Lemma deleteSingleFont_frame_witness :
  let w' := App.deleteSingleFont (str "foo.ttf") true true searched in
  synced searched = true
  /\ filtered w' = List.filter (otherName searched (str "foo.ttf")) (filtered searched)
  /\ renderedMap w' = base.delete (str "foo.ttf") (renderedMap searched)
  /\ synced w' = true.
Proof.
  cbv zeta.
  assert (Hs : synced searched = true) by (vm_compute; reflexivity).
  split; [exact Hs |].
  destruct (deleteSingleFont_frame (str "foo.ttf") searched Hs)
    as (_ & Hf & _ & _ & _ & _ & Hr & _ & _ & Hs').
  split; [exact Hf |]. split; [exact Hr | exact Hs'].
Defined.

Lemma updateTag_sanitizes_and_persists_witness :
  let font :=
    {| fileName := str "bar.ttf";
       data := DBlob (App.blobOf (fontFile (str "bar.ttf")));
       userTag := Some [] |} in
  let w' := App.updateTag (str "bar.ttf") (str "  serif  ") true library2 in
  Security.sanitizeTag (str "  serif  ") = str "serif"
  /\ Security.sanitizeTag [0x20; 0x61; 0x07; 0x202E; 0x62; 0x9F; 0x09]%N
     = [0x61; 0x62]%N
  /\ Security.sanitizeTag (repeat 0x61%N 45) = repeat 0x61%N 40
  /\ App.findFont (str "bar.ttf") library2 = Some 0
  /\ obj library2 0 = Some font
  /\ obj w' 0 = Some (withTag font (str "serif"))
  /\ emitted library2 w' = [EPut (withTag font (str "serif")) true]
  /\ store_get (fileName font) (store w') = Some (withTag font (str "serif")).
Proof.
  cbv zeta.
  assert (Ht : Security.sanitizeTag (str "  serif  ") = str "serif")
    by (vm_compute; reflexivity).
  assert (Hf : App.findFont (str "bar.ttf") library2 = Some 0)
    by (vm_compute; reflexivity).
  assert (Ho : obj library2 0 =
               Some {| fileName := str "bar.ttf";
                       data := DBlob (App.blobOf (fontFile (str "bar.ttf")));
                       userTag := Some [] |})
    by (vm_compute; reflexivity).
  split; [exact Ht |].
  split; [vm_compute; reflexivity |].
  split; [vm_compute; reflexivity |].
  split; [exact Hf |]. split; [exact Ho |].
  destruct (updateTag_sanitizes_and_persists (str "  serif  "))
    as (_ & _ & _ & _ & Hu & _).
  destruct (Hu (str "bar.ttf") true library2 0 _ Hf Ho) as (H1 & H2 & H3).
  rewrite Ht in H1, H2, H3.
  split; [exact H1 |]. split; [exact H2 | exact (H3 eq_refl)].
Defined.

Lemma busy_calls_are_ignored_witness :
  isProcessing crowded = true
  /\ (forall est put_ok files,
        App.handleUpload est put_ok files crowded = (crowded, None))
  /\ (forall confirmed clear_ok getAll_ok,
        App.clearAll confirmed clear_ok getAll_ok crowded = crowded).
Proof.
  assert (Hb : isProcessing crowded = true) by (vm_compute; reflexivity).
  split; [exact Hb | exact (busy_calls_are_ignored crowded Hb)].
Defined.

Lemma one_rule_per_font_identifier_witness :
  App.reachable library2
  /\ NoDup (rule_family <$> sheet library2)
  /\ (forall r, r ∈ sheet library2 -> rule_family r ∈ loadedFonts library2).
Proof.
  split; [exact library2_reachable |].
  exact (proj1 one_rule_per_font_identifier library2 library2_reachable).
Defined.

Lemma checkSignature_total_witness :
  let file := shortFile (str "tiny.ttf") in
  length (fbytes file) < 4
  /\ Security.checkSignature file = Security.Resolved false
  /\ exists stored,
       putsOf (emitted initial
                 (App.handleUpload EstMissing (fun _ => true) [file] initial).1) =
         List.map (fun g => App.recordOf g (App.existingTag (name g) initial)) stored
       /\ (forall g, In g stored -> In g [file])
       /\ ~ In file stored.
Proof.
  cbv zeta.
  assert (Hlen : length (fbytes (shortFile (str "tiny.ttf"))) < 4)
    by (vm_compute; lia).
  destruct checkSignature_total as (_ & Hshort & _ & Hstored).
  split; [exact Hlen |]. split; [exact (Hshort _ Hlen) |].
  exact (Hstored EstMissing (fun _ => true) _ initial _ (or_introl Hlen)).
Defined.

End Scenarios.

(* ===================================================================== *)
(** * 16. Font identifiers and signatures *)
(* ===================================================================== *)

Lemma b64char_unit i : isIdUnit (b64char i) = true /\ b64char i <> 61%N.
Proof.
  unfold b64char, isIdUnit, isAlnum.
  destruct (i <? 26)%N eqn:H1; [apply N.ltb_lt in H1 |].
  { split; [| lia].
    replace ((65 <=? 65 + i) && (65 + i <=? 90))%N with true; [by rewrite orb_true_r |].
    symmetry. apply andb_true_iff. split; apply N.leb_le; lia. }
  apply N.ltb_ge in H1.
  destruct (i <? 52)%N eqn:H2; [apply N.ltb_lt in H2 |].
  { split; [| lia].
    replace ((97 <=? 97 + (i - 26)) && (97 + (i - 26) <=? 122))%N with true; [done |].
    symmetry. apply andb_true_iff. split; apply N.leb_le; lia. }
  apply N.ltb_ge in H2.
  destruct (i <? 62)%N eqn:H3; [apply N.ltb_lt in H3 |].
  { split; [| lia].
    replace ((48 <=? 48 + (i - 52)) && (48 + (i - 52) <=? 57))%N with true;
      [by rewrite !orb_true_r |].
    symmetry. apply andb_true_iff. split; apply N.leb_le; lia. }
  destruct (i =? 62)%N; by split.
Qed.

(** [btoa] writes alphabet characters and, at the end, padding. *)
Lemma btoa_units bs :
  Forall (fun c => c = 61%N \/ isIdUnit c = true) (btoa bs).
Proof.
  assert (Hn : forall n bs, length bs <= n ->
            Forall (fun c => c = 61%N \/ isIdUnit c = true) (btoa bs)).
  { clear bs. induction n as [|n IH]; intros bs Hlen.
    - destruct bs; [constructor | simpl in Hlen; lia].
    - destruct bs as [|a [|b [|c rest]]]; simpl.
      + constructor.
      + repeat (apply List.Forall_cons;
                [first [left; reflexivity | right; apply b64char_unit] |]).
        constructor.
      + repeat (apply List.Forall_cons;
                [first [left; reflexivity | right; apply b64char_unit] |]).
        constructor.
      + repeat (apply List.Forall_cons; [right; apply b64char_unit |]).
        apply IH. simpl in Hlen. lia. }
  by apply (Hn (length bs)).
Qed.

Lemma Forall_take_list {A} (P : A -> Prop) n l : Forall P l -> Forall P (take n l).
Proof. apply Forall_take. Qed.

Lemma safeFontId_idUnits key d :
  (exists rest, Security.safeFontId key d = str "f_" ++ rest)
  /\ length (Security.safeFontId key d) <= 31
  /\ Forall (fun c => isIdUnit c = true) (Security.safeFontId key d).
Proof.
  unfold Security.safeFontId.
  set (safeStr := List.map _ key). set (hash := take 8 _).
  split; [by eexists |]. split.
  - subst hash. rewrite !length_app, !length_take.
    change (length (str "f_")) with 2. change (length (str "_")) with 1. lia.
  - apply Forall_app. split; [by repeat constructor |].
    apply Forall_app. split; [| apply Forall_app; split; [by repeat constructor |]].
    + apply Forall_take. subst safeStr. apply List.Forall_map.
      apply List.Forall_forall. intros c _. unfold isIdUnit.
      destruct (isAlnum c) eqn:Hc; [by rewrite Hc | done].
    + subst hash. apply Forall_take.
      apply List.Forall_forall. intros c Hc. apply filter_In in Hc as [Hin Hne].
      pose proof (btoa_units (utf8 (key ++ str "_" ++
        decimal match d with DBlob b => blob_size b | _ => 0%N end ++ str "_" ++
        match d with
        | DBlob b => if truthy (blob_type b) then blob_type b else str "na"
        | _ => str "na"
        end))) as Hall.
      rewrite List.Forall_forall in Hall. destruct (Hall c Hin) as [-> | Hok]; done.
Qed.

Lemma isIdUnit_spec c :
  isIdUnit c = true <->
  (48 <= c <= 57 \/ 65 <= c <= 90 \/ 97 <= c <= 122 \/ c = 95 \/ c = 43
   \/ c = 47)%N.
Proof.
  unfold isIdUnit, isAlnum.
  repeat rewrite ?orb_true_iff, ?andb_true_iff, ?N.leb_le, ?N.eqb_eq.
  tauto.
Qed.

(** X1.  A font identifier starts with [f_], has at most 31 code units, and
    is made of ASCII digits, ASCII letters, [_], [+] and [/] only, whatever
    the file name and the payload: it cannot close the quoted family name of
    its rule. *)
Theorem safeFontId_units key d :
  (exists rest, Security.safeFontId key d = str "f_" ++ rest)
  /\ length (Security.safeFontId key d) <= 31
  /\ Forall (fun c => (48 <= c <= 57 \/ 65 <= c <= 90 \/ 97 <= c <= 122
                       \/ c = 95 \/ c = 43 \/ c = 47)%N)
       (Security.safeFontId key d).
Proof.
  destruct (safeFontId_idUnits key d) as (H1 & H2 & H3).
  split; [exact H1 |]. split; [exact H2 |].
  apply List.Forall_forall. intros c Hc. rewrite List.Forall_forall in H3.
  by apply isIdUnit_spec, H3.
Qed.





Lemma lor_shiftl_add a b n : (b < 2 ^ n)%N -> N.lor (N.shiftl a n) b = (a * 2 ^ n + b)%N.
Proof.
  intros Hb.
  assert (Hland : N.land (N.shiftl a n) b = 0%N).
  { apply N.bits_inj. intros i. rewrite N.land_spec, N.bits_0.
    destruct (N.lt_ge_cases i n) as [Hi | Hi].
    - by rewrite N.shiftl_spec_low.
    - destruct (N.eq_dec b 0%N) as [-> | Hb0]; [by rewrite N.bits_0, andb_false_r |].
      rewrite (N.bits_above_log2 b i), andb_false_r; [done |].
      apply N.log2_lt_pow2; [lia |].
      eapply N.lt_le_trans; [exact Hb |]. by apply N.pow_le_mono_r. }
  rewrite <- N.lxor_lor by done. rewrite <- N.add_nocarry_lxor by done.
  by rewrite N.shiftl_mul_pow2.
Qed.

(** The big-endian value of four bytes. *)
Lemma getUint32_bytes b0 b1 b2 b3 rest :
  (b1 < 256)%N -> (b2 < 256)%N -> (b3 < 256)%N ->
  Security.getUint32 (b0 :: b1 :: b2 :: b3 :: rest) 0 =
  inr (b0 * 16777216 + b1 * 65536 + b2 * 256 + b3)%N.
Proof.
  intros H1 H2 H3. unfold Security.getUint32. simpl drop. f_equal.
  rewrite (lor_shiftl_add b2 b3 8) by (simpl; lia).
  rewrite (lor_shiftl_add b1 _ 16) by (simpl; lia).
  rewrite (lor_shiftl_add b0 _ 24) by (simpl; lia).
  simpl. lia.
Qed.

(** X3.  On a file of bytes, [checkSignature] resolves to [true] exactly when
    the slice can be read and the file starts with one of the four byte
    sequences 00 01 00 00, "OTTO", "wOFF", "wOF2". *)
Theorem checkSignature_accepts file :
  Forall (fun b => (b < 256)%N) (fbytes file) ->
  Security.checkSignature file = Security.Resolved true <->
  slice_readable file = true
  /\ exists sig rest, fbytes file = sig ++ rest /\ In sig SIGNATURES.
Proof.
  intros Hbytes. rewrite checkSignature_eq.
  destruct (fbytes file) as [|b0 [|b1 [|b2 [|b3 rest]]]] eqn:Hf.
  1-4: rewrite getUint32_short by (simpl; lia); rewrite andb_false_r;
       split; [done |]; intros (_ & sig & r & Heq & Hin);
       simpl in Hin; destruct Hin as [<- | [<- | [<- | [<- | []]]]]; done.
  apply Forall_cons in Hbytes as [H0 Hbytes].
  apply Forall_cons in Hbytes as [H1 Hbytes].
  apply Forall_cons in Hbytes as [H2 Hbytes].
  apply Forall_cons in Hbytes as [H3 _].
  rewrite getUint32_bytes by done.
  split.
  - intros [= Hv]. apply andb_true_iff in Hv as [Hr Hm]. split; [done |].
    apply bool_decide_eq_true in Hm. unfold MAGIC in Hm.
    repeat (apply elem_of_cons in Hm as [Hm | Hm]);
      [| | | | by apply elem_of_nil in Hm].
    + exists [0; 1; 0; 0]%N, rest. split; [| simpl; tauto].
      simpl. repeat f_equal; lia.
    + exists [0x4F; 0x54; 0x54; 0x4F]%N, rest. split; [| simpl; tauto].
      simpl. repeat f_equal; lia.
    + exists [0x77; 0x4F; 0x46; 0x46]%N, rest. split; [| simpl; tauto].
      simpl. repeat f_equal; lia.
    + exists [0x77; 0x4F; 0x46; 0x32]%N, rest. split; [| simpl; tauto].
      simpl. repeat f_equal; lia.
  - intros (-> & sig & r & Heq & Hin). simpl in Hin.
    destruct Hin as [<- | [<- | [<- | [<- | []]]]];
      injection Heq as -> -> -> -> _; by vm_compute.
Qed.

(* ===================================================================== *)
(** * 17. More on the upload pipeline *)
(* ===================================================================== *)

Lemma okPuts_app a b : okPuts (a ++ b) = okPuts a ++ okPuts b.
Proof. apply omap_app. Qed.

Section UploadMore.
Context `{Platform}.

Lemma storedAs_trans w w1 w2 a b :
  storedAs w w1 a -> storedAs w1 w2 b -> storedAs w w2 (a ++ b).
Proof.
  unfold storedAs. intros -> ->. unfold set_store, set_trace; simpl.
  rewrite app_assoc, okPuts_app. unfold storeAfter. by rewrite fold_left_app.
Qed.

Lemma storedAs_existingTag key w w' evs :
  storedAs w w' evs -> App.existingTag key w' = App.existingTag key w.
Proof. by intros ->. Qed.

Lemma uploadOne_detail put_ok total w n i f :
  exists evs,
    storedAs w (App.uploadOne put_ok total (w, n) (i, f)).1 evs
    /\ (App.uploadOne put_ok total (w, n) (i, f)).2 = n + length (okPuts evs)
    /\ okPuts evs =
       (if App.persistable f && put_ok i
        then [App.recordOf f (App.existingTag (name f) w)] else []).
Proof.
  unfold App.uploadOne, App.persistable, storedAs.
  destruct (MAX_FILE_SIZE <? size f)%N eqn:Hsz.
  { exists [EToast (MsgTooBig (name f)) true; EProgress (i + 1) total true].
    simpl. repeat split; [| lia].
    destruct w; unfold updateProgress, toast, set_trace, set_store; simpl.
    by rewrite <- app_assoc. }
  destruct (Security.checkSignature f) as [[|]|] eqn:Hsig; simpl.
  - destruct (readable f); [destruct (put_ok i) |]; simpl.
    + exists [EPut (App.recordOf f (App.existingTag (name f) w)) true;
              EProgress (i + 1) total true].
      simpl. repeat split; [| lia].
      destruct w; unfold updateProgress, DB.put, set_trace, set_store; simpl.
      by rewrite <- app_assoc.
    + exists [EPut (App.recordOf f (App.existingTag (name f) w)) false;
              EToast (MsgReadFailed (name f)) true;
              EProgress (i + 1) total true].
      simpl. repeat split; [| lia].
      destruct w; unfold updateProgress, toast, DB.put, set_trace, set_store; simpl.
      by rewrite <- !app_assoc.
    + exists [EToast (MsgReadFailed (name f)) true; EProgress (i + 1) total true].
      simpl. repeat split; [| lia].
      destruct w; unfold updateProgress, toast, set_trace, set_store; simpl.
      by rewrite <- app_assoc.
  - exists [EToast (MsgBadFont (name f)) true; EProgress (i + 1) total true].
    simpl. repeat split; [| lia].
    destruct w; unfold updateProgress, toast, set_trace, set_store; simpl.
    by rewrite <- app_assoc.
  - exists [EToast (MsgReadFailed (name f)) true; EProgress (i + 1) total true].
    simpl. repeat split; [| lia].
    destruct w; unfold updateProgress, toast, set_trace, set_store; simpl.
    by rewrite <- app_assoc.
Qed.

Lemma uploadFold_detail put_ok total files : forall w n i0,
  exists evs,
    storedAs w
      (fold_left (App.uploadOne put_ok total)
         (combine (seq i0 (length files)) files) (w, n)).1 evs
    /\ (fold_left (App.uploadOne put_ok total)
         (combine (seq i0 (length files)) files) (w, n)).2
       = n + length (okPuts evs)
    /\ okPuts evs =
       List.map (fun g => App.recordOf g (App.existingTag (name g) w))
         (written put_ok i0 files).
Proof.
  induction files as [|f files IH]; intros w n i0.
  - exists []. simpl. repeat split; [| lia].
    unfold storedAs. destruct w; unfold set_trace, set_store; simpl.
    by rewrite app_nil_r.
  - cbn [length seq combine fold_left].
    destruct (uploadOne_detail put_ok total w n i0 f) as (e1 & Hs1 & Hn1 & Hp1).
    destruct (App.uploadOne put_ok total (w, n) (i0, f)) as [w1 n1] eqn:Hone.
    simpl in Hs1, Hn1.
    destruct (IH w1 n1 (S i0)) as (e2 & Hs2 & Hn2 & Hp2).
    exists (e1 ++ e2). split; [exact (storedAs_trans _ _ _ _ _ Hs1 Hs2) |].
    rewrite okPuts_app, length_app. split; [lia |].
    rewrite Hp1, Hp2.
    rewrite (map_ext _ (fun g => App.recordOf g (App.existingTag (name g) w)))
      by (intros g; by rewrite (storedAs_existingTag _ _ _ _ Hs1)).
    unfold written. cbn [length seq combine List.filter]. simpl snd. simpl fst.
    by destruct (App.persistable f && put_ok i0).
Qed.

Lemma written_sublist put_ok i0 files : sublist (written put_ok i0 files) files.
Proof.
  unfold written. revert i0. induction files as [|f files IH]; intros i0; [constructor |].
  cbn [length seq combine List.filter].
  destruct (App.persistable (i0, f).2 && put_ok (i0, f).1); simpl;
    constructor; apply IH.
Qed.

Lemma written_persistable put_ok i0 files g :
  In g (written put_ok i0 files) -> In g files /\ App.persistable g = true.
Proof.
  unfold written. intros Hg. apply list_elem_of_In, list_elem_of_fmap in Hg as ([i g'] & -> & Hin).
  apply list_elem_of_In, filter_In in Hin as [Hin Hp]. simpl in *.
  apply andb_true_iff in Hp as [Hp _]. split; [| done].
  by apply in_combine_r in Hin.
Qed.

Lemma persistable_spec g :
  App.persistable g = true <->
  (size g <= MAX_FILE_SIZE)%N
  /\ Security.checkSignature g = Security.Resolved true
  /\ readable g = true.
Proof.
  unfold App.persistable. rewrite andb_true_iff, negb_true_iff, N.ltb_ge.
  destruct (Security.checkSignature g) as [[|]|]; split;
    try (by intros [? ?]); try (by intros (? & ? & ?)).
Qed.

Lemma handleUpload_detail est put_ok files w :
  let r := App.handleUpload est put_ok files w in
  exists stored,
    okPuts (emitted w r.1) =
      List.map (fun g => App.recordOf g (App.existingTag (name g) w)) stored
    /\ sublist stored files
    /\ (forall g, In g stored ->
          App.hasValidExtension g = true
          /\ (size g <= MAX_FILE_SIZE)%N
          /\ Security.checkSignature g = Security.Resolved true
          /\ readable g = true)
    /\ (forall n, r.2 = Some n -> n = length stored)
    /\ store r.1 = storeAfter (okPuts (emitted w r.1)) (store w)
    /\ fonts r.1 = fonts w /\ filtered r.1 = filtered w /\ heap r.1 = heap w
    /\ grid r.1 = grid w /\ renderedMap r.1 = renderedMap w
    /\ sheet r.1 = sheet w /\ objectUrls r.1 = objectUrls w.
Proof.
  intros r. subst r. unfold App.handleUpload.
  destruct (isProcessing w) eqn:Hbusy.
  { exists []. unfold emitted. simpl. rewrite drop_all. simpl.
    repeat split; try done; first [apply sublist_nil_l | by intros ? []]. }
  destruct (length (App.validFiles files) =? 0) eqn:Hnone.
  { exists []. rewrite (emitted_app _ _ [EToast MsgUnsupported true]) by done.
    simpl. repeat split; try done; first [apply sublist_nil_l | by intros ? []]. }
  destruct (MAX_FONTS <? _) eqn:Hcap.
  { exists []. rewrite (emitted_app _ _ [EToast MsgLimit true]) by done.
    simpl. repeat split; try done; first [apply sublist_nil_l | by intros ? []]. }
  match goal with |- context [if ?c then _ else _] => destruct c end.
  { exists []. rewrite (emitted_app _ _ [EToast MsgNoSpace true]) by done.
    simpl. repeat split; try done; first [apply sublist_nil_l | by intros ? []]. }
  unfold App.uploadLoop.
  set (w1 := updateProgress 0 1 true (set_isProcessing true w)).
  destruct (uploadFold_detail put_ok (length (App.validFiles files))
              (App.validFiles files) w1 0 0) as (evs & Hs & Hn & Hp).
  destruct (fold_left _ _ _) as [w2 n] eqn:Hfold. simpl in Hs, Hn. simpl.
  exists (written put_ok 0 (App.validFiles files)).
  assert (He : emitted w w2 = EProgress 0 1 true :: evs).
  { apply emitted_app. rewrite Hs. subst w1. destruct w; simpl.
    by rewrite <- app_assoc. }
  rewrite He. change (okPuts (EProgress 0 1 true :: evs)) with (okPuts evs).
  split; [rewrite Hp; apply map_ext; intros g; by destruct w |].
  split.
  { etransitivity; [apply written_sublist |]. apply sublist_List_filter. }
  split.
  { intros g Hg. apply written_persistable in Hg as [Hin Hp'].
    apply filter_In in Hin as [_ Hext]. apply persistable_spec in Hp'. tauto. }
  split.
  { intros n' [= <-]. rewrite Hn, Hp. by rewrite length_map. }
  rewrite Hs. subst w1. by destruct w.
Qed.


End UploadMore.

(* ===================================================================== *)
(** * 18. The list renderer *)
(* ===================================================================== *)

Lemma dom_remove_app n g1 g2 :
  dom_remove n (g1 ++ g2) = dom_remove n g1 ++ dom_remove n g2.
Proof. apply List.filter_app. Qed.

Lemma dom_remove_elem n m g : m ∈ dom_remove n g <-> m <> n /\ m ∈ g.
Proof.
  unfold dom_remove. rewrite List_filter_stdpp, list_elem_of_filter.
  by rewrite negb_true_iff, bool_decide_eq_false.
Qed.

Lemma insert_before_fresh c ref pre post :
  ref ∉ pre -> insert_before c ref (pre ++ ref :: post) = pre ++ c :: ref :: post.
Proof.
  induction pre as [|x pre IH]; intros Hn; simpl.
  - by rewrite bool_decide_eq_true_2.
  - apply not_elem_of_cons in Hn as [Hx Hn].
    rewrite bool_decide_eq_false_2 by done. by rewrite IH.
Qed.

(** The three branches of [place] come to one list operation. *)
Lemma place_placed `{Platform} i c w :
  NoDup (grid w) -> i <= length (grid w) -> c ∉ take i (grid w) ->
  App.place i c w = set_grid (placed i c (grid w)) w.
Proof.
  intros Hnd Hlen Hc. unfold App.place, placed.
  set (g := grid w) in *.
  assert (Hg : g = take i g ++ drop i g) by (by rewrite take_drop).
  destruct (bool_decide (g !! i = Some c)) eqn:Hat.
  - apply bool_decide_eq_true in Hat.
    assert (Hd : drop i g = c :: drop (S i) g) by (by apply drop_S).
    rewrite Hd. simpl. rewrite bool_decide_eq_true_2 by done. simpl.
    fold (dom_remove c (drop (S i) g)).
    rewrite dom_remove_absent.
    + rewrite <- Hd, take_drop. subst g. by destruct w.
    + rewrite Hg, Hd in Hnd. apply NoDup_app in Hnd as (_ & _ & Hnd).
      by apply NoDup_cons in Hnd as [Hnd _].
  - apply bool_decide_eq_false in Hat.
    destruct (length g <=? i) eqn:Hle.
    + apply Nat.leb_le in Hle. assert (i = length g) by lia. subst i.
      rewrite drop_all, firstn_all. simpl. unfold appendChild.
      rewrite firstn_all in Hc. by rewrite dom_remove_absent.
    + apply Nat.leb_gt in Hle.
      destruct (lookup_lt_is_Some_2 g i Hle) as [ref Href].
      rewrite Href.
      assert (Hd : drop i g = ref :: drop (S i) g) by (by apply drop_S).
      assert (Hrc : ref <> c) by (intros ->; by apply Hat).
      unfold insertBefore.
      rewrite Hg at 1. rewrite dom_remove_app, (dom_remove_absent c (take i g)) by done.
      rewrite Hd. simpl. rewrite bool_decide_eq_false_2 by done. simpl.
      fold (dom_remove c (drop (S i) g)).
      rewrite insert_before_fresh; [done |].
      rewrite Hg, Hd in Hnd. apply NoDup_app in Hnd as (_ & Hnd & _).
      intros Hin. apply (Hnd ref Hin). apply list_elem_of_here.
Qed.

Lemma placed_NoDup i c g :
  NoDup g -> c ∉ take i g -> NoDup (placed i c g).
Proof.
  intros Hnd Hc. unfold placed.
  rewrite <- (take_drop i g) in Hnd. apply NoDup_app in Hnd as (H1 & H2 & H3).
  apply NoDup_app. split; [done |]. split.
  - intros x Hx Hx'. apply elem_of_cons in Hx' as [-> | Hx']; [done |].
    apply dom_remove_elem in Hx' as [_ Hx']. by apply (H2 x).
  - apply NoDup_cons. split; [apply dom_remove_not_in | by apply dom_remove_NoDup].
Qed.

Lemma placed_elem i c g n : n ∈ placed i c g -> n = c \/ n ∈ g.
Proof.
  unfold placed. intros Hn. apply elem_of_app in Hn as [Hn | Hn].
  - right. by apply (subseteq_take i g).
  - apply elem_of_cons in Hn as [-> | Hn]; [by left |].
    apply dom_remove_elem in Hn as [_ Hn]. right. by apply (subseteq_drop i g).
Qed.

Lemma placed_take i c g :
  i <= length g -> take (S i) (placed i c g) = take i g ++ [c].
Proof.
  intros Hlen. unfold placed.
  replace (S i) with (i + 1) by lia.
  by rewrite take_app_add' by (by rewrite length_take_le).
Qed.

Lemma placed_length i c g : i <= length g -> S i <= length (placed i c g).
Proof. intros Hlen. unfold placed. rewrite length_app, length_take. simpl. lia. Qed.

Section Renderer.
Context `{Platform}.

Lemma injectFontFace_blob key b w :
  urlsTruthy w ->
  exists id w1,
    App.injectFontFace key (DBlob b) w = (Some id, w1)
    /\ heap w1 = heap w /\ grid w1 = grid w /\ renderedMap w1 = renderedMap w
    /\ next_id w <= next_id w1
    /\ urlsTruthy w1.
Proof.
  intros Hu. unfold App.injectFontFace.
  destruct (bool_decide _); [by eexists _, _ |].
  unfold App.getFontUrl. destruct (objectUrls w !! key) as [u|] eqn:Hk.
  - rewrite (Hu key u Hk). eexists _, _. split; [reflexivity |].
    unfold MasterStyle.insert. by destruct (insertRule_ok _).
  - simpl. eexists _, _. split; [reflexivity |].
    unfold MasterStyle.insert. destruct (insertRule_ok _); simpl.
    all: repeat split; try lia.
    all: intros k u Hku; simpl in Hku;
      apply lookup_insert_Some in Hku as [[_ <-] | [_ Hku]];
      [done | by apply (Hu k)].
Qed.

Lemma cardsOf_snoc w ls l cs c :
  cardsOf w ls = Some cs -> cardOf w l = Some c ->
  cardsOf w (ls ++ [l]) = Some (cs ++ [c]).
Proof.
  unfold cardsOf. rewrite !mapM_Some. intros H1 H2.
  apply Forall2_app; [done |]. by repeat constructor.
Qed.

(** The cards of some records do not change when the heap stays and the
    rendered map changes at another key only. *)
Lemma cardsOf_insert_other w w' ls cs k e :
  heap w' = heap w ->
  renderedMap w' = <[k := e]> (renderedMap w) ->
  (forall l, l ∈ ls -> nameOf w l <> Some k) ->
  cardsOf w ls = Some cs -> cardsOf w' ls = Some cs.
Proof.
  intros Hh Hr Hne. unfold cardsOf. rewrite !mapM_Some. intros Hc.
  apply Forall2_same_length_lookup. split; [by eapply Forall2_length |].
  intros i l c Hl Hci.
  pose proof (Forall2_lookup_lr _ _ _ _ _ _ Hc Hl Hci) as Hlc.
  apply cardOf_named in Hlc as (f & e' & Hf & He' & ->).
  unfold cardOf, obj. rewrite Hh. unfold obj in Hf. rewrite Hf. simpl.
  rewrite Hr, lookup_insert_ne, He'; [done |].
  intros Hkk. apply (Hne l); [by eapply list_elem_of_lookup_2 |].
  unfold nameOf, obj. by rewrite Hf, Hkk.
Qed.

Lemma cardsOf_frame w w' ls :
  heap w' = heap w -> renderedMap w' = renderedMap w ->
  cardsOf w' ls = cardsOf w ls.
Proof.
  intros Hh Hr. unfold cardsOf, cardOf, obj. by rewrite Hh, Hr.
Qed.

(** One turn of the loop of [render]. *)
Lemma renderOne_step hp V fl ks i l k f w :
  Forall2 (fun l k => nameOf w l = Some k) fl ks ->
  NoDup ks ->
  fl !! i = Some l -> hp !! l = Some f -> fileName f = k ->
  isBlobRecord f = true -> k ∈ V ->
  loopInv hp V fl i w ->
  loopInv hp V fl (S i) (App.renderOne w (i, l)).
Proof.
  intros Hks Hnd Hl Hf Hk Hblob HkV (Hh & Hg & Hn & Hlt & Hinj & Hdom & Hc & Hlen & Hu).
  assert (Hki : ks !! i = Some k).
  { destruct (Forall2_lookup_l _ _ _ _ _ Hks Hl) as (k' & Hk' & Hn').
    unfold nameOf, obj in Hn'. rewrite Hh, Hf in Hn'. simpl in Hn'.
    injection Hn' as Hn'. by rewrite <- Hk, Hn'. }
  (* the keys before position [i] are other keys *)
  assert (Hother : forall l', l' ∈ take i fl -> nameOf w l' <> Some k).
  { intros l' Hl' Hn'. apply elem_of_take in Hl' as (j & Hj & Hji).
    destruct (Forall2_lookup_l _ _ _ _ _ Hks Hj) as (k' & Hk' & Hn'').
    rewrite Hn' in Hn''. injection Hn'' as <-.
    pose proof (NoDup_lookup _ _ _ _ Hnd Hki Hk'). lia. }
  (* hence their cards are other cards than the card of [k] *)
  assert (Hfresh : forall e, renderedMap w !! k = Some e ->
            NCard (card e) ∉ take i (grid w)).
  { intros e He Hin. apply elem_of_take in Hin as (j & Hj & Hji).
    apply mapM_Some in Hc.
    assert (Hjl : is_Some (take i fl !! j)).
    { apply lookup_lt_is_Some. rewrite (Forall2_length _ _ _ Hc).
      rewrite length_take. apply lookup_lt_Some in Hj. lia. }
    destruct Hjl as [l' Hl'].
    assert (Hcj : take i (grid w) !! j = Some (NCard (card e)))
      by (by rewrite lookup_take_lt).
    pose proof (Forall2_lookup_lr _ _ _ _ _ _ Hc Hl' Hcj) as Hlc.
    apply cardOf_named in Hlc as (f' & e' & Hf' & He' & [= Hcard]).
    pose proof (Hinj _ _ _ _ He He' Hcard) as Hkk.
    apply (Hother l'); [by eapply list_elem_of_lookup_2 |].
    unfold nameOf. by rewrite Hf', Hkk. }
  assert (Hsnoc : take (S i) fl = take i fl ++ [l]) by (by apply take_S_r).
  unfold App.renderOne, obj. rewrite Hh, Hf, Hk.
  destruct (renderedMap w !! k) as [e|] eqn:He.
  - (* the entry is there *)
    rewrite place_placed by auto.
    unfold loopInv. unfold urlsTruthy in *. simpl_world.
    split; [done |]. split; [by apply placed_NoDup; auto |]. split.
    { intros n Hin. apply placed_elem in Hin as [-> | Hin]; [by exists k, e | auto]. }
    split; [done |]. split; [done |]. split; [done |]. split.
    { rewrite placed_take, Hsnoc by done.
      rewrite (cardsOf_frame w) by done.
      apply cardsOf_snoc; [done |].
      unfold cardOf, obj. rewrite Hh, Hf. simpl. by rewrite Hk, He. }
    split; [by apply placed_length | done].
  - (* a new entry *)
    destruct f as [fk fd ft]. simpl in Hk, Hblob. unfold isBlobRecord in Hblob.
    simpl in Hblob. destruct fd as [b | |]; try done. simpl data. simpl fileName.
    subst fk.
    destruct (injectFontFace_blob k b w Hu) as (id & w1 & -> & Hh1 & Hg1 & Hr1 & Hn1 & Hu1).
    set (e := {| card := next_id w1; preview := S (next_id w1) |}).
    set (w2 := set_renderedMap _ _).
    assert (Hcfresh : NCard (card e) ∉ grid w2).
    { change (grid w2) with (grid w1). rewrite Hg1. intros Hin.
      destruct (Hn _ Hin) as (k' & e' & He' & [= Hcard]).
      pose proof (Hlt _ _ He'). simpl in Hcard. lia. }
    assert (Hg2 : grid w2 = grid w) by done.
    rewrite place_placed.
    2:{ by rewrite Hg2. }
    2:{ by rewrite Hg2. }
    2:{ intros Hin. apply Hcfresh. by apply (subseteq_take i). }
    unfold loopInv. simpl.
    change (grid w2) with (grid w1). rewrite Hg1.
    change (heap w1 = hp /\
      NoDup (placed i (NCard (next_id w1)) (grid w)) /\
      (forall n, n ∈ placed i (NCard (next_id w1)) (grid w) ->
         exists k0 e0, <[k := e]> (renderedMap w1) !! k0 = Some e0 /\ n = NCard (card e0)) /\
      (forall k0 e0, <[k := e]> (renderedMap w1) !! k0 = Some e0 ->
         card e0 < S (S (next_id w1))) /\
      (forall k1 k2 e1 e2, <[k := e]> (renderedMap w1) !! k1 = Some e1 ->
         <[k := e]> (renderedMap w1) !! k2 = Some e2 -> card e1 = card e2 -> k1 = k2) /\
      dom (<[k := e]> (renderedMap w1)) ⊆ V /\
      cardsOf (set_grid (placed i (NCard (next_id w1)) (grid w)) w2) (take (S i) fl)
        = Some (take (S i) (placed i (NCard (next_id w1)) (grid w))) /\
      S i <= length (placed i (NCard (next_id w1)) (grid w)) /\
      urlsTruthy (set_grid (placed i (NCard (next_id w1)) (grid w)) w2)).
    rewrite Hr1.
    assert (Hnin : NCard (next_id w1) ∉ take i (grid w)).
    { intros Hin. apply Hcfresh. rewrite Hg2. by apply (subseteq_take i). }
    split; [congruence |]. split; [by apply placed_NoDup |]. split.
    { intros n Hin. apply placed_elem in Hin as [-> | Hin].
      - exists k, e. by rewrite lookup_insert_eq.
      - destruct (Hn _ Hin) as (k' & e' & He' & ->). exists k', e'.
        split; [| done]. rewrite lookup_insert_ne; [done |]. by intros <-; rewrite He in He'. }
    split.
    { intros k' e' He'. apply lookup_insert_Some in He' as [[_ <-] | [_ He']].
      - simpl. lia.
      - pose proof (Hlt _ _ He'). lia. }
    split.
    { intros k1 k2 e1 e2 H1 H2 Hcard.
      apply lookup_insert_Some in H1 as [[<- <-] | [Hk1 H1]];
        apply lookup_insert_Some in H2 as [[<- <-] | [Hk2 H2]]; try done.
      - pose proof (Hlt _ _ H2). simpl in Hcard. lia.
      - pose proof (Hlt _ _ H1). simpl in Hcard. lia.
      - by eapply Hinj. }
    split.
    { rewrite dom_insert. intros x Hx. apply elem_of_union in Hx as [Hx | Hx]; [| by apply Hdom].
      apply elem_of_singleton in Hx. by subst x. }
    split.
    { rewrite placed_take, Hsnoc by done.
      apply cardsOf_snoc.
      - apply (cardsOf_insert_other w _ _ _ k e); [by rewrite <- Hh1 | by simpl; rewrite Hr1 | done | done].
      - unfold cardOf, obj. simpl. rewrite Hh1, Hh, Hf. simpl.
        by rewrite Hr1, lookup_insert_eq. }
    split; [by apply placed_length | done].
Qed.

Lemma keyed_names w ls ks : keyed (heap w) ls ks -> names w ls = ks.
Proof.
  unfold keyed, names. induction 1 as [|l k ls ks (f & Hf & Hk & _) _ IH]; [done |].
  change (omap (nameOf w) (l :: ls)) with
    (match nameOf w l with
     | Some y => y :: omap (nameOf w) ls
     | None => omap (nameOf w) ls
     end).
  rewrite IH. unfold nameOf, obj. rewrite Hf. simpl. by rewrite Hk.
Qed.

Lemma render_loop hp V ks fl : forall rest j w,
  keyed hp fl ks -> NoDup ks -> (forall k, k ∈ ks -> k ∈ V) ->
  drop j fl = rest ->
  loopInv hp V fl j w ->
  loopInv hp V fl (length fl)
    (fold_left App.renderOne (combine (seq j (length rest)) rest) w).
Proof.
  induction rest as [|l rest IH]; intros j w Hks Hnd HV Hdrop Hinv.
  - simpl. assert (Hj : length fl <= j).
    { destruct (Nat.le_gt_cases (length fl) j) as [|Hlt]; [done |].
      apply lookup_lt_is_Some_2 in Hlt as [x Hx].
      rewrite <- (Nat.add_0_r j), <- lookup_drop, Hdrop in Hx. done. }
    pose proof Hinv as (Hh & Hg & Hn & Hlt & Hinj & Hdom & Hc & Hlen & Hu).
    apply mapM_Some, Forall2_length in Hc. rewrite !length_take in Hc.
    assert (j = length fl) by lia. by subst j.
  - cbn [length seq combine fold_left].
    assert (Hl : fl !! j = Some l).
    { rewrite <- (Nat.add_0_r j), <- lookup_drop, Hdrop. done. }
    destruct (Forall2_lookup_l _ _ _ _ _ Hks Hl) as (k & Hk & f & Hf & Hfk & Hb).
    apply IH; try done.
    { replace (S j) with (j + 1) by lia. by rewrite <- drop_drop, Hdrop. }
    apply (renderOne_step hp V fl ks j l k f); try done.
    + destruct Hinv as (Hh & _).
      eapply Forall2_impl; [exact Hks |]. intros l' k' (f' & Hf' & Hk' & _).
      unfold nameOf, obj. by rewrite Hh, Hf', <- Hk'.
    + apply HV. by eapply list_elem_of_lookup_2.
Qed.

Lemma only_placeholder (g : list Node) :
  NoDup g -> (forall n, n ∈ g -> n = NEmpty) -> g = [] \/ g = [NEmpty].
Proof.
  intros Hnd Hall. destruct g as [|x [|y g]]; [by left | right |].
  - by rewrite (Hall x) by apply list_elem_of_here.
  - exfalso. apply NoDup_cons in Hnd as [Hx _]. apply Hx.
    rewrite (Hall x), <- (Hall y); [apply list_elem_of_here | | apply list_elem_of_here].
    apply list_elem_of_further, list_elem_of_here.
Qed.

(** At the end of the loop the grid is the cards of the view and no more. *)
Lemma loop_end hp ks fl w :
  keyed hp fl ks ->
  loopInv hp (list_to_set ks) fl (length fl) w ->
  cardsOf w fl = Some (grid w) /\ NEmpty ∉ grid w.
Proof.
  intros Hks (Hh & Hg & Hn & Hlt & Hinj & Hdom & Hc & Hlen & Hu).
  rewrite firstn_all in Hc.
  assert (Hn0 : NEmpty ∉ grid w).
  { intros Hin. by destruct (Hn _ Hin) as (? & ? & _ & ?). }
  split; [| done].
  destruct (Nat.le_gt_cases (length (grid w)) (length fl)) as [Hle | Hgt].
  { by rewrite take_ge in Hc. }
  exfalso.
  destruct (lookup_lt_is_Some_2 (grid w) (length fl) Hgt) as [m Hm].
  destruct (Hn m (list_elem_of_lookup_2 _ _ _ Hm)) as (k & e & He & ->).
  assert (Hk : k ∈ ks).
  { apply (elem_of_list_to_set (C := gset (list N))), Hdom, elem_of_dom. eauto. }
  apply list_elem_of_lookup in Hk as [j Hj].
  destruct (Forall2_lookup_r _ _ _ _ _ Hks Hj) as (l & Hl & f & Hf & Hfk & _).
  apply mapM_Some in Hc.
  destruct (Forall2_lookup_l _ _ _ _ _ Hc Hl) as (c & Hcj & Hlc).
  apply cardOf_named in Hlc as (f' & e' & Hf' & He' & ->).
  unfold obj in Hf'. rewrite Hh, Hf in Hf'. injection Hf' as <-.
  rewrite Hfk, He in He'. injection He' as <-.
  apply lookup_take_Some in Hcj as [Hcj Hjl].
  pose proof (NoDup_lookup _ _ _ _ Hg Hcj Hm). lia.
Qed.

Lemma render_nil w :
  filtered w = [] ->
  App.render w =
  if bool_decide (NEmpty ∈ grid (cleanup w)) then cleanup w
  else set_grid (grid (cleanup w) ++ [NEmpty]) (cleanup w).
Proof.
  intros Hf. unfold App.render. cbv zeta. fold (cleanup w).
  change (filtered (cleanup w)) with (filtered w). rewrite Hf.
  destruct (bool_decide _).
  - change (filtered (cleanup w)) with (filtered w). by rewrite Hf.
  - change (filtered (set_grid (grid (cleanup w) ++ [NEmpty]) (cleanup w)))
      with (filtered w). by rewrite Hf.
Qed.

Lemma render_cons w :
  filtered w <> [] ->
  App.render w =
  fold_left App.renderOne (combine (seq 0 (length (filtered w))) (filtered w))
    (set_grid (dom_remove NEmpty (grid (cleanup w))) (cleanup w)).
Proof.
  intros Hf. unfold App.render. cbv zeta. fold (cleanup w).
  change (filtered (cleanup w)) with (filtered w).
  destruct (filtered w) as [|l0 fl] eqn:Hfw; [done |].
  change (filtered (set_grid (dom_remove NEmpty (grid (cleanup w))) (cleanup w)))
    with (filtered w). by rewrite Hfw.
Qed.

(** After the cleanup the grid fits the rendered map, and every entry left
    belongs to the view. *)
Lemma cleanup_fits w :
  gridInv w ->
  gridInv (cleanup w)
  /\ dom (renderedMap (cleanup w)) ⊆ list_to_set (names w (filtered w)).
Proof.
  intros (Hgnd & Hgn & Hlt & Hinj). unfold cleanup. cbv zeta.
  set (V := list_to_set (names w (filtered w)) : gset (list N)).
  set (stale := base.filter (fun kv : list N * Entry => kv.1 ∉ V) (renderedMap w)).
  set (rm1 := base.filter (fun kv : list N * Entry => kv.1 ∈ V) (renderedMap w)).
  set (gone := (fun kv : list N * Entry => NCard (card kv.2)) <$> map_to_list stale).
  assert (Hrm1 : forall k e, rm1 !! k = Some e <-> renderedMap w !! k = Some e /\ k ∈ V).
  { intros k e. subst rm1. by rewrite map_lookup_filter_Some. }
  unfold gridInv. simpl_world. repeat split.
  - rewrite List_filter_stdpp. by apply NoDup_filter.
  - intros n Hin. rewrite List_filter_stdpp, list_elem_of_filter in Hin.
    destruct Hin as [Hng Hin]. apply negb_true_iff, bool_decide_eq_false in Hng.
    destruct (Hgn n Hin) as [-> | (k & e & He & ->)]; [by left | right].
    exists k, e. split; [| done]. apply Hrm1. split; [done |].
    destruct (decide (k ∈ V)) as [|HkV]; [done |]. exfalso. apply Hng.
    subst gone. apply list_elem_of_fmap. exists (k, e). split; [done |].
    apply elem_of_map_to_list. subst stale. by apply map_lookup_filter_Some.
  - intros k e He. apply Hrm1 in He as [He _]. by eapply Hlt.
  - intros k1 k2 e1 e2 H1 H2. apply Hrm1 in H1 as [H1 _]. apply Hrm1 in H2 as [H2 _].
    by eapply Hinj.
  - intros k Hk. apply elem_of_dom in Hk as [e He]. by apply Hrm1 in He as [_ ?].
Qed.

Lemma render_fits w :
  keyed (heap w) (filtered w) (names w (filtered w)) ->
  NoDup (names w (filtered w)) ->
  urlsTruthy w ->
  gridInv w ->
  shown (App.render w) = true
  /\ gridInv (App.render w)
  /\ urlsTruthy (App.render w)
  /\ (filtered w <> [] ->
      cardsOf (App.render w) (filtered w) = Some (grid (App.render w)))
  /\ (filtered w = [] -> grid (App.render w) = [NEmpty]).
Proof.
  intros Hks Hnd Hu Hinv.
  destruct (cleanup_fits w Hinv) as [(Hg1nd & Hg1n & Hlt1 & Hinj1) Hdom1].
  assert (Hh1 : heap (cleanup w) = heap w) by done.
  assert (Hf1 : filtered (cleanup w) = filtered w) by done.
  assert (Hu1 : urlsTruthy (cleanup w)) by done.
  assert (Hn1 : next_id (cleanup w) = next_id w) by done.
  set (V := list_to_set (names w (filtered w)) : gset (list N)) in *.
  destruct (filtered w) as [|l0 fl] eqn:Hfl.
  - (* nothing to show *)
    rewrite render_nil by done.
    assert (Hempty : renderedMap (cleanup w) = ∅).
    { apply map_eq. intros k. rewrite lookup_empty.
      destruct (renderedMap (cleanup w) !! k) as [e|] eqn:He; [| done].
      assert (Hk : k ∈ V) by (apply Hdom1, elem_of_dom; eauto).
      subst V. simpl in Hk. by apply elem_of_empty in Hk. }
    assert (Hg1 : grid (cleanup w) = [] \/ grid (cleanup w) = [NEmpty]).
    { apply only_placeholder; [done |]. intros n Hin.
      destruct (Hg1n n Hin) as [-> | (k & e & He & _)]; [done |].
      by rewrite Hempty, lookup_empty in He. }
    assert (Hres : (if bool_decide (NEmpty ∈ grid (cleanup w)) then cleanup w
                    else set_grid (grid (cleanup w) ++ [NEmpty]) (cleanup w))
                   = set_grid [NEmpty] (cleanup w)).
    { destruct Hg1 as [Hg | Hg]; rewrite Hg.
      - by rewrite bool_decide_eq_false_2 by apply not_elem_of_nil.
      - rewrite bool_decide_eq_true_2 by apply list_elem_of_here.
        rewrite <- Hg. by destruct (cleanup w). }
    rewrite Hres.
    split.
    { apply shown_spec.
      change (filtered (set_grid [NEmpty] (cleanup w))) with (filtered (cleanup w)).
      rewrite Hf1. unfold names, cardsOf. simpl_world. rewrite Hempty. simpl.
      repeat split; [constructor | apply NoDup_singleton |].
      by rewrite dom_empty_L. }
    split.
    { unfold gridInv. simpl_world. rewrite Hempty.
      repeat split; [apply NoDup_singleton | | |].
      - intros n Hn. apply list_elem_of_singleton in Hn. by left.
      - intros k e He. by rewrite lookup_empty in He.
      - intros k1 k2 e1 e2 He. by rewrite lookup_empty in He. }
    split; [done |]. split; [done | done].
  - (* the loop *)
    rewrite render_cons by (by rewrite Hfl). rewrite Hfl.
    set (w2 := set_grid (dom_remove NEmpty (grid (cleanup w))) (cleanup w)).
    assert (Hinv0 : loopInv (heap w) V (l0 :: fl) 0 w2).
    { unfold loopInv, urlsTruthy. subst w2. simpl_world.
      split; [done |]. split; [by apply dom_remove_NoDup |]. split.
      { intros n Hin. apply dom_remove_elem in Hin as [Hne Hin].
        destruct (Hg1n n Hin) as [-> | ?]; done. }
      split; [done |]. split; [done |]. split; [done |]. split; [done |].
      split; [lia | done]. }
    pose proof (render_loop (heap w) V (names w (l0 :: fl)) (l0 :: fl) (l0 :: fl) 0 w2
                  Hks Hnd) as Hloop.
    specialize (Hloop (fun k Hk => proj2 (elem_of_list_to_set k _) Hk) eq_refl Hinv0).
    set (w3 := fold_left _ _ w2) in *.
    pose proof (loop_end _ _ _ _ Hks Hloop) as [Hcards Hne].
    destruct Hloop as (Hh & Hg & Hn & Hlt3 & Hinj3 & Hdom3 & Hc & Hlen & Hu3).
    assert (Hfil : filtered w3 = l0 :: fl).
    { subst w3. apply (fold_left_invariant (fun x => filtered x = l0 :: fl)); [| done].
      intros a b Ha. pose proof (renderOne_registry a b) as Hr.
      injection Hr as _ Hr _ _ _ _ _. by rewrite Hr. }
    assert (Hnames : names w3 (l0 :: fl) = names w (l0 :: fl)).
    { unfold names, nameOf, obj. by rewrite Hh. }
    split.
    { apply shown_spec. rewrite Hfil, Hnames. split; [done |]. split.
      { rewrite dom_remove_absent; done. }
      split; [done | done]. }
    split.
    { split; [done |]. split; [| split; [done | done]].
      intros n Hin. right. by apply Hn. }
    split; [done |]. split; [done | done].
Qed.


End Renderer.

(* ===================================================================== *)
(** * 19. The object store *)
(* ===================================================================== *)

Lemma key_ltb_irrefl a : key_ltb a a = false.
Proof.
  induction a as [|x a IH]; [done |]. simpl.
  by rewrite N.ltb_irrefl, N.eqb_refl, IH.
Qed.

Lemma key_ltb_trans a : forall b c,
  key_ltb a b = true -> key_ltb b c = true -> key_ltb a c = true.
Proof.
  induction a as [|x a IH]; intros [|y b] [|z c]; simpl; try done.
  rewrite !orb_true_iff, !andb_true_iff, !N.ltb_lt, !N.eqb_eq.
  intros [Hxy | [-> Hab]] [Hyz | [-> Hbc]].
  - left. lia.
  - by left.
  - by left.
  - right. split; [done |]. by eapply IH.
Qed.

Lemma key_ltb_total a : forall b,
  key_ltb a b = false -> key_ltb b a = false -> a = b.
Proof.
  induction a as [|x a IH]; intros [|y b]; simpl; try done.
  rewrite !orb_false_iff, !andb_false_iff, !N.ltb_ge, !N.eqb_neq.
  intros [Hxy Hc] [Hyx Hc']. assert (x = y) by lia. subst y. f_equal.
  destruct Hc as [Hne | Hab]; [done |].
  destruct Hc' as [Hne | Hba]; [done |]. by apply IH.
Qed.

Lemma store_put_elem r s x : In x (store_put r s) -> x = r \/ In x s.
Proof.
  induction s as [|r' s IH]; simpl.
  - intros [<- | []]. by left.
  - destruct (bool_decide _); [| destruct (key_ltb _ _)]; simpl.
    + intros [<- | Hx]; auto.
    + intros [<- | Hx]; auto.
    + intros [<- | Hx]; [auto |]. destruct (IH Hx); auto.
Qed.

Lemma store_put_sorted r s : storeSorted s -> storeSorted (store_put r s).
Proof.
  unfold storeSorted. induction 1 as [|r' s Hs IH Hall]; simpl.
  - repeat constructor.
  - destruct (bool_decide (fileName r' = fileName r)) eqn:Heq.
    + apply bool_decide_eq_true in Heq. constructor; [done |].
      eapply List.Forall_impl; [| exact Hall]. intros x. unfold keyLt. by rewrite Heq.
    + apply bool_decide_eq_false in Heq.
      destruct (key_ltb (fileName r) (fileName r')) eqn:Hlt.
      * constructor; [by constructor |]. constructor; [done |].
        eapply List.Forall_impl; [| exact Hall]. intros x Hx. unfold keyLt in *.
        by eapply key_ltb_trans.
      * constructor; [done |]. apply List.Forall_forall. intros x Hx.
        apply store_put_elem in Hx as [-> | Hx].
        -- unfold keyLt. destruct (key_ltb (fileName r') (fileName r)) eqn:Hlt'; [done |].
           exfalso. apply Heq. by apply key_ltb_total.
        -- rewrite List.Forall_forall in Hall. by apply Hall.
Qed.

Lemma store_delete_sorted key s : storeSorted s -> storeSorted (store_delete key s).
Proof.
  unfold storeSorted, store_delete. induction 1 as [|r s Hs IH Hall]; simpl; [constructor |].
  destruct (negb _); [| done]. constructor; [done |].
  rewrite List.Forall_forall in *. intros x Hx. apply filter_In in Hx as [Hx _]. auto.
Qed.

Lemma storeSorted_NoDup s : storeSorted s -> NoDup (fileName <$> s).
Proof.
  induction 1 as [|r s Hs IH Hall]; simpl; [constructor |].
  apply NoDup_cons. split; [| done].
  intros Hin. apply list_elem_of_fmap in Hin as (x & Hx & Hin).
  rewrite List.Forall_forall in Hall. apply list_elem_of_In in Hin.
  specialize (Hall x Hin). unfold keyLt in Hall.
  by rewrite Hx, key_ltb_irrefl in Hall.
Qed.

Lemma storeAfter_sorted rs : forall st, storeSorted st -> storeSorted (storeAfter rs st).
Proof.
  unfold storeAfter. induction rs as [|r rs IH]; intros st Hst; simpl; [done |].
  by apply IH, store_put_sorted.
Qed.

Lemma store_get_delete key s : store_get key (store_delete key s) = None.
Proof.
  unfold store_get, store_delete. induction s as [|r s IH]; simpl; [done |].
  destruct (bool_decide (fileName r = key)) eqn:Heq; simpl; [done |].
  by rewrite Heq.
Qed.

(* ===================================================================== *)
(** * 20. What every run keeps *)
(* ===================================================================== *)

Lemma names_fileName w ls :
  Forall (fun l => is_Some (obj w l)) ls ->
  Forall2 (fun l k => nameOf w l = Some k) ls (names w ls).
Proof.
  induction 1 as [|l ls [f Hf] _ IH]; [constructor |].
  unfold names.
  change (omap (nameOf w) (l :: ls)) with
    (match nameOf w l with
     | Some y => y :: omap (nameOf w) ls
     | None => omap (nameOf w) ls
     end).
  assert (Hn : nameOf w l = Some (fileName f)) by (unfold nameOf; by rewrite Hf).
  rewrite Hn. by constructor.
Qed.

Lemma keyed_of w ls :
  Forall (fun f => isBlobRecord f = true) (heap w) ->
  Forall (fun l => is_Some (obj w l)) ls ->
  keyed (heap w) ls (names w ls).
Proof.
  intros Hb Hv. unfold keyed.
  eapply Forall2_impl; [by apply names_fileName |].
  intros l k Hn. unfold nameOf, obj in Hn.
  destruct (heap w !! l) as [f|] eqn:Hf; [| done].
  exists f. split; [done |]. split; [by injection Hn |].
  rewrite List.Forall_forall in Hb. apply Hb.
  apply list_elem_of_In. by eapply list_elem_of_lookup_2.
Qed.

Lemma names_sublist w l1 l2 : sublist l1 l2 -> sublist (names w l1) (names w l2).
Proof. apply sublist_omap. Qed.

Lemma names_seq w hp st :
  heap w = hp ++ st ->
  names w (seq (length hp) (length st)) = fileName <$> st.
Proof.
  revert hp. induction st as [|r st IH]; intros hp Hh; [done |].
  cbn [length seq]. unfold names.
  change (omap (nameOf w) (length hp :: seq (S (length hp)) (length st))) with
    (match nameOf w (length hp) with
     | Some y => y :: omap (nameOf w) (seq (S (length hp)) (length st))
     | None => omap (nameOf w) (seq (S (length hp)) (length st))
     end).
  assert (Hn : nameOf w (length hp) = Some (fileName r)).
  { unfold nameOf, obj. by rewrite Hh, list_lookup_middle. }
  rewrite Hn. simpl. f_equal. specialize (IH (hp ++ [r])). rewrite length_app in IH. simpl in IH.
  rewrite Nat.add_1_r in IH. apply IH. by rewrite <- app_assoc.
Qed.

Lemma seq_valid w hp st :
  heap w = hp ++ st ->
  Forall (fun l => is_Some (obj w l)) (seq (length hp) (length st)).
Proof.
  intros Hh. apply List.Forall_forall. intros l Hl. apply in_seq in Hl.
  unfold obj. apply lookup_lt_is_Some. rewrite Hh, length_app. lia.
Qed.

Lemma Forall_sub {A} (P : A -> Prop) (l2 l1 : list A) :
  sublist l1 l2 -> Forall P l2 -> Forall P l1.
Proof.
  intros Hs Hl. apply List.Forall_forall. intros x Hx.
  rewrite List.Forall_forall in Hl. apply Hl.
  apply list_elem_of_In. apply (sublist_subseteq _ _ Hs). by apply list_elem_of_In.
Qed.

Section Runs.
Context `{Platform}.

(** [filter] on a world whose registry is in order gives a world whose view
    is in order too. *)
Lemma filter_wellFormed w : preFormed w -> wellFormed (App.filter w).
Proof.
  intros (Hs & Hsb & Hhb & Hv & Hnd & Hu & Hg).
  unfold App.filter.
  set (F := List.filter (App.matchesRef (toLowerCase (search w)) w) (fonts w)).
  set (w' := set_filtered F w).
  assert (Hsub : sublist F (fonts w)) by apply sublist_List_filter.
  assert (Hv' : Forall (fun l => is_Some (obj w' l)) F).
  { by apply (Forall_sub _ (fonts w)). }
  assert (Hks : keyed (heap w') (filtered w') (names w' (filtered w')))
    by (by apply keyed_of).
  assert (Hnd' : NoDup (names w' (filtered w'))).
  { assert (Hsn : sublist (names w F) (names w (fonts w)))
      by (by apply names_sublist).
    eauto using sublist_NoDup. }
  destruct (render_fits w' Hks Hnd' Hu Hg) as (Hshown & Hg' & Hu' & _).
  pose proof (render_registry w') as Hreg.
  injection Hreg as Hfo Hfi _ Hhe Hst _ _.
  unfold wellFormed, preFormed.
  rewrite Hst, Hfo, Hfi. unfold names, nameOf, obj. rewrite Hhe.
  split; [| split; [exact Hsub | exact Hshown]].
  split; [exact Hs |]. split; [exact Hsb |]. split; [exact Hhb |].
  split; [exact Hv |]. split; [exact Hnd |]. split; [exact Hu' | exact Hg'].
Qed.

Lemma preFormed_frame w w' :
  store w' = store w -> heap w' = heap w -> fonts w' = fonts w ->
  urlsTruthy w' -> grid w' = grid w -> renderedMap w' = renderedMap w ->
  next_id w <= next_id w' ->
  preFormed w -> preFormed w'.
Proof.
  intros Hst Hhe Hfo Hu Hg Hr Hn (Hs & Hsb & Hhb & Hv & Hnd & _ & Hgi).
  unfold preFormed, gridInv in *. unfold names, nameOf, obj in *.
  rewrite Hst, Hhe, Hfo, Hg, Hr.
  destruct Hgi as (G1 & G2 & G3 & G4).
  repeat split; try done.
  intros k e He. specialize (G3 k e He). lia.
Qed.

Lemma wellFormed_frame w w' :
  store w' = store w -> heap w' = heap w -> fonts w' = fonts w ->
  filtered w' = filtered w ->
  urlsTruthy w' -> grid w' = grid w -> renderedMap w' = renderedMap w ->
  next_id w <= next_id w' ->
  wellFormed w -> wellFormed w'.
Proof.
  intros Hst Hhe Hfo Hfi Hu Hg Hr Hn (Hp & Hsub & Hsh).
  split; [by apply (preFormed_frame w) |].
  rewrite Hfi, Hfo. split; [done |].
  rewrite <- Hsh. unfold shown, cardsOf, cardOf, names, nameOf, obj.
  by rewrite Hfi, Hhe, Hg, Hr.
Qed.

Lemma loadFonts_wellFormed ok w : wellFormed w -> wellFormed (App.loadFonts ok w).
Proof.
  intros Hw. destruct ok; [| done]. unfold App.loadFonts. cbv zeta.
  apply filter_wellFormed.
  destruct Hw as ((Hs & Hsb & Hhb & Hv & Hnd & Hu & Hg) & _).
  unfold preFormed, MasterStyle.clear, DB.getAll.
  set (w3 := set_loadedFonts _ _).
  assert (Hh3 : heap w3 = heap w ++ store w) by done.
  change (store w3) with (store w).
  change (fonts w3) with (seq (length (heap w)) (length (store w))).
  split; [done |]. split; [done |]. split.
  { rewrite Hh3. by apply Forall_app. }
  split; [by apply (seq_valid w3) |]. split.
  { rewrite (names_seq w3 _ _ Hh3). by apply storeSorted_NoDup. }
  split; [done |].
  unfold gridInv. subst w3. simpl_world.
  repeat split; [constructor | | |].
  - intros n Hn. by apply elem_of_nil in Hn.
  - intros k e He. by rewrite lookup_empty in He.
  - intros k1 k2 e1 e2 He. by rewrite lookup_empty in He.
Qed.

Lemma storeAfter_blobs rs : forall st,
  Forall (fun f => isBlobRecord f = true) rs ->
  Forall (fun f => isBlobRecord f = true) st ->
  Forall (fun f => isBlobRecord f = true) (storeAfter rs st).
Proof.
  unfold storeAfter. induction rs as [|r rs IH]; intros st Hrs Hst; simpl; [done |].
  apply Forall_cons in Hrs as [Hr Hrs]. apply IH; [done |].
  apply List.Forall_forall. intros x Hx. apply store_put_elem in Hx as [-> | Hx]; [done |].
  rewrite List.Forall_forall in Hst. by apply Hst.
Qed.

Lemma handleUpload_wellFormed est put_ok files w :
  wellFormed w -> wellFormed (App.handleUpload est put_ok files w).1.
Proof.
  intros Hw.
  destruct (handleUpload_detail est put_ok files w)
    as (stored & Hp & _ & _ & _ & Hst & Hfo & Hfi & Hhe & Hg & Hr & _ & Hu).
  set (w' := (App.handleUpload est put_ok files w).1) in *.
  assert (Hn : next_id w' = next_id w).
  { subst w'. destruct (handleUpload_outcome est put_ok files w)
      as [Hb -> | m Hb -> _ | n evs Hb _ _ [st ->] _ _ _]; done. }
  destruct Hw as ((Hs & Hsb & Hhb & Hv & Hnd & Hut & Hgi) & Hsub & Hsh).
  split; [| split].
  - unfold preFormed, gridInv, urlsTruthy in *. unfold names, nameOf, obj in *.
    rewrite Hst, Hhe, Hfo, Hg, Hr, Hu, Hn.
    split; [by apply storeAfter_sorted |]. split; [| done].
    apply storeAfter_blobs; [| done]. rewrite Hp.
    apply List.Forall_forall. intros r Hr'. apply in_map_iff in Hr' as (g & <- & _). done.
  - by rewrite Hfi, Hfo.
  - rewrite <- Hsh. unfold shown, cardsOf, cardOf, names, nameOf, obj.
    by rewrite Hfi, Hhe, Hg, Hr.
Qed.

Lemma store_delete_elem key s x : In x (store_delete key s) -> In x s.
Proof. unfold store_delete. intros Hx. by apply filter_In in Hx as [? _]. Qed.

(** Handlers that write the store only. *)
Lemma wellFormed_store st w :
  storeSorted st -> Forall (fun f => isBlobRecord f = true) st ->
  wellFormed w -> wellFormed (set_store st w).
Proof.
  intros Hs Hb ((_ & _ & Hp) & Hv). split; [| exact Hv].
  split; [exact Hs |]. split; [exact Hb | exact Hp].
Qed.

(** Handlers that write the URL map only. *)
Lemma wellFormed_urls m lv w :
  (forall k u, m !! k = Some u -> App.url_truthy u = true) ->
  wellFormed w -> wellFormed (set_objectUrls m (set_live_urls lv w)).
Proof.
  intros Hm ((Hs & Hsb & Hhb & Hv & Hnd & _ & Hg) & Hview).
  split; [| exact Hview].
  split; [exact Hs |]. split; [exact Hsb |]. split; [exact Hhb |].
  split; [exact Hv |]. split; [exact Hnd |]. split; [exact Hm | exact Hg].
Qed.

Lemma toast_wellFormed m e w : wellFormed w -> wellFormed (toast m e w).
Proof. intros Hw. exact Hw. Qed.

Lemma updateProgress_wellFormed a b c w :
  wellFormed w -> wellFormed (updateProgress a b c w).
Proof. intros Hw. exact Hw. Qed.

Lemma set_isProcessing_wellFormed b w :
  wellFormed w -> wellFormed (set_isProcessing b w).
Proof. intros Hw. exact Hw. Qed.

Lemma onSearch_wellFormed value w :
  wellFormed w -> wellFormed (App.onSearch value w).
Proof.
  intros [Hp _]. unfold App.onSearch. apply filter_wellFormed. exact Hp.
Qed.

Lemma uploadDone_wellFormed n ok w :
  wellFormed w -> wellFormed (App.uploadDone n ok w).
Proof.
  intros Hw. unfold App.uploadDone. cbv zeta. apply loadFonts_wellFormed.
  destruct (0 <? n)%nat; [apply toast_wellFormed |];
    by apply set_isProcessing_wellFormed, updateProgress_wellFormed.
Qed.

Lemma exportDone_wellFormed w : wellFormed w -> wellFormed (App.exportDone w).
Proof.
  intros Hw. unfold App.exportDone.
  by apply set_isProcessing_wellFormed, updateProgress_wellFormed.
Qed.

(** *** [deleteSingleFont] *)

Lemma delete_preFormed key ok w : preFormed w -> preFormed (DB.delete key ok w).
Proof.
  intros (Hs & Hsb & Hp). unfold DB.delete.
  destruct ok; [| split; [exact Hs | split; [exact Hsb | exact Hp]]].
  split; [by apply store_delete_sorted |]. split; [| exact Hp].
  apply List.Forall_forall. intros x Hx. apply store_delete_elem in Hx.
  rewrite List.Forall_forall in Hsb. by apply Hsb.
Qed.

Lemma forgetFont_preFormed key w :
  preFormed w -> preFormed (App.forgetFont key w).
Proof.
  intros (Hs & Hsb & Hhb & Hv & Hnd & Hu & Hg). unfold App.forgetFont.
  set (F := List.filter (otherName w key) (fonts w)).
  assert (Hsub : sublist F (fonts w)) by apply sublist_List_filter.
  split; [exact Hs |]. split; [exact Hsb |]. split; [exact Hhb |].
  split; [exact (Forall_sub _ _ _ Hsub Hv) |].
  split; [| split; [exact Hu | exact Hg]].
  change (NoDup (names w F)).
  pose proof (names_sublist w _ _ Hsub) as Hsn. eauto using sublist_NoDup.
Qed.

Lemma releaseUrl_preFormed key w :
  preFormed w -> preFormed (App.releaseUrl key w).
Proof.
  intros Hp. unfold App.releaseUrl.
  destruct (objectUrls w !! key) as [u|] eqn:Hk; [| exact Hp].
  destruct Hp as (Hs & Hsb & Hhb & Hv & Hnd & Hu & Hg).
  assert (Hu' : forall k v, base.delete key (objectUrls w) !! k = Some v ->
                            App.url_truthy v = true).
  { intros k v Hkv. apply lookup_delete_Some in Hkv as [_ Hkv]. by apply (Hu k). }
  destruct u as [id|s'];
    (split; [exact Hs |]; split; [exact Hsb |]; split; [exact Hhb |];
     split; [exact Hv |]; split; [exact Hnd |]; split; [exact Hu' | exact Hg]).
Qed.

Lemma removeCard_preFormed key w :
  preFormed w -> preFormed (App.removeCard key w).
Proof.
  intros Hp. unfold App.removeCard.
  destruct (renderedMap w !! key) as [e|] eqn:Hk; [| exact Hp].
  destruct Hp as (Hs & Hsb & Hhb & Hv & Hnd & Hu & (G1 & G2 & G3 & G4)).
  split; [exact Hs |]. split; [exact Hsb |]. split; [exact Hhb |].
  split; [exact Hv |]. split; [exact Hnd |]. split; [exact Hu |].
  unfold gridInv. simpl_world. split; [by apply dom_remove_NoDup |].
  split; [| split].
  - intros n Hn. apply dom_remove_elem in Hn as [Hne Hn].
    destruct (G2 n Hn) as [-> | (k & e' & Hk' & ->)]; [by left | right].
    exists k, e'. split; [| done]. rewrite lookup_delete_ne; [done |].
    intros <-. rewrite Hk in Hk'. by injection Hk' as <-.
  - intros k e' Hk'. apply lookup_delete_Some in Hk' as [_ Hk']. by apply (G3 k).
  - intros k1 k2 e1 e2 H1 H2.
    apply lookup_delete_Some in H1 as [_ H1].
    apply lookup_delete_Some in H2 as [_ H2]. by apply (G4 k1 k2 e1 e2).
Qed.

Lemma deleteSingleFont_wellFormed key confirmed ok w :
  wellFormed w -> wellFormed (App.deleteSingleFont key confirmed ok w).
Proof.
  intros Hw. unfold App.deleteSingleFont.
  destruct confirmed; simpl; [| exact Hw]. destruct ok.
  - apply toast_wellFormed, filter_wellFormed, removeCard_preFormed,
      releaseUrl_preFormed, forgetFont_preFormed, delete_preFormed.
    by destruct Hw.
  - apply toast_wellFormed. exact Hw.
Qed.

(** *** [clearAll] *)

Lemma clear_wellFormed ok w : wellFormed w -> wellFormed (DB.clear ok w).
Proof.
  intros Hw. unfold DB.clear. destruct ok; [| exact Hw].
  exact (wellFormed_store [] w (SSorted_nil _) (List.Forall_nil _) Hw).
Qed.

Lemma clearAll_wellFormed confirmed ok ok' w :
  wellFormed w -> wellFormed (App.clearAll confirmed ok ok' w).
Proof.
  intros Hw. unfold App.clearAll.
  destruct confirmed; cbn [negb]; [| exact Hw].
  destruct (isProcessing w); [exact Hw |].
  apply set_isProcessing_wellFormed. destruct ok.
  - cbv zeta.
    destruct ok'; apply toast_wellFormed; [apply loadFonts_wellFormed |].
    all: apply wellFormed_urls; [intros k u Hk; by rewrite lookup_empty in Hk |].
    all: by apply clear_wellFormed, set_isProcessing_wellFormed.
  - apply toast_wellFormed. by apply clear_wellFormed, set_isProcessing_wellFormed.
Qed.

(** *** [updateTag] *)

(** Writing the tag of a record object changes no key. *)
Lemma setTag_obj (hp : list FontRecord) (l : nat) font tag (l' : nat) :
  hp !! l = Some font ->
  fileName <$> (<[l := withTag font tag]> hp !! l') = fileName <$> (hp !! l').
Proof.
  intros Hf. destruct (decide (l = l')) as [<- | Hne].
  - rewrite list_lookup_insert_eq by (by eapply lookup_lt_Some). by rewrite Hf.
  - by rewrite list_lookup_insert_ne.
Qed.

Lemma setTag_names w l font tag ls :
  obj w l = Some font ->
  names (set_heap (<[l := withTag font tag]> (heap w)) w) ls = names w ls.
Proof.
  intros Hf. unfold names. apply list_omap_ext.
  induction ls as [|x ls IH]; constructor; [| done].
  unfold nameOf, obj. simpl_world. by rewrite (setTag_obj _ _ _ _ _ Hf).
Qed.

Lemma setTag_cardsOf w l font tag ls :
  obj w l = Some font ->
  cardsOf (set_heap (<[l := withTag font tag]> (heap w)) w) ls = cardsOf w ls.
Proof.
  intros Hf. unfold cardsOf. apply mapM_ext. intros l'.
  unfold cardOf, obj. simpl_world.
  pose proof (setTag_obj (heap w) l font tag l' Hf) as Hn.
  destruct (<[l := withTag font tag]> (heap w) !! l') as [f1|];
    destruct (heap w !! l') as [f2|]; simpl in *; try done.
  by injection Hn as ->.
Qed.

Lemma setTag_wellFormed w l font tag :
  obj w l = Some font ->
  wellFormed w ->
  wellFormed (set_heap (<[l := withTag font tag]> (heap w)) w).
Proof.
  intros Hf ((Hs & Hsb & Hhb & Hv & Hnd & Hu & Hg) & Hsub & Hsh).
  set (w1 := set_heap _ w).
  assert (Hb : isBlobRecord (withTag font tag) = true).
  { rewrite List.Forall_forall in Hhb. apply (Hhb font).
    apply list_elem_of_In. by eapply list_elem_of_lookup_2. }
  split; [| split; [exact Hsub |]].
  - split; [exact Hs |]. split; [exact Hsb |].
    split; [by apply Forall_insert |].
    split.
    { apply List.Forall_forall. intros l' Hl'.
      rewrite List.Forall_forall in Hv. specialize (Hv l' Hl').
      unfold obj in *. subst w1. simpl_world.
      apply lookup_lt_is_Some. rewrite length_insert.
      by apply lookup_lt_is_Some. }
    split; [| split; [exact Hu | exact Hg]].
    subst w1. change (fonts (set_heap _ w)) with (fonts w).
    by rewrite setTag_names.
  - rewrite <- Hsh. unfold shown. subst w1.
    change (filtered (set_heap _ w)) with (filtered w).
    rewrite setTag_names, setTag_cardsOf by done. done.
Qed.

Lemma put_wellFormed r ok w :
  isBlobRecord r = true -> wellFormed w -> wellFormed (DB.put r ok w).
Proof.
  intros Hb Hw. unfold DB.put. destruct ok; [| exact Hw].
  pose proof Hw as ((Hs & Hsb & _) & _).
  refine (wellFormed_store (store_put r (store w)) w _ _ Hw).
  - by apply store_put_sorted.
  - apply List.Forall_forall. intros x Hx.
    apply store_put_elem in Hx as [-> | Hx]; [done |].
    rewrite List.Forall_forall in Hsb. by apply Hsb.
Qed.

Lemma updateTag_wellFormed key rawTag ok w :
  wellFormed w -> wellFormed (App.updateTag key rawTag ok w).
Proof.
  intros Hw. destruct (App.findFont key w) as [l|] eqn:Hl.
  2: { unfold App.updateTag. rewrite Hl. exact Hw. }
  pose proof (findFont_Some _ _ _ Hl) as [_ Hn].
  unfold nameOf in Hn. destruct (obj w l) as [font|] eqn:Hf; [| done].
  rewrite (updateTag_found key rawTag ok w l font Hl Hf).
  assert (Hb : isBlobRecord (withTag font (Security.sanitizeTag rawTag)) = true).
  { destruct Hw as ((_ & _ & Hhb & _) & _).
    rewrite List.Forall_forall in Hhb. apply (Hhb font).
    apply list_elem_of_In. by eapply list_elem_of_lookup_2. }
  apply put_wellFormed; [done |]. by apply setTag_wellFormed.
Qed.

(** *** [exportPDF] *)

Lemma exportRow_wellFormed w l : wellFormed w -> wellFormed (App.exportRow w l).
Proof.
  intros Hw. unfold App.exportRow.
  destruct (obj w l) as [font|] eqn:Hf; [| exact Hw].
  pose proof Hw as ((_ & _ & Hhb & _ & _ & Hu & _) & _).
  assert (Hb : isBlobRecord font = true).
  { rewrite List.Forall_forall in Hhb. apply (Hhb font).
    apply list_elem_of_In. by eapply list_elem_of_lookup_2. }
  unfold isBlobRecord in Hb. destruct (data font) as [b| |] eqn:Hd; try done.
  pose proof (injectFontFace_registry (fileName font) (DBlob b) w) as Hreg.
  destruct (injectFontFace_blob (fileName font) b w Hu)
    as (id & w1 & Hi & Hhe & Hg & Hr & Hn & Hu1).
  rewrite Hi in *. simpl. simpl in Hreg.
  injection Hreg as Hfo Hfi _ _ Hst _ _.
  by apply (wellFormed_frame w).
Qed.

Lemma exportLoop_wellFormed total chunks : forall i w,
  wellFormed w -> wellFormed (App.exportLoop total i chunks w).
Proof.
  induction chunks as [|c chunks IH]; intros i w Hw; simpl; [done |].
  apply IH, updateProgress_wellFormed.
  by apply (fold_left_invariant wellFormed); [intros; apply exportRow_wellFormed |].
Qed.

Lemma exportPDF_wellFormed w : wellFormed w -> wellFormed (App.exportPDF w).
Proof.
  intros Hw. unfold App.exportPDF.
  destruct (_ && _); [by apply toast_wellFormed |].
  destruct (length (fonts w) =? 0)%nat; [by apply toast_wellFormed |].
  cbv zeta. apply exportLoop_wellFormed.
  by apply updateProgress_wellFormed, set_isProcessing_wellFormed.
Qed.

(** *** Runs *)

Lemma initial_wellFormed : wellFormed initial.
Proof.
  split; [| split; [constructor | by vm_compute]].
  split; [constructor |]. split; [constructor |]. split; [constructor |].
  split; [constructor |]. split; [constructor |]. split.
  - intros k u Hk. cbn in Hk. by rewrite lookup_empty in Hk.
  - split; [constructor |]. split; [| split].
    + intros n Hn. by apply elem_of_nil in Hn.
    + intros k e He. cbn in He. by rewrite lookup_empty in He.
    + intros k1 k2 e1 e2 He. cbn in He. by rewrite lookup_empty in He.
Qed.

Lemma step_wellFormed w w' : App.step w w' -> wellFormed w -> wellFormed w'.
Proof.
  intros Hstep Hw. destruct Hstep.
  - by apply loadFonts_wellFormed.
  - by apply onSearch_wellFormed.
  - by apply handleUpload_wellFormed.
  - by apply uploadDone_wellFormed.
  - by apply deleteSingleFont_wellFormed.
  - by apply clearAll_wellFormed.
  - by apply updateTag_wellFormed.
  - by apply exportPDF_wellFormed.
  - by apply exportDone_wellFormed.
Qed.

Lemma reachable_wellFormed w : App.reachable w -> wellFormed w.
Proof.
  induction 1 as [|w w' _ IH Hs]; [apply initial_wellFormed |].
  by apply (step_wellFormed w).
Qed.

(** X6.  The registry is in order in every world the page can reach from an
    empty library: no two registered records have the same key, every
    registered reference is a record object that holds a blob, and the
    filtered view is part of the registry, in its order. *)
Theorem registry_in_order w :
  App.reachable w ->
  NoDup (names w (fonts w))
  /\ Forall (fun l => exists f b, obj w l = Some f /\ data f = DBlob b)
       (fonts w)
  /\ sublist (filtered w) (fonts w).
Proof.
  intros Hr.
  destruct (reachable_wellFormed w Hr)
    as ((_ & _ & Hhb & Hv & Hnd & _ & _) & Hsub & _).
  split; [exact Hnd |]. split; [| exact Hsub].
  apply List.Forall_forall. intros l Hl.
  rewrite List.Forall_forall in Hv. destruct (Hv l Hl) as [f Hf].
  rewrite List.Forall_forall in Hhb.
  assert (Hb : isBlobRecord f = true).
  { apply Hhb. apply list_elem_of_In. by eapply list_elem_of_lookup_2. }
  unfold isBlobRecord in Hb. destruct (data f) as [b| |] eqn:Hd; try done.
  by exists f, b.
Qed.


(** X8.  The object store is in order in every world the page can reach: its
    records are listed by strictly increasing key, so there is one record
    per key, and every record holds a blob.  [put] replaces in place,
    [delete] and [clear] only take away, and the only writers hand over
    records built from files or taken from the registry. *)
Theorem store_in_order w :
  App.reachable w ->
  StronglySorted (fun a b => key_ltb (fileName a) (fileName b) = true) (store w)
  /\ NoDup (fileName <$> store w)
  /\ Forall (fun f => exists b, data f = DBlob b) (store w).
Proof.
  intros Hr.
  destruct (reachable_wellFormed w Hr) as ((Hs & Hsb & _) & _).
  split; [exact Hs |]. split; [by apply storeSorted_NoDup |].
  apply List.Forall_forall. intros f Hf. rewrite List.Forall_forall in Hsb.
  pose proof (Hsb f Hf) as Hb. unfold isBlobRecord in Hb.
  destruct (data f) as [b| |]; try done. by exists b.
Qed.


End Runs.

(* ===================================================================== *)
(** * 21. Where records come from *)
(* ===================================================================== *)

Lemma storeAfter_elem rs : forall st x,
  In x (storeAfter rs st) -> In x rs \/ In x st.
Proof.
  unfold storeAfter. induction rs as [|r rs IH]; intros st x Hx; simpl in *; [by right |].
  apply IH in Hx as [Hx | Hx]; [by left; right |].
  apply store_put_elem in Hx as [-> | Hx]; [by left; left | by right].
Qed.

Section RecordInvariant.
Context `{Platform}.
Variable P : FontRecord -> Prop.
Hypothesis P_file :
  forall g tag, App.hasValidExtension g = true -> App.persistable g = true ->
                P (App.recordOf g tag).
Hypothesis P_tag : forall f t, P f -> P (withTag f t).

Lemma recordsAll_frame w w' :
  store w' = store w -> heap w' = heap w ->
  recordsAll P w -> recordsAll P w'.
Proof. unfold recordsAll. by intros -> ->. Qed.

Lemma toast_records m e w : recordsAll P w -> recordsAll P (toast m e w).
Proof. intros Hw. exact Hw. Qed.

Lemma set_isProcessing_records b w :
  recordsAll P w -> recordsAll P (set_isProcessing b w).
Proof. intros Hw. exact Hw. Qed.

Lemma updateProgress_records a b c w :
  recordsAll P w -> recordsAll P (updateProgress a b c w).
Proof. intros Hw. exact Hw. Qed.

Lemma filter_records w : recordsAll P w -> recordsAll P (App.filter w).
Proof.
  pose proof (filter_registry w) as Hreg. injection Hreg as _ _ _ Hhe Hst _ _.
  by apply recordsAll_frame.
Qed.

Lemma loadFonts_records ok w :
  recordsAll P w -> recordsAll P (App.loadFonts ok w).
Proof.
  intros [Hs Hh]. destruct ok; [| done]. unfold App.loadFonts. cbv zeta.
  apply filter_records. split; [exact Hs |].
  change (Forall P (heap w ++ store w)). by apply Forall_app.
Qed.

Lemma handleUpload_records est put_ok files w :
  recordsAll P w -> recordsAll P (App.handleUpload est put_ok files w).1.
Proof.
  intros [Hs Hh].
  destruct (handleUpload_detail est put_ok files w)
    as (stored & Hp & _ & Hok & _ & Hst & _ & _ & Hhe & _).
  unfold recordsAll. rewrite Hst, Hhe, Hp. split; [| exact Hh].
  apply List.Forall_forall. intros x Hx.
  apply storeAfter_elem in Hx as [Hx | Hx].
  - apply in_map_iff in Hx as (g & <- & Hg).
    destruct (Hok g Hg) as (He & Hsz & Hsig & Hrd).
    apply P_file; [done |]. by apply persistable_spec.
  - rewrite List.Forall_forall in Hs. by apply Hs.
Qed.

Lemma forget_records key w :
  recordsAll P w ->
  recordsAll P
    (App.removeCard key (App.releaseUrl key (App.forgetFont key w))).
Proof.
  apply recordsAll_frame.
  - unfold App.removeCard, App.releaseUrl, App.revoke, App.forgetFont.
    by repeat case_match.
  - unfold App.removeCard, App.releaseUrl, App.revoke, App.forgetFont.
    by repeat case_match.
Qed.

Lemma delete_records key ok w :
  recordsAll P w -> recordsAll P (DB.delete key ok w).
Proof.
  intros [Hs Hh]. unfold DB.delete. destruct ok; [| done].
  split; [| exact Hh]. change (Forall P (store_delete key (store w))).
  apply List.Forall_forall. intros x Hx. apply store_delete_elem in Hx.
  rewrite List.Forall_forall in Hs. by apply Hs.
Qed.

Lemma deleteSingleFont_records key confirmed ok w :
  recordsAll P w -> recordsAll P (App.deleteSingleFont key confirmed ok w).
Proof.
  intros Hw. unfold App.deleteSingleFont.
  destruct confirmed; cbn [negb]; [| exact Hw]. destruct ok.
  - cbv zeta.
    by apply toast_records, filter_records, forget_records, delete_records.
  - by apply toast_records, delete_records.
Qed.

Lemma clearAll_records confirmed ok ok' w :
  recordsAll P w -> recordsAll P (App.clearAll confirmed ok ok' w).
Proof.
  intros Hw. unfold App.clearAll.
  destruct confirmed; cbn [negb]; [| exact Hw].
  destruct (isProcessing w); [exact Hw |].
  assert (Hc : recordsAll P
                 (set_objectUrls ∅
                    (set_live_urls
                       (live_urls (DB.clear true (set_isProcessing true w))
                        ∖ App.heldUrls (DB.clear true (set_isProcessing true w)))
                       (DB.clear true (set_isProcessing true w))))).
  { destruct Hw as [_ Hh]. split; [constructor | exact Hh]. }
  destruct ok; [destruct ok' |].
  - cbv zeta. by apply set_isProcessing_records, toast_records, loadFonts_records.
  - by apply set_isProcessing_records, toast_records.
  - exact Hw.
Qed.

Lemma updateTag_records key rawTag ok w :
  recordsAll P w -> recordsAll P (App.updateTag key rawTag ok w).
Proof.
  intros Hw. destruct (App.findFont key w) as [l|] eqn:Hl.
  2: { unfold App.updateTag. rewrite Hl. exact Hw. }
  pose proof (findFont_Some _ _ _ Hl) as [_ Hn].
  unfold nameOf in Hn. destruct (obj w l) as [font|] eqn:Hf; [| done].
  rewrite (updateTag_found key rawTag ok w l font Hl Hf).
  destruct Hw as [Hs Hh].
  assert (Hp : P (withTag font (Security.sanitizeTag rawTag))).
  { apply P_tag. rewrite List.Forall_forall in Hh. apply Hh.
    apply list_elem_of_In. by eapply list_elem_of_lookup_2. }
  unfold DB.put. destruct ok.
  - split.
    + change (Forall P (store_put (withTag font (Security.sanitizeTag rawTag))
                          (store w))).
      apply List.Forall_forall. intros x Hx.
      apply store_put_elem in Hx as [-> | Hx]; [done |].
      rewrite List.Forall_forall in Hs. by apply Hs.
    + by apply Forall_insert.
  - split; [exact Hs | by apply Forall_insert].
Qed.

Lemma exportRow_registry w l : registry (App.exportRow w l) = registry w.
Proof.
  unfold App.exportRow. destruct (obj w l); [| done].
  apply injectFontFace_registry.
Qed.

Lemma exportLoop_registry total chunks : forall i w,
  fonts (App.exportLoop total i chunks w) = fonts w
  /\ filtered (App.exportLoop total i chunks w) = filtered w
  /\ search (App.exportLoop total i chunks w) = search w
  /\ heap (App.exportLoop total i chunks w) = heap w
  /\ store (App.exportLoop total i chunks w) = store w
  /\ isProcessing (App.exportLoop total i chunks w) = isProcessing w.
Proof.
  induction chunks as [|c chunks IH]; intros i w; [done |].
  cbn [App.exportLoop].
  assert (Hc : registry (fold_left App.exportRow c w) = registry w).
  { apply (fold_left_invariant (fun x => registry x = registry w));
      [intros a b Ha; by rewrite exportRow_registry | done]. }
  injection Hc as H1 H2 H3 H4 H5 _ H6.
  destruct (IH (i + App.CHUNK_SIZE)
              (updateProgress (Nat.min (i + App.CHUNK_SIZE) total) total true
                 (fold_left App.exportRow c w)))
    as (E1 & E2 & E3 & E4 & E5 & E6).
  split; [exact (eq_trans E1 H1) |]. split; [exact (eq_trans E2 H2) |].
  split; [exact (eq_trans E3 H3) |]. split; [exact (eq_trans E4 H4) |].
  split; [exact (eq_trans E5 H5) | exact (eq_trans E6 H6)].
Qed.

Lemma exportPDF_records w : recordsAll P w -> recordsAll P (App.exportPDF w).
Proof.
  intros Hw. unfold App.exportPDF.
  destruct (_ && _); [exact Hw |].
  destruct (length (fonts w) =? 0)%nat; [exact Hw |].
  cbv zeta.
  match goal with
  | |- recordsAll P (App.exportLoop ?t ?i ?c ?x) =>
    destruct (exportLoop_registry t c i x) as (_ & _ & _ & Hhe & Hst & _)
  end.
  by apply (recordsAll_frame w).
Qed.

Lemma step_records w w' : App.step w w' -> recordsAll P w -> recordsAll P w'.
Proof.
  intros Hstep Hw. destruct Hstep.
  - by apply loadFonts_records.
  - unfold App.onSearch. by apply filter_records.
  - by apply handleUpload_records.
  - unfold App.uploadDone. cbv zeta. apply loadFonts_records.
    destruct (0 <? n)%nat; [apply toast_records |];
      by apply set_isProcessing_records, updateProgress_records.
  - by apply deleteSingleFont_records.
  - by apply clearAll_records.
  - by apply updateTag_records.
  - by apply exportPDF_records.
  - exact Hw.
Qed.

Lemma reachable_records w : App.reachable w -> recordsAll P w.
Proof.
  induction 1 as [|w w' _ IH Hs]; [by split; constructor |].
  by apply (step_records w).
Qed.

End RecordInvariant.

Section ProvenanceFacts.
Context `{Platform}.

Lemma reachable_fromFile w : App.reachable w -> recordsAll fromFile w.
Proof.
  apply reachable_records.
  - intros g tag He Hp. by exists g.
  - intros f t (g & He & Hp & Hn & Hd). by exists g.
Qed.

(** X10.  Every record of the object store and every record object of a
    world the page can reach from an empty library was made by
    [handleUpload] from a file whose lowered name ends with a font extension,
    whose size is within [MAX_FILE_SIZE], whose signature check resolved to
    true and whose content could be read; since then only its tag can have
    changed. *)
Theorem records_come_from_files w r :
  App.reachable w ->
  In r (store w) \/ In r (heap w) ->
  exists file,
    App.hasValidExtension file = true
    /\ (size file <= MAX_FILE_SIZE)%N
    /\ Security.checkSignature file = Security.Resolved true
    /\ readable file = true
    /\ fileName r = name file
    /\ data r = DBlob (App.blobOf file).
Proof.
  intros Hr Hin. destruct (reachable_fromFile w Hr) as [Hs Hh].
  rewrite List.Forall_forall in Hs, Hh.
  assert (Hf : fromFile r) by (destruct Hin; auto).
  destruct Hf as (g & He & Hp & Hn & Hd).
  apply persistable_spec in Hp as (Hsz & Hsig & Hrd).
  by exists g.
Qed.











End ProvenanceFacts.

(* ===================================================================== *)
(** * 22. Emptying and reloading the library *)
(* ===================================================================== *)

Lemma afterClear_fields w :
  store (afterClear w) = [] /\ fonts (afterClear w) = fonts w
  /\ filtered (afterClear w) = filtered w
  /\ objectUrls (afterClear w) = ∅
  /\ live_urls (afterClear w) = live_urls w ∖ App.heldUrls w
  /\ renderedMap (afterClear w) = renderedMap w
  /\ grid (afterClear w) = grid w
  /\ trace (afterClear w) = trace w ++ [EClear true].
Proof. by repeat split. Qed.

(** The end of a handler: a toast, and the busy flag is set. *)
Lemma finish_fields b m e x :
  let w' := set_isProcessing b (toast m e x) in
  store w' = store x /\ fonts w' = fonts x /\ filtered w' = filtered x
  /\ objectUrls w' = objectUrls x /\ live_urls w' = live_urls x
  /\ renderedMap w' = renderedMap x /\ grid w' = grid x
  /\ sheet w' = sheet x /\ loadedFonts w' = loadedFonts x
  /\ isProcessing w' = b
  /\ trace w' = trace x ++ [EToast m e].
Proof. by repeat split. Qed.

Section Reload.
Context `{Platform}.

Lemma cleanup_fresh w :
  renderedMap w = ∅ -> cleanup w = set_grid (grid w) (set_renderedMap ∅ w).
Proof.
  intros Hr. unfold cleanup. rewrite Hr, !map_filter_empty, map_to_list_empty.
  by rewrite List_filter_all.
Qed.

Lemma loadFonts_empty w :
  store w = [] ->
  let w' := App.loadFonts true w in
  fonts w' = [] /\ filtered w' = [] /\ grid w' = [NEmpty]
  /\ renderedMap w' = ∅ /\ sheet w' = [] /\ loadedFonts w' = ∅
  /\ objectUrls w' = objectUrls w /\ live_urls w' = live_urls w
  /\ store w' = [] /\ heap w' = heap w /\ trace w' = trace w
  /\ isProcessing w' = isProcessing w /\ search w' = search w
  /\ next_id w' = next_id w.
Proof.
  intros Hs w'. subst w'. unfold App.loadFonts, DB.getAll. rewrite Hs.
  cbn [length seq]. rewrite app_nil_r. cbv zeta.
  unfold App.filter. simpl_world. cbn [List.filter].
  rewrite render_nil by done. rewrite cleanup_fresh by done.
  unfold MasterStyle.clear. simpl_world.
  rewrite bool_decide_eq_false_2 by (by intros ?%elem_of_nil).
  simpl_world. by repeat split.
Qed.

Lemma clearAll_went ok' w :
  isProcessing w = false ->
  App.clearAll true true ok' w =
  set_isProcessing false
    (if ok' then toast MsgCleared false (App.loadFonts true (afterClear w))
     else toast MsgClearFailed true (afterClear w)).
Proof. intros Hb. unfold App.clearAll. rewrite Hb. reflexivity. Qed.

(** X13.  [clearAll], confirmed on an idle page, with a [DB.clear] that
    succeeds.  When the reload succeeds too the library is gone everywhere:
    store, registry, view, URL map, rendered map, style sheet and cache are
    empty, every object URL of the URL map is revoked, the grid shows the
    placeholder alone, the busy flag is down and the user is told.  When the
    reload fails the store is empty and the URLs are revoked all the same,
    while registry, view and grid stay as they were, and the user is told
    that clearing failed. *)
Theorem clearAll_clears w :
  isProcessing w = false ->
  (let w' := App.clearAll true true true w in
   store w' = [] /\ fonts w' = [] /\ filtered w' = []
   /\ objectUrls w' = ∅ /\ live_urls w' = live_urls w ∖ App.heldUrls w
   /\ renderedMap w' = ∅ /\ grid w' = [NEmpty]
   /\ sheet w' = [] /\ loadedFonts w' = ∅
   /\ isProcessing w' = false
   /\ emitted w w' = [EClear true; EToast MsgCleared false])
  /\ (let w' := App.clearAll true true false w in
      store w' = [] /\ fonts w' = fonts w /\ filtered w' = filtered w
      /\ objectUrls w' = ∅ /\ live_urls w' = live_urls w ∖ App.heldUrls w
      /\ renderedMap w' = renderedMap w /\ grid w' = grid w
      /\ isProcessing w' = false
      /\ emitted w w' = [EClear true; EToast MsgClearFailed true]).
Proof.
  intros Hb.
  destruct (afterClear_fields w) as (A1 & A2 & A3 & A4 & A5 & A6 & A7 & A8).
  split; intros w'; subst w'; rewrite clearAll_went by done.
  - destruct (loadFonts_empty (afterClear w) A1)
      as (Hfo & Hfi & Hg & Hr & Hsh & Hl & Hu & Hlv & Hst & _ & Ht & _).
    destruct (finish_fields false MsgCleared false
                (App.loadFonts true (afterClear w)))
      as (F1 & F2 & F3 & F4 & F5 & F6 & F7 & F8 & F9 & F10 & F11).
    rewrite F1, F2, F3, F4, F5, F6, F7, F8, F9, F10.
    rewrite Hfo, Hfi, Hg, Hr, Hsh, Hl, Hu, Hlv, Hst, A4, A5.
    repeat (split; [reflexivity |]).
    apply emitted_app. rewrite F11, Ht, A8. by rewrite <- app_assoc.
  - destruct (finish_fields false MsgClearFailed true (afterClear w))
      as (F1 & F2 & F3 & F4 & F5 & F6 & F7 & _ & _ & F10 & F11).
    rewrite F1, F2, F3, F4, F5, F6, F7, F10.
    rewrite A1, A2, A3, A4, A5, A6, A7.
    repeat (split; [reflexivity |]).
    apply emitted_app. rewrite F11, A8. by rewrite <- app_assoc.
Qed.

Lemma seq_lookup_heap (hp st : list FontRecord) :
  Forall2 (fun l r => (hp ++ st) !! l = Some r) (seq (length hp) (length st)) st.
Proof.
  revert hp. induction st as [|r st IH]; intros hp; [constructor |].
  cbn [length seq]. constructor.
  - by rewrite list_lookup_middle.
  - specialize (IH (hp ++ [r])). rewrite length_app in IH. simpl in IH.
    rewrite Nat.add_1_r, <- app_assoc in IH. exact IH.
Qed.

(** X14.  [loadFonts], when [DB.getAll] resolves, makes the registry a list
    of fresh record objects, one for each record of the store, in the order
    of the store, which is the order of the keys; the record objects that
    were there stay as they are, out of the registry.  Store, search string,
    busy flag and events are as before. *)
Theorem loadFonts_lists_store w :
  let w' := App.loadFonts true w in
  store w' = store w
  /\ Forall2 (fun l r => obj w' l = Some r) (fonts w') (store w)
  /\ names w' (fonts w') = fileName <$> store w
  /\ Forall (fun l => length (heap w) <= l) (fonts w')
  /\ (forall l, l < length (heap w) -> obj w' l = obj w l)
  /\ search w' = search w /\ isProcessing w' = isProcessing w
  /\ trace w' = trace w.
Proof.
  intros w'. subst w'. unfold App.loadFonts, DB.getAll. cbv zeta.
  match goal with |- context [App.filter ?x] => set (w3 := x) end.
  pose proof (filter_registry w3) as Hreg.
  injection Hreg as Hfo Hfi Hse Hhe Hst Htr Hbu.
  assert (Hh3 : heap (App.filter w3) = heap w ++ store w) by exact Hhe.
  assert (Hf3 : fonts (App.filter w3) = seq (length (heap w)) (length (store w)))
    by exact Hfo.
  split; [exact Hst |]. split.
  { rewrite Hf3. unfold obj. rewrite Hh3. apply seq_lookup_heap. }
  split.
  { rewrite Hf3. by apply names_seq. }
  split.
  { rewrite Hf3. apply List.Forall_forall. intros l Hl. apply in_seq in Hl. lia. }
  split.
  { intros l Hl. unfold obj. rewrite Hh3. by apply lookup_app_l. }
  split; [exact Hse |]. split; [exact Hbu | exact Htr].
Qed.

End Reload.

(* ===================================================================== *)
(** * 23. Object URLs *)
(* ===================================================================== *)

Lemma heldUrls_spec w id :
  id ∈ App.heldUrls w <-> exists k, objectUrls w !! k = Some (UObj id).
Proof.
  unfold App.heldUrls. rewrite elem_of_list_to_set, list_elem_of_omap. split.
  - intros ([k u] & Hin & Hu). apply elem_of_map_to_list in Hin.
    simpl in Hu. destruct u as [i|s]; [| done]. injection Hu as ->. by exists k.
  - intros [k Hk]. exists (k, UObj id). split; [| done].
    by apply elem_of_map_to_list.
Qed.

Lemma urlInv_frame w w' :
  objectUrls w' = objectUrls w -> live_urls w' = live_urls w ->
  next_id w <= next_id w' -> urlInv w -> urlInv w'.
Proof.
  intros Ho Hl Hn (I1 & I2 & I3). unfold urlInv. rewrite Ho, Hl.
  split; [| split; [exact I2 | exact I3]].
  intros k id Hk. destruct (I1 k id Hk). split; [done | lia].
Qed.

Lemma urlGrow_refl w : urlGrow w w.
Proof. by split. Qed.

Lemma urlGrow_trans w1 w2 w3 : urlGrow w1 w2 -> urlGrow w2 w3 -> urlGrow w1 w3.
Proof.
  intros [S1 H1] [S2 H2]. split; [by etrans | auto].
Qed.

Lemma urlGrow_frame w w' :
  objectUrls w' = objectUrls w -> live_urls w' = live_urls w ->
  next_id w <= next_id w' -> urlGrow w w'.
Proof.
  intros Ho Hl Hn. split; [by rewrite Ho | by apply urlInv_frame].
Qed.

Lemma urlGrow_same w w' : urls w' = urls w -> urlGrow w w'.
Proof.
  intros Hu. injection Hu as Ho Hl Hn. apply urlGrow_frame; [done | done | lia].
Qed.

Lemma urlGrow_fold {B} (f : World -> B -> World) l :
  (forall a b, urlGrow a (f a b)) -> forall w, urlGrow w (fold_left f l w).
Proof.
  intros Hf. induction l as [|b l IH]; intros w; simpl; [apply urlGrow_refl |].
  eapply urlGrow_trans; [apply Hf | apply IH].
Qed.

Section ObjectUrls.
Context `{Platform}.

Lemma getFontUrl_grow key d w : urlGrow w (App.getFontUrl key d w).2.
Proof.
  unfold App.getFontUrl.
  destruct (objectUrls w !! key) as [u|] eqn:Hk; [apply urlGrow_refl |].
  destruct d as [b|s|]; [| | apply urlGrow_refl]; simpl.
  - split; [by apply insert_subseteq |].
    intros (I1 & I2 & I3). unfold urlInv. simpl_world.
    split; [| split].
    + intros k id Hi. apply lookup_insert_Some in Hi as [[_ Hi] | [_ Hi]].
      * injection Hi as <-. split; [| lia].
        apply elem_of_union. left. by apply elem_of_singleton.
      * destruct (I1 k id Hi). split; [| lia].
        apply elem_of_union. by right.
    + intros id Hid. apply elem_of_union in Hid as [Hid | Hid].
      * apply elem_of_singleton in Hid as ->. exists key.
        by rewrite lookup_insert_eq.
      * destruct (I2 id Hid) as [k Hi]. exists k.
        rewrite lookup_insert_ne; [done |]. intros <-. by rewrite Hk in Hi.
    + intros k1 k2 id H1 H2.
      apply lookup_insert_Some in H1 as [[E1 H1] | [N1 H1]];
        apply lookup_insert_Some in H2 as [[E2 H2] | [N2 H2]].
      * by rewrite <- E1, <- E2.
      * injection H1 as <-. destruct (I1 k2 _ H2). lia.
      * injection H2 as <-. destruct (I1 k1 _ H1). lia.
      * by apply (I3 k1 k2 id).
  - split; [by apply insert_subseteq |].
    intros (I1 & I2 & I3). unfold urlInv. simpl_world.
    split; [| split].
    + intros k id Hi. apply lookup_insert_Some in Hi as [[_ Hi] | [_ Hi]]; [done |].
      by apply (I1 k).
    + intros id Hid. destruct (I2 id Hid) as [k Hi]. exists k.
      rewrite lookup_insert_ne; [done |]. intros <-. by rewrite Hk in Hi.
    + intros k1 k2 id H1 H2.
      apply lookup_insert_Some in H1 as [[E1 H1] | [N1 H1]]; [done |].
      apply lookup_insert_Some in H2 as [[E2 H2] | [N2 H2]]; [done |].
      by apply (I3 k1 k2 id).
Qed.

Lemma injectFontFace_grow key d w : urlGrow w (App.injectFontFace key d w).2.
Proof.
  unfold App.injectFontFace.
  destruct (bool_decide _); [apply urlGrow_refl |].
  pose proof (getFontUrl_grow key d w) as Hg.
  destruct (App.getFontUrl key d w) as [[url|] w1]; simpl in Hg; [| done].
  destruct (App.url_truthy url); [| done]. simpl.
  eapply urlGrow_trans; [exact Hg |]. apply urlGrow_same.
  unfold MasterStyle.insert. by destruct (insertRule_ok _).
Qed.

Lemma place_urls i c w : urls (App.place i c w) = urls w.
Proof. unfold App.place. by repeat case_match. Qed.

Lemma renderOne_grow w it : urlGrow w (App.renderOne w it).
Proof.
  destruct it as [i l]. unfold App.renderOne.
  destruct (obj w l) as [font|]; [| apply urlGrow_refl].
  destruct (renderedMap w !! fileName font);
    [apply urlGrow_same, place_urls |].
  pose proof (injectFontFace_grow (fileName font) (data font) w) as Hi.
  destruct (App.injectFontFace _ _ w) as [[id|] w1]; simpl in Hi; [| done].
  eapply urlGrow_trans; [exact Hi |].
  eapply urlGrow_trans; [| apply urlGrow_same, place_urls].
  apply urlGrow_frame; simpl; [done | done | lia].
Qed.

Lemma render_grow w : urlGrow w (App.render w).
Proof.
  unfold App.render.
  match goal with
  | |- urlGrow _ (fold_left _ _ ?w2) =>
    apply (urlGrow_trans w w2); [| apply urlGrow_fold, renderOne_grow]
  end.
  apply urlGrow_same. simpl. by repeat case_match.
Qed.

Lemma filter_grow w : urlGrow w (App.filter w).
Proof.
  unfold App.filter.
  eapply urlGrow_trans; [| apply render_grow]. by apply urlGrow_same.
Qed.

Lemma loadFonts_grow ok w : urlGrow w (App.loadFonts ok w).
Proof.
  destruct ok; [| apply urlGrow_refl]. unfold App.loadFonts. cbv zeta.
  eapply urlGrow_trans; [| apply filter_grow]. by apply urlGrow_same.
Qed.

Lemma onSearch_grow value w : urlGrow w (App.onSearch value w).
Proof.
  unfold App.onSearch.
  eapply urlGrow_trans; [| apply filter_grow]. by apply urlGrow_same.
Qed.

Lemma handleUpload_urls est put_ok files w :
  urls (App.handleUpload est put_ok files w).1 = urls w.
Proof.
  destruct (handleUpload_outcome est put_ok files w)
    as [Hb -> | m Hb -> _ | n evs Hb _ _ [st ->] _ _ _]; done.
Qed.

Lemma uploadDone_grow n ok w : urlGrow w (App.uploadDone n ok w).
Proof.
  unfold App.uploadDone. cbv zeta.
  eapply urlGrow_trans; [| apply loadFonts_grow].
  apply urlGrow_same. by destruct (0 <? n)%nat.
Qed.

Lemma updateTag_urls key rawTag ok w :
  urls (App.updateTag key rawTag ok w) = urls w.
Proof.
  unfold App.updateTag, App.setUserTag. repeat case_match; try done.
  all: unfold DB.put; by case_match.
Qed.

Lemma exportRow_grow w l : urlGrow w (App.exportRow w l).
Proof.
  unfold App.exportRow. destruct (obj w l); [| apply urlGrow_refl].
  apply injectFontFace_grow.
Qed.

Lemma exportLoop_grow total chunks : forall i w,
  urlGrow w (App.exportLoop total i chunks w).
Proof.
  induction chunks as [|c chunks IH]; intros i w; [apply urlGrow_refl |].
  cbn [App.exportLoop].
  eapply urlGrow_trans; [| apply IH].
  eapply urlGrow_trans; [apply (urlGrow_fold App.exportRow), exportRow_grow |].
  by apply urlGrow_same.
Qed.

Lemma exportPDF_grow w : urlGrow w (App.exportPDF w).
Proof.
  unfold App.exportPDF.
  destruct (_ && _); [by apply urlGrow_same |].
  destruct (length (fonts w) =? 0)%nat; [by apply urlGrow_same |].
  cbv zeta. eapply urlGrow_trans; [| apply exportLoop_grow].
  by apply urlGrow_same.
Qed.

(** *** What takes URLs away *)

Lemma releaseUrl_urlInv key w : urlInv w -> urlInv (App.releaseUrl key w).
Proof.
  intros (I1 & I2 & I3). unfold App.releaseUrl.
  destruct (objectUrls w !! key) as [u|] eqn:Hk; [| done].
  destruct u as [id0|s]; unfold App.revoke, urlInv; simpl_world.
  - split; [| split].
    + intros k id Hi. apply lookup_delete_Some in Hi as [Hne Hi].
      destruct (I1 k id Hi). split; [| done].
      apply elem_of_difference. split; [done |].
      intros ->%elem_of_singleton. apply Hne. by apply (I3 key k id0).
    + intros id [Hid Hne]%elem_of_difference.
      destruct (I2 id Hid) as [k Hi]. exists k.
      rewrite lookup_delete_ne; [done |]. intros <-.
      rewrite Hk in Hi. injection Hi as ->. by apply Hne, elem_of_singleton.
    + intros k1 k2 id H1 H2.
      apply lookup_delete_Some in H1 as [_ H1].
      apply lookup_delete_Some in H2 as [_ H2]. by apply (I3 k1 k2 id).
  - split; [| split].
    + intros k id Hi. apply lookup_delete_Some in Hi as [_ Hi]. by apply (I1 k).
    + intros id Hid. destruct (I2 id Hid) as [k Hi]. exists k.
      rewrite lookup_delete_ne; [done |]. intros <-. by rewrite Hk in Hi.
    + intros k1 k2 id H1 H2.
      apply lookup_delete_Some in H1 as [_ H1].
      apply lookup_delete_Some in H2 as [_ H2]. by apply (I3 k1 k2 id).
Qed.

Lemma releaseUrl_others key w k :
  k <> key -> objectUrls (App.releaseUrl key w) !! k = objectUrls w !! k.
Proof.
  intros Hne. unfold App.releaseUrl.
  destruct (objectUrls w !! key) as [u|]; [| done].
  simpl_world. by rewrite lookup_delete_ne.
Qed.

Lemma forgetFont_urls key w : urls (App.forgetFont key w) = urls w.
Proof. done. Qed.

Lemma removeCard_urls key w : urls (App.removeCard key w) = urls w.
Proof. unfold App.removeCard. by case_match. Qed.

Lemma delete_urls key ok w : urls (DB.delete key ok w) = urls w.
Proof. unfold DB.delete. by destruct ok. Qed.

Lemma toast_grow m e w : urlGrow w (toast m e w).
Proof. by apply urlGrow_same. Qed.

Lemma deleteSingleFont_urlInv key confirmed ok w :
  urlInv w -> urlInv (App.deleteSingleFont key confirmed ok w).
Proof.
  intros Hw. unfold App.deleteSingleFont.
  destruct confirmed; cbn [negb]; [| exact Hw]. destruct ok.
  - cbv zeta. apply toast_grow, filter_grow.
    apply (urlGrow_same _ _ (removeCard_urls key _)).
    apply releaseUrl_urlInv.
    apply (urlGrow_same _ _ (forgetFont_urls key _)).
    by apply (urlGrow_same _ _ (delete_urls key true w)).
  - apply toast_grow. by apply (urlGrow_same _ _ (delete_urls key false w)).
Qed.

Lemma deleteSingleFont_others key confirmed ok w k u :
  k <> key \/ confirmed = false \/ ok = false ->
  objectUrls w !! k = Some u ->
  objectUrls (App.deleteSingleFont key confirmed ok w) !! k = Some u.
Proof.
  intros Hc Hk. unfold App.deleteSingleFont.
  destruct confirmed; cbn [negb]; [| exact Hk]. destruct ok.
  - destruct Hc as [Hne | [? | ?]]; try done. cbv zeta.
    eapply lookup_weaken; [| apply toast_grow].
    eapply lookup_weaken; [| apply filter_grow].
    pose proof (removeCard_urls key
                  (App.releaseUrl key
                     (App.forgetFont key (DB.delete key true w)))) as Hr.
    injection Hr as -> _ _.
    by rewrite releaseUrl_others.
  - exact Hk.
Qed.

Lemma afterClear_urlInv w : urlInv w -> urlInv (afterClear w).
Proof.
  intros (I1 & I2 & I3).
  destruct (afterClear_fields w) as (_ & _ & _ & Ho & Hl & _).
  unfold urlInv. rewrite Ho, Hl. split; [| split].
  - intros k id Hk. by rewrite lookup_empty in Hk.
  - intros id [Hid Hne]%elem_of_difference. exfalso. apply Hne.
    apply heldUrls_spec. by apply I2.
  - intros k1 k2 id Hk. by rewrite lookup_empty in Hk.
Qed.

Lemma set_isProcessing_grow b w : urlGrow w (set_isProcessing b w).
Proof. by apply urlGrow_same. Qed.

Lemma clearAll_urlInv confirmed ok ok' w :
  urlInv w -> urlInv (App.clearAll confirmed ok ok' w).
Proof.
  intros Hw. unfold App.clearAll.
  destruct confirmed; cbn [negb]; [| exact Hw].
  destruct (isProcessing w) eqn:Hb; [exact Hw |].
  destruct ok.
  - pose proof (clearAll_went ok' w Hb) as Hc.
    unfold App.clearAll in Hc. rewrite Hb in Hc. cbn [negb] in Hc.
    rewrite Hc. apply set_isProcessing_grow.
    destruct ok'; apply toast_grow; [apply loadFonts_grow |];
      by apply afterClear_urlInv.
  - apply set_isProcessing_grow, toast_grow.
    unfold DB.clear. by apply (urlGrow_same w).
Qed.

Lemma clearAll_kept confirmed ok ok' w k u :
  confirmed = false \/ ok = false \/ isProcessing w = true ->
  objectUrls w !! k = Some u ->
  objectUrls (App.clearAll confirmed ok ok' w) !! k = Some u.
Proof.
  intros Hc Hk. unfold App.clearAll.
  destruct confirmed; cbn [negb]; [| exact Hk].
  destruct (isProcessing w); [exact Hk |].
  destruct ok; [by destruct Hc as [? | [? | ?]] | exact Hk].
Qed.

Lemma step_urlInv w w' : App.step w w' -> urlInv w -> urlInv w'.
Proof.
  intros Hstep Hw. destruct Hstep.
  - by apply loadFonts_grow.
  - by apply onSearch_grow.
  - by apply (urlGrow_same _ _ (handleUpload_urls est put_ok files w)).
  - by apply uploadDone_grow.
  - by apply deleteSingleFont_urlInv.
  - by apply clearAll_urlInv.
  - by apply (urlGrow_same _ _ (updateTag_urls key rawTag ok w)).
  - by apply exportPDF_grow.
  - by apply (urlGrow_same w).
Qed.

Lemma initial_urlInv : urlInv initial.
Proof.
  split; [| split].
  - intros k id Hk. cbn in Hk. by rewrite lookup_empty in Hk.
  - intros id Hid. cbn in Hid. by apply elem_of_empty in Hid.
  - intros k1 k2 id Hk. cbn in Hk. by rewrite lookup_empty in Hk.
Qed.

Lemma reachable_urlInv w : App.reachable w -> urlInv w.
Proof.
  induction 1 as [|w w' _ IH Hs]; [apply initial_urlInv |].
  by apply (step_urlInv w).
Qed.

(** X15.  The URL map accounts for every object URL in every world the page
    can reach.  A URL of the map has not been revoked; a URL that was made
    and not revoked is in the map, so none is lost; no two keys have the
    same URL; and the URLs not revoked are exactly the ones [clearAll] would
    revoke. *)
Theorem object_urls_accounted w :
  App.reachable w ->
  (forall k id, objectUrls w !! k = Some (UObj id) -> id ∈ live_urls w)
  /\ (forall id, id ∈ live_urls w ->
                 exists k, objectUrls w !! k = Some (UObj id))
  /\ (forall k1 k2 id,
        objectUrls w !! k1 = Some (UObj id) ->
        objectUrls w !! k2 = Some (UObj id) -> k1 = k2)
  /\ live_urls w = App.heldUrls w.
Proof.
  intros Hr. destruct (reachable_urlInv w Hr) as (I1 & I2 & I3).
  split; [intros k id Hk; by destruct (I1 k id Hk) |].
  split; [exact I2 |]. split; [exact I3 |].
  apply set_eq. intros id. rewrite heldUrls_spec. split; [apply I2 |].
  intros [k Hk]. by destruct (I1 k id Hk).
Qed.

(** X16.  The URL of a key stays in the URL map until the key is deleted or
    the library is cleared: every other step of the page, the reload after
    an upload under the same name included, keeps the entry as it is, and
    [getFontUrl] answers with it whatever the data. *)
Theorem url_map_survives w w' k u :
  App.step w w' ->
  objectUrls w !! k = Some u ->
  (objectUrls w' !! k = Some u
   /\ forall d, App.getFontUrl k d w' = (Some u, w'))
  \/ w' = App.deleteSingleFont k true true w
  \/ exists ok', isProcessing w = false /\ w' = App.clearAll true true ok' w.
Proof.
  intros Hstep Hk.
  assert (Hget : forall x, objectUrls x !! k = Some u ->
                           objectUrls x !! k = Some u
                           /\ forall d, App.getFontUrl k d x = (Some u, x)).
  { intros x Hx. split; [done |]. intros d. unfold App.getFontUrl. by rewrite Hx. }
  destruct Hstep.
  - left. apply Hget. eapply lookup_weaken; [exact Hk | apply loadFonts_grow].
  - left. apply Hget. eapply lookup_weaken; [exact Hk | apply onSearch_grow].
  - left. apply Hget.
    pose proof (handleUpload_urls est put_ok files w) as Hu.
    injection Hu as -> _ _. exact Hk.
  - left. apply Hget. eapply lookup_weaken; [exact Hk | apply uploadDone_grow].
  - destruct (decide (k = key)) as [-> | Hne];
      [destruct confirmed; [destruct ok |] |].
    + right. by left.
    + left. apply Hget. apply deleteSingleFont_others; auto.
    + left. apply Hget. apply deleteSingleFont_others; auto.
    + left. apply Hget. apply deleteSingleFont_others; auto.
  - destruct confirmed; [destruct ok; [destruct (isProcessing w) eqn:Hb |] |].
    + left. apply Hget. apply clearAll_kept; auto.
    + right. right. by exists ok'.
    + left. apply Hget. apply clearAll_kept; auto.
    + left. apply Hget. apply clearAll_kept; auto.
  - left. apply Hget.
    pose proof (updateTag_urls key rawTag ok w) as Hu.
    injection Hu as -> _ _. exact Hk.
  - left. apply Hget. eapply lookup_weaken; [exact Hk | apply exportPDF_grow].
  - left. by apply Hget.
Qed.

End ObjectUrls.

(* ===================================================================== *)
(** * 24. The export *)
(* ===================================================================== *)



Section ExportFacts.
Context `{Platform}.






End ExportFacts.

(* ===================================================================== *)
(** * 25. What a deletion leaves *)
(* ===================================================================== *)

Lemma find_none_all {A} (p : A -> bool) l :
  (forall x, In x l -> p x = false) -> List.find p l = None.
Proof.
  induction l as [|x l IH]; intros Hp; [done |]. simpl.
  rewrite (Hp x) by (by left). apply IH. intros y Hy. apply Hp. by right.
Qed.

Lemma names_absent w key ls :
  key ∉ names w ls <-> forall l, In l ls -> nameOf w l <> Some key.
Proof.
  unfold names. rewrite list_elem_of_omap. split.
  - intros Hn l Hl Hk. apply Hn. exists l. split; [by apply list_elem_of_In | done].
  - intros Hn (l & Hl & Hk). by apply (Hn l); [apply list_elem_of_In |].
Qed.

Lemma names_heap w w' ls : heap w' = heap w -> names w' ls = names w ls.
Proof. intros Hh. unfold names, nameOf, obj. by rewrite Hh. Qed.

Section Deletion.
Context `{Platform}.

(** *** [render] makes URLs for the keys of the view only *)

Lemma getFontUrl_other key d w k :
  k <> key -> objectUrls (App.getFontUrl key d w).2 !! k = objectUrls w !! k.
Proof.
  intros Hne. unfold App.getFontUrl.
  destruct (objectUrls w !! key); [done |].
  destruct d; simpl; [| | done]; by rewrite lookup_insert_ne.
Qed.

Lemma injectFontFace_other key d w k :
  k <> key -> objectUrls (App.injectFontFace key d w).2 !! k = objectUrls w !! k.
Proof.
  intros Hne. unfold App.injectFontFace.
  destruct (bool_decide _); [done |].
  pose proof (getFontUrl_other key d w k Hne) as Hg.
  destruct (App.getFontUrl key d w) as [[url|] w1]; simpl in Hg; [| done].
  destruct (App.url_truthy url); [| done]. simpl.
  unfold MasterStyle.insert. by destruct (insertRule_ok _).
Qed.

Lemma place_objectUrls i c w : objectUrls (App.place i c w) = objectUrls w.
Proof. pose proof (place_urls i c w) as Hp. by injection Hp. Qed.

Lemma renderOne_other w i l k :
  nameOf w l <> Some k ->
  objectUrls (App.renderOne w (i, l)) !! k = objectUrls w !! k.
Proof.
  intros Hn. unfold App.renderOne. unfold nameOf in Hn.
  destruct (obj w l) as [font|]; [| done].
  destruct (renderedMap w !! fileName font).
  { by rewrite place_objectUrls. }
  assert (Hne : k <> fileName font) by (intros ->; by apply Hn).
  pose proof (injectFontFace_other (fileName font) (data font) w k Hne) as Hi.
  destruct (App.injectFontFace _ _ w) as [[id|] w1]; simpl in Hi; [| done].
  rewrite place_objectUrls. exact Hi.
Qed.

Lemma renderLoop_other k hp its : forall w,
  heap w = hp ->
  (forall it, In it its -> fileName <$> hp !! it.2 <> Some k) ->
  objectUrls (fold_left App.renderOne its w) !! k = objectUrls w !! k.
Proof.
  induction its as [|[i l] its IH]; intros w Hh Hn; [done |].
  cbn [fold_left]. rewrite IH.
  - apply renderOne_other. unfold nameOf, obj. rewrite Hh.
    apply (Hn (i, l)). by left.
  - pose proof (renderOne_registry w (i, l)) as Hreg.
    injection Hreg as _ _ _ Hhe _ _ _. by etrans.
  - intros it Hit. apply Hn. by right.
Qed.

Lemma render_other w k :
  k ∉ names w (filtered w) ->
  objectUrls (App.render w) !! k = objectUrls w !! k.
Proof.
  intros Hk0. pose proof (proj1 (names_absent w k _) Hk0) as Hk.
  unfold App.render.
  match goal with
  | |- objectUrls (fold_left _ _ ?w2) !! _ = _ =>
    assert (Hh2 : heap w2 = heap w) by (simpl; by repeat case_match);
    assert (Hf2 : filtered w2 = filtered w) by (simpl; by repeat case_match);
    assert (Ho2 : objectUrls w2 = objectUrls w) by (simpl; by repeat case_match);
    rewrite (renderLoop_other k (heap w) _ w2 Hh2)
  end.
  - by rewrite Ho2.
  - intros [i l] Hit. apply in_combine_r in Hit. simpl. rewrite Hf2 in Hit.
    apply (Hk l Hit).
Qed.

Lemma filter_other w k :
  k ∉ names w (fonts w) ->
  objectUrls (App.filter w) !! k = objectUrls w !! k.
Proof.
  intros Hk. unfold App.filter. rewrite render_other; [done |].
  apply names_absent. intros l Hl.
  apply (proj1 (names_absent w k (fonts w)) Hk).
  simpl in Hl. by apply filter_In in Hl as [? _].
Qed.

Lemma forgotten w key :
  let w1 := App.removeCard key
              (App.releaseUrl key (App.forgetFont key (DB.delete key true w))) in
  fonts w1 = List.filter (otherName w key) (fonts w)
  /\ heap w1 = heap w
  /\ store w1 = store_delete key (store w)
  /\ objectUrls w1 !! key = None.
Proof.
  intros w1. subst w1.
  unfold App.removeCard, App.releaseUrl, App.revoke, App.forgetFont, DB.delete.
  simpl_world.
  destruct (objectUrls w !! key) as [[id|s]|] eqn:Hk; simpl_world;
    destruct (renderedMap w !! key); simpl_world;
    repeat split; first [done | by apply lookup_delete_eq].
Qed.

Lemma deleteSingleFont_went key w :
  App.deleteSingleFont key true true w =
  toast MsgDeleted false
    (App.filter
       (App.removeCard key
          (App.releaseUrl key (App.forgetFont key (DB.delete key true w))))).
Proof. reflexivity. Qed.

Lemma toast_registry m e w :
  fonts (toast m e w) = fonts w /\ filtered (toast m e w) = filtered w
  /\ heap (toast m e w) = heap w /\ store (toast m e w) = store w
  /\ objectUrls (toast m e w) = objectUrls w
  /\ renderedMap (toast m e w) = renderedMap w.
Proof. by repeat split. Qed.

(** X18.  A deletion leaves nothing of the key.  After a confirmed
    [deleteSingleFont] whose store request succeeds, in a world the page can
    reach: the store has no record of the key, [find] does not find it in
    the registry, no record of the registry or of the view has it, and
    neither the rendered map nor the URL map has an entry for it, the
    re-sync included. *)
Theorem delete_leaves_no_trace key w :
  App.reachable w ->
  let w' := App.deleteSingleFont key true true w in
  store_get key (store w') = None
  /\ App.findFont key w' = None
  /\ (key ∉ names w' (fonts w'))
  /\ (key ∉ names w' (filtered w'))
  /\ renderedMap w' !! key = None
  /\ objectUrls w' !! key = None.
Proof.
  intros Hr. cbv zeta.
  assert (Hr' : App.reachable (App.deleteSingleFont key true true w)).
  { apply App.reachable_step with w; [done | apply App.step_delete]. }
  destruct (reachable_wellFormed _ Hr') as (_ & Hsub & Hsh).
  apply shown_spec in Hsh as (_ & _ & _ & Hdom).
  clear Hr'. revert Hsub Hdom.
  generalize (deleteSingleFont_went key w).
  generalize (App.deleteSingleFont key true true w). intros w' Hw' Hsub Hdom.
  destruct (forgotten w key) as (Hfo1 & Hhe1 & Hst1 & Hu1).
  revert Hw' Hfo1 Hhe1 Hst1 Hu1.
  generalize (App.removeCard key
                (App.releaseUrl key
                   (App.forgetFont key (DB.delete key true w)))).
  intros w1 Hw' Hfo1 Hhe1 Hst1 Hu1.
  pose proof (filter_registry w1) as Hreg.
  injection Hreg as Hfo Hfi _ Hhe Hst _ _.
  pose proof (filter_other w1 key) as Hoth.
  revert Hw' Hfo Hfi Hhe Hst Hoth.
  generalize (App.filter w1). intros w2 Hw' Hfo Hfi Hhe Hst Hoth.
  destruct (toast_registry MsgDeleted false w2) as (T1 & T2 & T3 & T4 & T5 & T6).
  rewrite <- Hw' in T1, T2, T3, T4, T5, T6. clear Hw'.
  simpl_world.
  assert (Hfo' : fonts w' = List.filter (otherName w key) (fonts w)).
  { by rewrite T1, Hfo, Hfo1. }
  assert (Hhe' : heap w' = heap w) by (by rewrite T3, Hhe, Hhe1).
  assert (Hst' : store w' = store_delete key (store w))
    by (by rewrite T4, Hst, Hst1).
  assert (Hn1 : key ∉ names w1 (fonts w1)).
  { apply names_absent. intros l Hl. rewrite Hfo1 in Hl.
    apply filter_In in Hl as [_ Hl]. unfold otherName in Hl.
    apply negb_true_iff, bool_decide_eq_false in Hl.
    unfold nameOf, obj in *. by rewrite Hhe1. }
  assert (Hnames : key ∉ names w' (fonts w')).
  { rewrite (names_heap w1 w') by (by rewrite Hhe', Hhe1).
    by rewrite T1, Hfo. }
  assert (Hview : key ∉ names w' (filtered w')).
  { intros Hin. apply Hnames.
    by apply (sublist_subseteq _ _ (names_sublist w' _ _ Hsub)). }
  split; [rewrite Hst'; apply store_get_delete |].
  split.
  { unfold App.findFont. apply find_none_all. intros l Hl.
    apply bool_decide_eq_false. by apply (proj1 (names_absent w' key _) Hnames). }
  split; [exact Hnames |]. split; [exact Hview |].
  split.
  { apply not_elem_of_dom. intros Hin. apply Hdom in Hin.
    by apply elem_of_list_to_set in Hin. }
  rewrite T5, Hoth; done.
Qed.

End Deletion.

(* ===================================================================== *)
(** * 26. More scenarios *)
(* ===================================================================== *)

Section MoreScenarios.
#[local] Existing Instance ascii_platform.



Lemma checkSignature_accepts_witness :
  let file := fontFile (str "a.ttf") in
  Forall (fun b => (b < 256)%N) (fbytes file)
  /\ (Security.checkSignature file = Security.Resolved true <->
      slice_readable file = true
      /\ exists sig rest, fbytes file = sig ++ rest /\ In sig SIGNATURES).
Proof.
  cbv zeta.
  assert (Hb : Forall (fun b => (b < 256)%N) (fbytes (fontFile (str "a.ttf")))).
  { apply Forall_forall. intros c Hc. simpl in Hc.
    repeat (apply elem_of_cons in Hc as [-> | Hc]; [reflexivity |]).
    by apply elem_of_nil in Hc. }
  split; [exact Hb | exact (checkSignature_accepts _ Hb)].
Defined.


Lemma registry_in_order_witness :
  App.reachable searched
  /\ NoDup (names searched (fonts searched))
  /\ sublist (filtered searched) (fonts searched).
Proof.
  split; [exact searched_reachable |].
  destruct (registry_in_order searched searched_reachable) as (Hn & _ & Hs).
  split; [exact Hn | exact Hs].
Defined.


Lemma store_in_order_witness :
  App.reachable library2 /\ NoDup (fileName <$> store library2).
Proof.
  split; [exact library2_reachable |].
  exact (proj1 (proj2 (store_in_order library2 library2_reachable))).
Defined.


Lemma records_come_from_files_witness :
  let r := {| fileName := str "bar.ttf";
              data := DBlob (App.blobOf (fontFile (str "bar.ttf")));
              userTag := Some [] |} in
  App.reachable library2
  /\ (In r (store library2) \/ In r (heap library2))
  /\ exists file,
       App.hasValidExtension file = true
       /\ Security.checkSignature file = Security.Resolved true
       /\ fileName r = name file.
Proof.
  cbv zeta.
  assert (Hin : In {| fileName := str "bar.ttf";
                      data := DBlob (App.blobOf (fontFile (str "bar.ttf")));
                      userTag := Some [] |} (store library2)
                \/ In {| fileName := str "bar.ttf";
                         data := DBlob (App.blobOf (fontFile (str "bar.ttf")));
                         userTag := Some [] |} (heap library2)).
  { left. vm_compute. left. reflexivity. }
  split; [exact library2_reachable |]. split; [exact Hin |].
  destruct (records_come_from_files library2 _ library2_reachable Hin)
    as (g & He & _ & Hs & _ & Hn & _).
  by exists g.
Defined.



Lemma clearAll_clears_witness :
  isProcessing library2 = false
  /\ store (App.clearAll true true true library2) = []
  /\ grid (App.clearAll true true true library2) = [NEmpty]
  /\ fonts (App.clearAll true true false library2) = fonts library2.
Proof.
  assert (Hb : isProcessing library2 = false) by (vm_compute; reflexivity).
  split; [exact Hb |].
  destruct (clearAll_clears library2 Hb) as (H1 & H2).
  cbv zeta in H1, H2.
  destruct H1 as (Hs & _ & _ & _ & _ & _ & Hg & _).
  destruct H2 as (_ & Hf & _).
  split; [exact Hs |]. split; [exact Hg | exact Hf].
Defined.

Lemma object_urls_accounted_witness :
  App.reachable library2 /\ live_urls library2 = App.heldUrls library2.
Proof.
  split; [exact library2_reachable |].
  exact (proj2 (proj2 (proj2 (object_urls_accounted library2 library2_reachable)))).
Defined.

Lemma url_map_survives_witness :
  let w' := App.onSearch (str "foo") library2 in
  App.step library2 w'
  /\ objectUrls library2 !! str "bar.ttf" = Some (UObj 0)
  /\ objectUrls w' !! str "bar.ttf" = Some (UObj 0).
Proof.
  cbv zeta.
  assert (Hs : App.step library2 (App.onSearch (str "foo") library2))
    by apply App.step_search.
  assert (Hk : objectUrls library2 !! str "bar.ttf" = Some (UObj 0))
    by (vm_compute; reflexivity).
  split; [exact Hs |]. split; [exact Hk |].
  destruct (url_map_survives _ _ _ _ Hs Hk) as [[Hu _] | [Hd | (ok' & _ & Hc)]].
  - exact Hu.
  - vm_compute. reflexivity.
  - vm_compute. reflexivity.
Defined.


Lemma delete_leaves_no_trace_witness :
  App.reachable library2
  /\ App.findFont (str "bar.ttf")
       (App.deleteSingleFont (str "bar.ttf") true true library2) = None.
Proof.
  split; [exact library2_reachable |].
  exact (proj1 (proj2 (delete_leaves_no_trace (str "bar.ttf") library2
                         library2_reachable))).
Defined.

End MoreScenarios.
